(** * mcp-agents: the channel resolution and freshness-tracking engine

    A shallow embedding of [src/agents/storage.py] and
    [src/agents/youtube_channel_agent.py], and the properties of the
    engine proved on it.

    - Values have the types the source annotates them with.  A [str] is a
      Rocq [string] (characters are 8-bit, so code points above 255 are not
      represented); an [Optional[str]] is an [option string], tested for
      truth as Python does.  Dicts are [gmap]s.  The state document is a
      dict whose slots ("resolved", "last_seen") are dicts; since it is
      read back from storage unchecked, a slot may also hold some other
      JSON value, and the accessors then raise as Python does.  The State
      Manager never looks at what the dicts of the slots hold, and is
      modelled for values of any type; the agent is modelled on the
      documents whose slots hold strings ([Doc]), the type the accessors
      are annotated with.
    - Exceptions are an explicit result type.  Code that mutates the state
      manager or calls out of the process lives in a state-and-exception
      monad; its state is the in-memory document and the log of the calls
      that left the process (YouTube requests and storage writes).
    - The YouTube Data API and the storage backend are an oracle [World]:
      a request is answered as a function of the instant it is issued at
      (the number of calls logged so far) and of its argument, so that two
      identical requests may be answered differently. *)

From Stdlib Require Import String Ascii List Bool Arith Lia.
From stdpp Require Import base option gmap strings list.

Open Scope string_scope.
Open Scope list_scope.

(* ===================================================================== *)
(** * Python values and exceptions                                        *)
(* ===================================================================== *)

Inductive exn_class :=
| HttpError
| ResourceNotFoundError
| AttributeError
| TypeError
| OSError
| JSONDecodeError
| UnicodeDecodeError
| KeyError
| OtherException.

(** An exception instance; [exn_msg] is what [str(e)] yields. *)
Record exn := Exn { exn_cls : exn_class; exn_msg : string }.

Inductive res (A : Type) :=
| Ok (a : A)
| Raise (e : exn).
Arguments Ok {A} a.
Arguments Raise {A} e.

(** Truthiness of a [str] and of an [Optional[str]]: [None] and the empty
    string are falsy. *)
Definition str_truthy (s : string) : bool :=
  match s with
  | EmptyString => false
  | String _ _ => true
  end.

Definition truthy (o : option string) : bool :=
  match o with
  | Some s => str_truthy s
  | None => false
  end.

(* ===================================================================== *)
(** * Strings: the three regular expressions, [split] and [strip]         *)
(* ===================================================================== *)

Module Re.

(** The character class [[a-zA-Z0-9_-]]. *)
Definition is_id_char (c : ascii) : bool :=
  (("a" <=? c) && (c <=? "z"))%char
  || (("A" <=? c) && (c <=? "Z"))%char
  || (("0" <=? c) && (c <=? "9"))%char
  || (c =? "_")%char
  || (c =? "-")%char.

(** [[a-zA-Z0-9_-]{n}] anchored at the head of [s]: the [n] characters
    consumed, if there are that many in the class. *)
Fixpoint take_id_chars (n : nat) (s : string) : option string :=
  match n with
  | 0 => Some ""
  | S n' =>
      match s with
      | String c s' =>
          if is_id_char c
          then option_map (String c) (take_id_chars n' s')
          else None
      | EmptyString => None
      end
  end.

(** [[a-zA-Z0-9_-]*] anchored at the head of [s], greedy. *)
Fixpoint span_id_chars (s : string) : string :=
  match s with
  | String c s' => if is_id_char c then String c (span_id_chars s') else ""
  | EmptyString => ""
  end.

(** [([a-zA-Z0-9_-]+)] anchored at the head of [s]: group 1. *)
Definition name_at (s : string) : option string :=
  match span_id_chars s with
  | EmptyString => None
  | run => Some run
  end.

(** A literal anchored at the head of [s]: what follows it. *)
Fixpoint literal (lit s : string) : option string :=
  match lit with
  | EmptyString => Some s
  | String c lit' =>
      match s with
      | String d s' => if (c =? d)%char then literal lit' s' else None
      | EmptyString => None
      end
  end.

(** [(UC[a-zA-Z0-9_-]{22})] anchored at the head of [s]. *)
Definition channel_id_at (s : string) : option string :=
  match literal "UC" s with
  | Some rest => option_map (String.append "UC") (take_id_chars 22 rest)
  | None => None
  end.

(** [@([a-zA-Z0-9_-]+)] anchored at the head of [s]. *)
Definition at_handle_at (s : string) : option string :=
  match literal "@" s with
  | Some rest => name_at rest
  | None => None
  end.

(** [/(?:c|user)/([a-zA-Z0-9_-]+)] anchored at the head of [s]: the
    alternation tries [c] first, and [user] when the rest of the pattern
    fails after [c]. *)
Definition path_name_at (s : string) : option string :=
  let rest_of_pattern (s' : string) :=
    match literal "/" s' with
    | Some tl => name_at tl
    | None => None
    end in
  match literal "/" s with
  | Some rest =>
      match
        match literal "c" rest with
        | Some s' => rest_of_pattern s'
        | None => None
        end
      with
      | Some name => Some name
      | None =>
          match literal "user" rest with
          | Some s' => rest_of_pattern s'
          | None => None
          end
      end
  | None => None
  end.

(** [re.search]: the match at the leftmost position that has one. *)
Fixpoint search (at_head : string -> option string) (s : string)
  : option string :=
  match at_head s with
  | Some m => Some m
  | None =>
      match s with
      | EmptyString => None
      | String _ s' => search at_head s'
      end
  end.

End Re.

Module Str.

(** [str.isspace] on one character, for the code points a Rocq [ascii]
    can hold (0..255): TAB..CR, FS..US, SPACE, NEL and NBSP. *)
Definition is_space (c : ascii) : bool :=
  let n := nat_of_ascii c in
  ((9 <=? n) && (n <=? 13))%nat || ((28 <=? n) && (n <=? 32))%nat
  || (n =? 133)%nat || (n =? 160)%nat.

Fixpoint lstrip (s : string) : string :=
  match s with
  | String c s' => if is_space c then lstrip s' else s
  | EmptyString => ""
  end.

(** [rstrip]: a character is dropped when it is a space and everything
    after it has been dropped. *)
Fixpoint rstrip (s : string) : string :=
  match s with
  | EmptyString => ""
  | String c s' =>
      match rstrip s' with
      | EmptyString => if is_space c then "" else String c ""
      | t => String c t
      end
  end.

(** [s.strip()] *)
Definition strip (s : string) : string := rstrip (lstrip s).

(** [s.split(sep)] for a one-character separator: never empty, and one
    more field than there are separators. *)
Fixpoint split (sep : ascii) (s : string) : list string :=
  match s with
  | EmptyString => [""]
  | String c s' =>
      if (c =? sep)%char then "" :: split sep s'
      else
        match split sep s' with
        | fld :: flds => String c fld :: flds
        | [] => [String c ""]
        end
  end.

End Str.

(* ===================================================================== *)
(** * The state document and the State Manager ([storage.py])             *)
(* ===================================================================== *)

(** What a top-level key of the document holds: a dict, whose values are
    of type [V], or any other JSON value ([ty] is its Python type name, as
    in the messages of the exceptions it provokes). *)
Inductive slot (V : Type) :=
| SDict (m : gmap string V)
| SOther (ty : string).

Arguments SDict {V} m.
Arguments SOther {V} ty.

(** A document is a dict of slots.  [Doc] is the document of the agent:
    the values of its slots are strings, channel IDs under "resolved" and
    video IDs under "last_seen". *)
Abbreviation Document V := (gmap string (slot V)).

Abbreviation Doc := (Document string).

(** [{"resolved": {}, "last_seen": {}}] *)
Definition empty_doc : Doc :=
  <["resolved" := SDict ∅]> (<["last_seen" := SDict ∅]> ∅).

Module StateManager.

(** [self._state.get(key, {}).get(k)] *)
Definition get_in {V} (key k : string) (d : Document V) : res (option V) :=
  match default (SDict ∅) (d !! key) with
  | SDict m => Ok (m !! k)
  | SOther ty =>
      Raise (Exn AttributeError ("'" +:+ ty +:+ "' object has no attribute 'get'"))
  end.

(** [self._state.setdefault(key, {})[k] = v]: [setdefault] stores the fresh
    dict only when the key is missing and hands back what the key holds. *)
Definition set_in {V} (key k : string) (v : V) (d : Document V) : res (Document V) :=
  match d !! key with
  | None => Ok (<[key := SDict (<[k := v]> ∅)]> d)
  | Some (SDict m) => Ok (<[key := SDict (<[k := v]> m)]> d)
  | Some (SOther ty) =>
      Raise (Exn TypeError
               (if String.eqb ty "list"
                then "list indices must be integers or slices, not str"
                else "'" +:+ ty +:+ "' object does not support item assignment"))
  end.

Definition get_resolved {V} (identifier : string) (d : Document V) : res (option V) :=
  get_in "resolved" identifier d.

Definition set_resolved {V} (identifier : string) (channel_id : V) (d : Document V)
  : res (Document V) :=
  set_in "resolved" identifier channel_id d.

Definition get_last_seen {V} (channel_id : string) (d : Document V) : res (option V) :=
  get_in "last_seen" channel_id d.

Definition set_last_seen {V} (channel_id : string) (video_id : V) (d : Document V)
  : res (Document V) :=
  set_in "last_seen" channel_id video_id d.

End StateManager.

(* ===================================================================== *)
(** * The storage backends ([storage.py])                                 *)
(* ===================================================================== *)

(** [try: body except Exception: handler] on a computation without state. *)
Definition res_bind {A B} (r : res A) (k : A -> res B) : res B :=
  match r with
  | Ok a => k a
  | Raise e => Raise e
  end.

Module LocalFileStorage.

(** What the file system answers: [Path.exists()] and, when the file is
    opened, the text read from it; either may raise. *)
Record backend := { path_exists : res bool; read_text : res string }.

(** [load]: the [try] block returns the parsed document or falls through
    (file missing); every exception is caught and logged; the fall-through
    and the handler both reach [return {"resolved": {}, "last_seen": {}}]. *)
Definition load (json_loads : string -> res Doc) (fs : backend) : res Doc :=
  match
    res_bind (path_exists fs) (fun present =>
      if (present : bool)
      then res_bind (read_text fs) (fun text =>
           res_bind (json_loads text) (fun d => Ok (Some d)))
      else Ok None)
  with
  | Ok (Some d) => Ok d
  | Ok None => Ok empty_doc
  | Raise _ => Ok empty_doc
  end.

End LocalFileStorage.

Module BlobStorage.

(** What [download_blob().readall()] yields: [ResourceNotFoundError], some
    other exception, bytes (with their UTF-8 decoding, if they have one), or
    text. *)
Inductive backend :=
| BlobNotFound
| BlobFailure (e : exn)
| BlobBytes (decoded : option string)
| BlobText (text : string).

(** [load]: both handlers return the empty document. *)
Definition load (json_loads : string -> res Doc) (b : backend) : res Doc :=
  match
    match b with
    | BlobNotFound =>
        Raise (Exn ResourceNotFoundError "The specified blob does not exist.")
    | BlobFailure e => Raise e
    | BlobBytes (Some text) => json_loads text
    | BlobBytes None => Raise (Exn UnicodeDecodeError "invalid utf-8")
    | BlobText text => json_loads text
    end
  with
  | Ok d => Ok d
  | Raise e =>
      match exn_cls e with
      | ResourceNotFoundError => Ok empty_doc
      | _ => Ok empty_doc
      end
  end.

End BlobStorage.

(** The backend a State Manager is configured with, and the dispatch of
    [self.storage.load()]. *)
Inductive storage :=
| LocalFile (fs : LocalFileStorage.backend)
| Blob (b : BlobStorage.backend).

Definition storage_load (json_loads : string -> res Doc) (s : storage) : res Doc :=
  match s with
  | LocalFile fs => LocalFileStorage.load json_loads fs
  | Blob b => BlobStorage.load json_loads b
  end.

(* ===================================================================== *)
(** * The world outside the process                                       *)
(* ===================================================================== *)

(** The [snippet] of the head item of a [playlistItems().list] response. *)
Record snippet := {
  sn_channelTitle : string;
  sn_videoId : string;               (* snippet["resourceId"]["videoId"] *)
  sn_title : string;
  sn_description : option string;    (* snippet.get("description", "") *)
  sn_publishedAt : string;
  sn_thumbnail_high_url : string     (* snippet["thumbnails"]["high"]["url"] *)
}.

(** What [request.execute()] does: it raises, or it returns a response
    whose ["items"] are listed here by the one field the caller reads.  A
    response whose first item lacks that field makes the caller raise
    [KeyError] inside the same [try] block, so it is an [ApiRaises] too. *)
Inductive api_result (A : Type) :=
| ApiItems (items : list A)
| ApiRaises (e : exn).
Arguments ApiItems {A} items.
Arguments ApiRaises {A} e.

(** A call that leaves the process. *)
Inductive event :=
| EvSearch (q : string)               (* search().list(q=q, type="channel", maxResults=1) *)
| EvChannelsList (id : string)        (* channels().list(part="contentDetails", id=id) *)
| EvPlaylistItems (playlist : string) (* playlistItems().list(playlistId=playlist, maxResults=1) *)
| EvSave (d : Doc).                   (* storage.save(d) *)

(** The oracle: each answer depends on the instant of the request and on
    its argument.  [search_list] lists the items' channel IDs,
    [channels_list] the items' uploads-playlist IDs, [playlist_items] the
    items' snippets; [storage_save] is [Some e] when the write raises [e]
    (both backends let a failed write propagate). *)
Record World := {
  search_list : nat -> string -> api_result string;
  channels_list : nat -> string -> api_result string;
  playlist_items : nat -> string -> api_result snippet;
  storage_save : nat -> Doc -> option exn
}.

(** The agent's mutable state: [state_manager._state] and the log of the
    calls made so far, oldest first. *)
Record St := { st_doc : Doc; st_trace : list event }.

Definition now (st : St) : nat := length (st_trace st).

Definition log (ev : event) (st : St) : St :=
  {| st_doc := st_doc st; st_trace := st_trace st ++ [ev] |}.

(** Computations that read and write [St] and may raise; a raise keeps the
    mutations made before it. *)
Definition M (A : Type) : Type := St -> res A * St.

#[export] Instance M_ret : MRet M := fun A a st => (Ok a, st).

#[export] Instance M_bind : MBind M := fun A B k m st =>
  match m st with
  | (Ok a, st') => k a st'
  | (Raise e, st') => (Raise e, st')
  end.

(** [try: body except Exception as e: handler(e)] *)
Definition try_except {A} (body : M A) (handler : exn -> M A) : M A :=
  fun st =>
    match body st with
    | (Ok a, st') => (Ok a, st')
    | (Raise e, st') => handler e st'
    end.

(** Lifting the State Manager's accessors to the agent's state. *)
Definition sm_get (get : Doc -> res (option string)) : M (option string) :=
  fun st => (get (st_doc st), st).

Definition sm_set (set : Doc -> res Doc) : M unit :=
  fun st =>
    match set (st_doc st) with
    | Ok d => (Ok tt, {| st_doc := d; st_trace := st_trace st |})
    | Raise e => (Raise e, st)
    end.

(* ===================================================================== *)
(** * The agent ([youtube_channel_agent.py])                              *)
(* ===================================================================== *)

Inductive AgentResponseStatus := SUCCESS | FAILED | PARTIAL.

(** The dict [_get_latest_video] returns. *)
Record video_info := {
  channel_id : string;
  channel_title : string;
  video_id : string;
  video_title : string;
  video_description : string;
  published_at : string;
  thumbnail_url : string;
  video_url : string
}.

(** [{**video_info, "is_new": is_new, "channel_url": channel_url}] *)
Record result_entry := {
  info : video_info;
  is_new : bool;
  channel_url : string
}.

(** [{"channel": channel_url, "error": message}] *)
Record error_entry := { channel : string; message : string }.

(** The two shapes of [AgentResponse.data] that [process] builds. *)
Inductive response_data :=
| DataErrors (errors : list error_entry)
| DataBatch (videos : list result_entry) (new_videos : list video_info)
            (errors : option (list error_entry))
            (total_channels successful_channels : nat).

Record AgentResponse := {
  status : AgentResponseStatus;
  data : option response_data;
  error : option string;
  error_type : option string
}.

(** The values an [input_data] dict is inspected for: an element of a list
    is a [str] or is not, a value is a [str], a [list] or neither. *)
Inductive pyitem :=
| IStr (s : string)
| IOther.

Inductive pyval :=
| PStr (s : string)
| PList (items : list pyitem)
| POther.

(** [_extract_channels]; [input_data] is [None] or a dict. *)
Definition _extract_channels (input_data : option (gmap string pyval))
  : list string :=
  match input_data with
  | None => []
  | Some d =>
      if bool_decide (size d = 0) then []
      else
        match
          match d !! "channels" with
          | Some (PStr channels_str) =>
              Some (List.filter str_truthy
                      (List.map Str.strip (Str.split "," channels_str)))
          | _ => None
          end
        with
        | Some urls => urls
        | None =>
            match d !! "channel_urls" with
            | Some (PList urls) =>
                flat_map (fun url =>
                            match url with
                            | IStr s =>
                                if str_truthy (Str.strip s) then [Str.strip s] else []
                            | IOther => []
                            end) urls
            | _ => []
            end
        end
  end.

Definition _extract_channel_id_from_url (url : string) : option string :=
  Re.search Re.channel_id_at url.

Definition _extract_channel_name_from_url (url : string) : option string :=
  match Re.search Re.at_handle_at url with
  | Some name => Some name
  | None => Re.search Re.path_name_at url
  end.

(** The local lists of [process]. *)
Record batch := {
  results : list result_entry;
  new_videos : list video_info;
  errors : list error_entry
}.

Definition nonempty {A} (l : list A) : bool :=
  match l with
  | [] => false
  | _ :: _ => true
  end.

Definition validation_error : AgentResponse :=
  {| status := FAILED; data := None;
     error := Some "No valid channels provided";
     error_type := Some "validation_error" |}.

Definition unexpected_error (e : exn) : AgentResponse :=
  {| status := FAILED; data := None;
     error := Some (exn_msg e);
     error_type := Some "unexpected_error" |}.

(** Lines 107-129: the response built once [save] has returned. *)
Definition respond (channels : list string) (b : batch) : AgentResponse :=
  if negb (nonempty (results b)) && nonempty (errors b)
  then {| status := FAILED;
          data := Some (DataErrors (errors b));
          error := Some "Failed to process any channels";
          error_type := Some "processing_error" |}
  else
    {| status := if nonempty (results b) && nonempty (errors b)
                 then PARTIAL else SUCCESS;
       data := Some (DataBatch (results b) (new_videos b)
                       (if nonempty (errors b) then Some (errors b) else None)
                       (length channels) (length (results b)));
       error := None;
       error_type := None |}.

Section Agent.

Variable w : World.

(** [state_manager.save()] *)
Definition save : M unit := fun st =>
  let st' := log (EvSave (st_doc st)) st in
  match storage_save w (now st) (st_doc st) with
  | None => (Ok tt, st')
  | Some e => (Raise e, st')
  end.

(** Both [except] clauses log and fall through to [return None]. *)
Definition _resolve_channel_name_to_id (channel_name : string)
  : M (option string) := fun st =>
  let st' := log (EvSearch channel_name) st in
  match search_list w (now st) channel_name with
  | ApiItems (id :: _) => (Ok (Some id), st')
  | ApiItems [] => (Ok None, st')
  | ApiRaises _ => (Ok None, st')
  end.

Definition _resolve_channel_id (channel_url : string) : M (option string) :=
  cached_id ← sm_get (StateManager.get_resolved channel_url);
  if truthy cached_id then mret cached_id
  else
    channel_id ←
      (let channel_id := _extract_channel_id_from_url channel_url in
       if negb (truthy channel_id)
       then
         match _extract_channel_name_from_url channel_url with
         | Some channel_name =>
             if str_truthy channel_name
             then _resolve_channel_name_to_id channel_name
             else mret channel_id
         | None => mret channel_id
         end
       else mret channel_id);
    match channel_id with
    | Some id =>
        (if str_truthy id
         then sm_set (StateManager.set_resolved channel_url id)
         else mret tt);;
        mret channel_id
    | None => mret channel_id
    end.

Definition make_video_info (channel_id : string) (sn : snippet) : video_info :=
  {| channel_id := channel_id;
     channel_title := sn_channelTitle sn;
     video_id := sn_videoId sn;
     video_title := sn_title sn;
     video_description :=
       String.substring 0 200 (default "" (sn_description sn)) +:+ "...";
     published_at := sn_publishedAt sn;
     thumbnail_url := sn_thumbnail_high_url sn;
     video_url := "https://www.youtube.com/watch?v=" +:+ sn_videoId sn |}.

(** One [try] block around both requests; every exception ends in
    [return None]. *)
Definition _get_latest_video (channel_id : string) : M (option video_info) :=
  fun st =>
  let st1 := log (EvChannelsList channel_id) st in
  match channels_list w (now st) channel_id with
  | ApiRaises _ => (Ok None, st1)
  | ApiItems [] => (Ok None, st1)
  | ApiItems (uploads_playlist_id :: _) =>
      let st2 := log (EvPlaylistItems uploads_playlist_id) st1 in
      match playlist_items w (now st1) uploads_playlist_id with
      | ApiRaises _ => (Ok None, st2)
      | ApiItems [] => (Ok None, st2)
      | ApiItems (sn :: _) => (Ok (Some (make_video_info channel_id sn)), st2)
      end
  end.

(** How one turn of the loop ends when nothing is raised: a [continue]
    after an error is recorded, or the end of the body. *)
Inductive turn :=
| Skipped (message : string)
| Fetched (vi : video_info) (is_new : bool).

(** The body of the inner [try] (lines 74-98). *)
Definition channel_body (channel_url : string) : M turn :=
  channel_id ← _resolve_channel_id channel_url;
  match channel_id with
  | Some id =>
      if str_truthy id then
        video_info ← _get_latest_video id;
        match video_info with
        | Some vi =>
            last_seen ← sm_get (StateManager.get_last_seen id);
            let is_new := negb (bool_decide (last_seen = Some (video_id vi))) in
            (if is_new
             then sm_set (StateManager.set_last_seen id (video_id vi))
             else mret tt);;
            mret (Fetched vi is_new)
        | None => mret (Skipped "No videos found")
        end
      else mret (Skipped "Could not resolve channel ID")
  | None => mret (Skipped "Could not resolve channel ID")
  end.

(** One turn of the [for] loop, inner [except] included.  The appends to
    [results] and [new_videos] come after the last statement of the body
    that can raise, so a raise leaves both lists as the turn found them. *)
Definition process_channel (channel_url : string) (b : batch) : St -> batch * St :=
  fun st =>
    match channel_body channel_url st with
    | (Ok (Fetched vi new), st') =>
        ({| results := results b ++
                       [{| info := vi; is_new := new; channel_url := channel_url |}];
            new_videos := if new then new_videos b ++ [vi] else new_videos b;
            errors := errors b |}, st')
    | (Ok (Skipped msg), st') =>
        ({| results := results b;
            new_videos := new_videos b;
            errors := errors b ++ [{| channel := channel_url; message := msg |}] |}, st')
    | (Raise e, st') =>
        ({| results := results b;
            new_videos := new_videos b;
            errors := errors b ++ [{| channel := channel_url; message := exn_msg e |}] |}, st')
    end.

(** [for channel_url in channels: ...] *)
Fixpoint process_channels (channels : list string) (b : batch) (st : St)
  : batch * St :=
  match channels with
  | [] => (b, st)
  | channel_url :: rest =>
      let '(b', st') := process_channel channel_url b st in
      process_channels rest b' st'
  end.

Definition empty_batch : batch :=
  {| results := []; new_videos := []; errors := [] |}.

Definition process (input_data : option (gmap string pyval)) : M AgentResponse :=
  let channels := _extract_channels input_data in
  if negb (nonempty channels) then mret validation_error
  else
    try_except
      (b ← (fun st => let '(b, st') := process_channels channels empty_batch st in
                      (Ok b, st'));
       save;;
       mret (respond channels b))
      (fun e => mret (unexpected_error e)).

End Agent.

(* ===================================================================== *)
(** * The response protocol and the tool layer ([protocols.py],
      [server/tools.py])                                                  *)
(* ===================================================================== *)

(** [AgentResponse.success] *)
Definition success (response : AgentResponse) : bool :=
  match status response with
  | SUCCESS => true
  | FAILED => false
  | PARTIAL => false
  end.

Module Py.

(** [sep.join(parts)] *)
Fixpoint join (sep : string) (parts : list string) : string :=
  match parts with
  | [] => ""
  | [part] => part
  | part :: rest => part +:+ sep +:+ join sep rest
  end.

(** [a or b] on an [Optional[str]] and a [str]. *)
Definition or_else (a : option string) (b : string) : string :=
  match a with
  | Some s => if str_truthy s then s else b
  | None => b
  end.

End Py.

(** [YouTubeChannelAgent.__init__]: the storage is the local file unless a
    blob client is given and local storage is not asked for; the document
    is loaded from it and no call has been made yet.  ([file] and the
    backend behind [blob_service_client] are what the chosen store holds;
    building the API client is taken not to raise.) *)
Definition YouTubeChannelAgent_init (json_loads : string -> res Doc)
    (blob_service_client : option BlobStorage.backend)
    (use_local_storage : bool) (file : LocalFileStorage.backend) : res St :=
  let storage :=
    match blob_service_client with
    | Some b => if use_local_storage then LocalFile file else Blob b
    | None => LocalFile file
    end in
  res_bind (storage_load json_loads storage)
           (fun d => Ok {| st_doc := d; st_trace := [] |}).

Module Tools.

(** What the tools read from the process environment and the disk. *)
Record Env := {
  YOUTUBE_API_KEY : option string;
  state_file : LocalFileStorage.backend;
  json_loads : string -> res Doc
}.

(** The dicts the channel tools return. *)
Inductive tool_result :=
| ToolError (message : string)
| MonitorReport (successful_channels total_channels : nat)
                (new_videos : list video_info) (all_videos : list result_entry)
                (errors : option (list error_entry))
| LatestVideo (channel_title video_title video_url video_id published_at : string)
              (is_new : bool).

(** [get_youtube_channel_agent]: [cached] is [_agents["youtube_channel"]],
    the agent and its state once it has been created. *)
Definition get_youtube_channel_agent (env : Env) (cached : option St) : res St :=
  match cached with
  | Some agent => Ok agent
  | None =>
      if truthy (YOUTUBE_API_KEY env)
      then YouTubeChannelAgent_init (json_loads env) None true (state_file env)
      else Raise (Exn OtherException
                    "YOUTUBE_API_KEY environment variable is required")
  end.

(** [data.get(key, default)] on the two shapes of [data]. *)
Definition data_successful_channels (d : response_data) : nat :=
  match d with
  | DataBatch _ _ _ _ n => n
  | DataErrors _ => 0
  end.

Definition data_total_channels (d : response_data) : nat :=
  match d with
  | DataBatch _ _ _ n _ => n
  | DataErrors _ => 0
  end.

Definition data_new_videos (d : response_data) : list video_info :=
  match d with
  | DataBatch _ news _ _ _ => news
  | DataErrors _ => []
  end.

Definition data_videos (d : response_data) : list result_entry :=
  match d with
  | DataBatch videos _ _ _ _ => videos
  | DataErrors _ => []
  end.

Definition data_errors (d : response_data) : option (list error_entry) :=
  match d with
  | DataBatch _ _ errs _ _ => errs
  | DataErrors errs => Some errs
  end.

Section Channel.

Variable env : Env.
Variable w : World.

(** [youtube_channels_monitor]; the second component is the agent cache
    the call leaves. *)
Definition youtube_channels_monitor (channels : list string) (cached : option St)
  : tool_result * option St :=
  if negb (nonempty channels)
  then (ToolError "At least one channel is required", cached)
  else
    match get_youtube_channel_agent env cached with
    | Raise e => (ToolError (exn_msg e), cached)
    | Ok agent =>
        let channels_str := Py.join ", " channels in
        match process w (Some {["channels" := PStr channels_str]}) agent with
        | (Raise e, agent') => (ToolError (exn_msg e), Some agent')
        | (Ok response, agent') =>
            (match data response with
             | Some d =>
                 if success response
                 then MonitorReport (data_successful_channels d)
                        (data_total_channels d) (data_new_videos d)
                        (data_videos d) (data_errors d)
                 else ToolError (Py.or_else (error response)
                                   "Failed to monitor channels")
             | None =>
                 ToolError (Py.or_else (error response) "Failed to monitor channels")
             end, Some agent')
        end
    end.

(** [youtube_channel_latest] *)
Definition youtube_channel_latest (channel_id : string) (cached : option St)
  : tool_result * option St :=
  if negb (str_truthy channel_id)
  then (ToolError "Channel ID is required", cached)
  else
    match get_youtube_channel_agent env cached with
    | Raise e => (ToolError (exn_msg e), cached)
    | Ok agent =>
        match process w (Some {["channels" := PStr channel_id]}) agent with
        | (Raise e, agent') => (ToolError (exn_msg e), Some agent')
        | (Ok response, agent') =>
            (match data response with
             | Some d =>
                 if success response
                 then
                   match data_videos d with
                   | latest_video :: _ =>
                       LatestVideo (channel_title (info latest_video))
                         (video_title (info latest_video))
                         (video_url (info latest_video))
                         (video_id (info latest_video))
                         (published_at (info latest_video))
                         (is_new latest_video)
                   | [] => ToolError "No videos found for this channel"
                   end
                 else ToolError (Py.or_else (error response)
                                   "Failed to get channel videos")
             | None =>
                 ToolError (Py.or_else (error response) "Failed to get channel videos")
             end, Some agent')
        end
    end.

End Channel.

End Tools.

(* ===================================================================== *)
(** * The transcription agent ([youtube_transcription_agent.py])          *)
(* ===================================================================== *)

Module PyStr.

(** [c.lower()] for the code points an [ascii] can hold: A-Z and the
    capital letters of Latin-1 move up by 32. *)
Definition lower_char (c : ascii) : ascii :=
  let n := nat_of_ascii c in
  if ((65 <=? n) && (n <=? 90))%nat
     || ((192 <=? n) && (n <=? 222) && negb (n =? 215))%nat
  then ascii_of_nat (n + 32)
  else c.

(** [s.lower()] *)
Fixpoint lower (s : string) : string :=
  match s with
  | EmptyString => ""
  | String c s' => String (lower_char c) (lower s')
  end.

(** [needle in s] *)
Fixpoint contains (needle s : string) : bool :=
  String.prefix needle s
  || match s with
     | EmptyString => false
     | String _ s' => contains needle s'
     end.

(** [s.lstrip(c)] for a one-character set. *)
Fixpoint lstrip_char (c : ascii) (s : string) : string :=
  match s with
  | String d s' => if (d =? c)%char then lstrip_char c s' else s
  | EmptyString => ""
  end.

(** [parts[0]] of a list that [split] returned. *)
Definition first (parts : list string) : string :=
  match parts with
  | part :: _ => part
  | [] => ""
  end.

End PyStr.

Module Transcription.

Inductive error_class :=
| ValueError
| TranscriptsDisabled
| NoTranscriptFound
| VideoUnavailable
| OtherError.

(** An exception instance; [exc_message] is what [str(exc)] yields. *)
Record exception := Exception { exc_class : error_class; exc_message : string }.

Inductive result (A : Type) :=
| Return (a : A)
| Raises (e : exception).
Arguments Return {A} a.
Arguments Raises {A} e.

(** What [urlparse(url)] is read for. *)
Record parsed_url := {
  hostname : option string;
  query : string;
  path : string
}.

(** A transcript segment, by its ["text"] entry. *)
Record segment := { seg_text : option string }.

(** What [YouTubeTranscriptApi().fetch] hands back: an object whose
    [to_raw_data()] returns the segments or raises, or a plain list (on
    which [to_raw_data] does not exist). *)
Inductive fetched :=
| FetchedTranscript (to_raw_data : result (list segment))
| FetchedList (segments : list segment).

(** The response of this agent: [data] is [{"video_id": ..., "transcript":
    ...}] when there is one. *)
Record response := {
  status : AgentResponseStatus;
  data : option (string * string);
  error : option string;
  error_type : option string
}.

Definition failed (msg kind : string) : response :=
  {| status := FAILED; data := None; error := Some msg; error_type := Some kind |}.

(** [_segments_to_text] *)
Definition _segments_to_text (segments : list segment) : string :=
  Str.strip
    (Py.join " "
       (List.map (fun seg => Str.strip (default "" (seg_text seg)))
          (List.filter (fun seg => truthy (seg_text seg)) segments))).

(** The loop over [enumerate(parts)]: the part after the first [embed] or
    [v] that is followed by an 11-character part. *)
Fixpoint embed_candidate (parts : list string) : option string :=
  match parts with
  | [] => None
  | part :: rest =>
      match rest with
      | candidate :: _ =>
          if (String.eqb part "embed" || String.eqb part "v")
             && (String.length candidate =? 11)%nat
          then Some candidate
          else embed_candidate rest
      | [] => None
      end
  end.

Section Agent.

(** [urllib.parse.urlparse] and [parse_qs], and the transcript service. *)
Variable urlparse : string -> result parsed_url.
Variable parse_qs : string -> gmap string (list string).
Variable fetch : string -> result fetched.

(** The [youtube.com] block of [_extract_video_id]: the [v] parameter,
    then the path. *)
Definition watch_or_embed (parsed : parsed_url) : option string :=
  match
    match parse_qs (query parsed) !! "v" with
    | Some (vid :: _) => if (String.length vid =? 11)%nat then Some vid else None
    | _ => None
    end
  with
  | Some vid => Some vid
  | None => embed_candidate (Str.split "/" (path parsed))
  end.

(** The [youtu.be] block. *)
Definition short_link (parsed : parsed_url) : option string :=
  let candidate := PyStr.lstrip_char "/" (path parsed) in
  if str_truthy candidate then
    let candidate := PyStr.first (Str.split "/" (PyStr.first (Str.split "?" candidate))) in
    match Re.take_id_chars 11 candidate with
    | Some _ => Some (String.substring 0 11 candidate)
    | None => None
    end
  else None.

Definition _extract_video_id (url : string) : result string :=
  if negb (str_truthy url) then Raises (Exception ValueError "Empty URL provided")
  else
    match urlparse url with
    | Raises e => Raises e
    | Return parsed =>
        let host := PyStr.lower (Py.or_else (hostname parsed) "") in
        match
          if PyStr.contains "youtube.com" host then watch_or_embed parsed else None
        with
        | Some vid => Return vid
        | None =>
            match
              if PyStr.contains "youtu.be" host then short_link parsed else None
            with
            | Some vid => Return vid
            | None =>
                match Re.search (Re.take_id_chars 11) url with
                | Some vid => Return vid
                | None =>
                    Raises (Exception ValueError
                              ("Could not extract YouTube video ID from URL: " +:+ url))
                end
            end
        end
    end.

(** [_fetch_raw]; the list is the IDs the service was asked for. *)
Definition _fetch_raw (video_id : string) : result (list segment) * list string :=
  if negb (str_truthy video_id)
  then (Raises (Exception ValueError "video_id is required"), [])
  else
    (match fetch video_id with
     | Raises e => Raises e
     | Return (FetchedTranscript raw) => raw
     | Return (FetchedList segments) => Return segments
     end, [video_id]).

(** The second half of [process], from the fetch on. *)
Definition fetch_and_join (video_id : string) : response * list string :=
  let '(raw_segments, asked) := _fetch_raw video_id in
  (match raw_segments with
   | Raises e =>
       failed (exc_message e)
         match exc_class e with
         | TranscriptsDisabled => "transcripts_disabled"
         | NoTranscriptFound => "no_transcript"
         | VideoUnavailable => "video_unavailable"
         | ValueError => "fetch_error"
         | OtherError => "fetch_error"
         end
   | Return segments =>
       let transcript := _segments_to_text segments in
       if negb (str_truthy transcript)
       then failed "No captions found for video" "empty_transcript"
       else {| status := SUCCESS; data := Some (video_id, transcript);
               error := None; error_type := None |}
   end, asked).

Definition process (input_data : option (gmap string pyval))
  : response * list string :=
  match input_data with
  | None => (failed "Input data is required" "validation_error", [])
  | Some d =>
      if bool_decide (size d = 0)
      then (failed "Input data is required" "validation_error", [])
      else
        match d !! "video_id" with
        | Some (PStr video_id) =>
            if negb (str_truthy video_id)
               || negb (String.length video_id =? 11)%nat
            then (failed "Invalid video ID format. Video ID must be exactly 11 characters"
                    "validation_error", [])
            else fetch_and_join video_id
        | Some _ => (failed "Video ID must be a string" "validation_error", [])
        | None =>
            match d !! "url" with
            | Some (PStr url) =>
                match _extract_video_id url with
                | Raises exc => (failed (exc_message exc) "invalid_url", [])
                | Return video_id => fetch_and_join video_id
                end
            | Some _ => (failed "URL must be a string" "validation_error", [])
            | None =>
                (failed "Either 'url' or 'video_id' is required in input data"
                   "validation_error", [])
            end
        end
  end.

End Agent.

End Transcription.

(* ===================================================================== *)
(** * Vocabulary of the statements                                        *)
(* ===================================================================== *)

(** Every character of [s] is in [[a-zA-Z0-9_-]]. *)
Fixpoint all_id_chars (s : string) : bool :=
  match s with
  | EmptyString => true
  | String c s' => Re.is_id_char c && all_id_chars s'
  end.

(** [s] does not go on with a character of the class. *)
Definition ends_run (s : string) : bool :=
  match s with
  | EmptyString => true
  | String c _ => negb (Re.is_id_char c)
  end.

(** The canonical channel-ID shape: [UC] followed by 22 characters of the
    class. *)
Definition channel_id_shape (cid : string) : Prop :=
  exists tl, cid = "UC" +:+ tl /\ String.length tl = 22 /\ all_id_chars tl = true.

(** [ref] contains [cid] as a substring of the channel-ID shape. *)
Definition contains_channel_id (ref cid : string) : Prop :=
  exists pre suf, ref = pre +:+ cid +:+ suf /\ channel_id_shape cid.

(** [ref] contains the segment [marker ++ name], [name] being the longest
    non-empty run of class characters after [marker]. *)
Definition has_segment (marker ref name : string) : Prop :=
  exists pre suf,
    ref = pre +:+ marker +:+ name +:+ suf
    /\ name <> "" /\ all_id_chars name = true /\ ends_run suf = true.

(** [ref] has no [marker] followed by a class character. *)
Definition no_segment (marker ref : string) : Prop :=
  forall pre suf, ref = pre +:+ marker +:+ suf -> ends_run suf = true.

(** A handle segment: [@name], [/c/name] or [/user/name]. *)
Definition handle_segment (ref name : string) : Prop :=
  has_segment "@" ref name \/ has_segment "/c/" ref name
  \/ has_segment "/user/" ref name.

Definition no_handle_segment (ref : string) : Prop :=
  no_segment "@" ref /\ no_segment "/c/" ref /\ no_segment "/user/" ref.

(** The calls of a log that are name searches, and those that are storage
    writes. *)
Definition is_search (ev : event) : bool :=
  match ev with
  | EvSearch _ => true
  | _ => false
  end.

Definition is_save (ev : event) : bool :=
  match ev with
  | EvSave _ => true
  | _ => false
  end.

Definition lookups (evs : list event) : nat := length (List.filter is_search evs).

Definition saves (evs : list event) : nat := length (List.filter is_save evs).

(* --------------------------------------------------------------------- *)
(** ** Closed forms of what the code computes                             *)
(* --------------------------------------------------------------------- *)

(** A dict of dicts: every slot the document has is a dict (the annotated
    type [Dict[str, Dict]]).  Keys may be missing, and nothing is asked of
    what the dicts hold: that is the type [V] of the document's values. *)
Definition dict_shaped {V} (d : Document V) : Prop :=
  forall key ty, d !! key <> Some (SOther ty).

(** The document after [d.setdefault(key, {})[k] = v] went through. *)
Definition put_in {V} (key k : string) (v : V) (d : Document V) : Document V :=
  <[key := SDict (<[k := v]> match d !! key with
                             | Some (SDict m) => m
                             | _ => ∅
                             end)]> d.

(** The channel ID [_resolve_channel_name_to_id] reads off a response. *)
Definition top_match (r : api_result string) : option string :=
  match r with
  | ApiItems (id :: _) => Some id
  | ApiItems [] => None
  | ApiRaises _ => None
  end.

(** The video [_get_latest_video] reads off the two responses: the head
    of the uploads playlist of the head channel, if both are there. *)
Definition latest_of (w : World) (channel_id : string) (st : St) : option video_info :=
  match channels_list w (now st) channel_id with
  | ApiItems (uploads :: _) =>
      match playlist_items w (S (now st)) uploads with
      | ApiItems (sn :: _) => Some (make_video_info channel_id sn)
      | _ => None
      end
  | _ => None
  end.

(** The calls [_get_latest_video] logs. *)
Definition latest_calls (w : World) (channel_id : string) (st : St) : list event :=
  match channels_list w (now st) channel_id with
  | ApiItems (uploads :: _) => [EvChannelsList channel_id; EvPlaylistItems uploads]
  | _ => [EvChannelsList channel_id]
  end.

(** [last_seen != video_id] *)
Definition differs (last_seen : option string) (video_id : string) : bool :=
  negb (bool_decide (last_seen = Some video_id)).

(** The lists of one stretch of the loop followed by those of the next. *)
Definition batch_app (b1 b2 : batch) : batch :=
  {| results := results b1 ++ results b2;
     new_videos := new_videos b1 ++ new_videos b2;
     errors := errors b1 ++ errors b2 |}.

(** The backend states in which no document can be read back: nothing
    stored, content that cannot be read, content that is not JSON. *)
Inductive unavailable (json_loads : string -> res Doc) : storage -> Prop :=
| file_missing fs :
    LocalFileStorage.path_exists fs = Ok false ->
    unavailable json_loads (LocalFile fs)
| file_not_statable fs e :
    LocalFileStorage.path_exists fs = Raise e ->
    unavailable json_loads (LocalFile fs)
| file_unreadable fs e :
    LocalFileStorage.path_exists fs = Ok true ->
    LocalFileStorage.read_text fs = Raise e ->
    unavailable json_loads (LocalFile fs)
| file_unparseable fs text e :
    LocalFileStorage.path_exists fs = Ok true ->
    LocalFileStorage.read_text fs = Ok text ->
    json_loads text = Raise e ->
    unavailable json_loads (LocalFile fs)
| blob_missing :
    unavailable json_loads (Blob BlobStorage.BlobNotFound)
| blob_unreadable e :
    unavailable json_loads (Blob (BlobStorage.BlobFailure e))
| blob_undecodable :
    unavailable json_loads (Blob (BlobStorage.BlobBytes None))
| blob_bytes_unparseable text e :
    json_loads text = Raise e ->
    unavailable json_loads (Blob (BlobStorage.BlobBytes (Some text)))
| blob_text_unparseable text e :
    json_loads text = Raise e ->
    unavailable json_loads (Blob (BlobStorage.BlobText text)).

(* ===================================================================== *)
(** * Concrete worlds and inputs                                          *)
(* ===================================================================== *)

Definition channel_a : string := "UCabcdefghijklmnopqrstuv".

Definition demo_snippet (video : string) : snippet :=
  {| sn_channelTitle := "Channel A";
     sn_videoId := video;
     sn_title := "A title";
     sn_description := Some "A description";
     sn_publishedAt := "2024-05-01T00:00:00Z";
     sn_thumbnail_high_url := "https://i.ytimg.com/vi/x/hqdefault.jpg" |}.

Definition disk_full : exn := Exn OSError "[Errno 28] No space left on device".

(** A world in which the name [a] is channel [channel_a], every channel
    has an uploads playlist whose head at instant [t] is [latest t], and
    a storage write ends as [write] says. *)
Definition demo_world (latest : nat -> string) (write : option exn) : World :=
  {| search_list := fun _ q =>
       if String.eqb q "a" then ApiItems [channel_a] else ApiItems [];
     channels_list := fun _ id => ApiItems ["UU" +:+ id];
     playlist_items := fun t _ => ApiItems [demo_snippet (latest t)];
     storage_save := fun _ _ => write |}.

Definition world_steady : World := demo_world (fun _ => "video1") None.

Definition world_save_fails : World := demo_world (fun _ => "video1") (Some disk_full).

(** The head of the playlist is [video2] at instant 4 only. *)
Definition world_flapping : World :=
  demo_world (fun t => if (t =? 4)%nat then "video2" else "video1") None.

Definition fresh : St := {| st_doc := empty_doc; st_trace := [] |}.

(** [{"channels": s}] *)
Definition channels_input (s : string) : option (gmap string pyval) :=
  Some {["channels" := PStr s]}.

(** A document whose "last_seen" slot is [null]. *)
Definition doc_null_last_seen : Doc :=
  <["resolved" := SDict ∅]> (<["last_seen" := SOther "NoneType"]> ∅).

(** A state file with the text of that document, and a parser that reads
    it (the file's text is written here without its quotation marks). *)
Definition null_last_seen_file : storage :=
  LocalFile {| LocalFileStorage.path_exists := Ok true;
               LocalFileStorage.read_text := Ok "{ resolved: {}, last_seen: null }" |}.

Definition reads_null_last_seen (text : string) : res Doc :=
  if String.eqb text "{ resolved: {}, last_seen: null }"
  then Ok doc_null_last_seen
  else Raise (Exn JSONDecodeError "Expecting value: line 1 column 1 (char 0)").

(** A dict of dicts whose resolved cache holds a list where a channel ID
    is expected, and which has no "last_seen" key:
    [{"resolved": {"@a": ["UCabcdefghijklmnopqrstuv"]}}]. *)
Definition doc_list_cached : Document pyval :=
  {["resolved" := SDict {["@a" := PList [IStr channel_a]]}]}.

(** A parser that accepts nothing. *)
Definition rejects_all (text : string) : res Doc :=
  Raise (Exn JSONDecodeError "Expecting value: line 1 column 1 (char 0)").

(** The fresh state once ["@a"] has been resolved to [channel_a]. *)
Definition st_cached : St :=
  {| st_doc := put_in "resolved" "@a" channel_a empty_doc; st_trace := [] |}.

Definition first_result : result_entry :=
  {| info := make_video_info channel_a (demo_snippet "video1");
     is_new := true;
     channel_url := "@a" |}.

Definition second_result : result_entry :=
  {| info := make_video_info channel_a (demo_snippet "video1");
     is_new := false;
     channel_url := channel_a |}.

Definition repeat_result : result_entry :=
  {| info := make_video_info channel_a (demo_snippet "video1");
     is_new := false;
     channel_url := "@a" |}.

(** No state file yet. *)
Definition no_file : storage :=
  LocalFile {| LocalFileStorage.path_exists := Ok false;
               LocalFileStorage.read_text :=
                 Raise (Exn OSError "[Errno 2] No such file or directory") |}.

(** A state file cut short. *)
Definition truncated_file : storage :=
  LocalFile {| LocalFileStorage.path_exists := Ok true;
               LocalFileStorage.read_text := Ok "{ resolved: {" |}.

(** The resolved cache maps no reference to the empty string. *)
Definition cache_holds_ids (d : Doc) : Prop :=
  forall ref, StateManager.get_resolved ref d <> Ok (Some "").

(** The fresh state, but with ["@a"] cached as the empty string, and one
    whose "last_seen" slot is [null]. *)
Definition st_empty_id : St :=
  {| st_doc := put_in "resolved" "@a" "" empty_doc; st_trace := [] |}.

Definition st_null_last_seen : St :=
  {| st_doc := doc_null_last_seen; st_trace := [] |}.

(* --------------------------------------------------------------------- *)
(** ** Vocabulary of the further properties                               *)
(* --------------------------------------------------------------------- *)

(** The video of the last of [rs] that is for channel [cid]. *)
Fixpoint last_video_for (cid : string) (rs : list result_entry) : option string :=
  match rs with
  | [] => None
  | r :: rest =>
      match last_video_for cid rest with
      | Some v => Some v
      | None =>
          if String.eqb (channel_id (info r)) cid
          then Some (video_id (info r)) else None
      end
  end.

(** [s] holds the character [c]. *)
Fixpoint has_char (c : ascii) (s : string) : bool :=
  match s with
  | EmptyString => false
  | String d s' => (d =? c)%char || has_char c s'
  end.

(** [s] neither starts nor ends with a space character. *)
Definition starts_with_space (s : string) : bool :=
  match s with
  | EmptyString => false
  | String c _ => Str.is_space c
  end.

Fixpoint ends_with_space (s : string) : bool :=
  match s with
  | EmptyString => false
  | String c EmptyString => Str.is_space c
  | String _ s' => ends_with_space s'
  end.

(** The two messages the loop records without an exception. *)
Definition is_plain_error (e : error_entry) : Prop :=
  message e = "Could not resolve channel ID" \/ message e = "No videos found".

(** [s] ends with [suffix]. *)
Definition ends_with (suffix s : string) : Prop :=
  exists front, s = front +:+ suffix.

(** What every result of a batch satisfies. *)
Definition well_formed_result (r : result_entry) : Prop :=
  channel_id (info r) <> ""
  /\ video_url (info r) = "https://www.youtube.com/watch?v=" +:+ video_id (info r)
  /\ ends_with "..." (video_description (info r))
  /\ String.length (video_description (info r)) <= 203.

(** The error entries a response carries, whichever its shape. *)
Definition response_errors (response : AgentResponse) : list error_entry :=
  match data response with
  | Some (DataErrors l) => l
  | Some (DataBatch _ _ (Some l) _ _) => l
  | _ => []
  end.

(** The results a response carries. *)
Definition response_videos (response : AgentResponse) : list result_entry :=
  match data response with
  | Some (DataBatch videos _ _ _ _) => videos
  | _ => []
  end.

(** The resolved cache of [d] maps the reference of [r] to the channel of
    [r]. *)
Definition cached_result (d : Doc) (r : result_entry) : Prop :=
  StateManager.get_resolved (channel_url r) d = Ok (Some (channel_id (info r)))
  /\ channel_id (info r) <> "".

(** A reference as the loop receives it: not empty, no space character at
    either end. *)
Definition clean_reference (ref : string) : Prop :=
  ref <> "" /\ starts_with_space ref = false /\ ends_with_space ref = false.

(** The references one entry of the tool's channel list stands for: its
    comma-separated fields, stripped, the blank ones dropped. *)
Definition reference_fields (entry : string) : list string :=
  List.filter str_truthy (List.map Str.strip (Str.split "," entry)).

(** The input dict the channel tools build. *)
Definition tool_input (channels_str : string) : option (gmap string pyval) :=
  Some {["channels" := PStr channels_str]}.

(** An environment with an API key and no state file yet. *)
Definition demo_env : Tools.Env :=
  {| Tools.YOUTUBE_API_KEY := Some "key";
     Tools.state_file :=
       {| LocalFileStorage.path_exists := Ok false;
          LocalFileStorage.read_text :=
            Raise (Exn OSError "[Errno 2] No such file or directory") |};
     Tools.json_loads := rejects_all |}.

(** [url] holds [run], eleven characters of the class, as a substring. *)
Definition has_id_run (url run : string) : Prop :=
  exists pre suf,
    url = pre +:+ run +:+ suf
    /\ String.length run = 11 /\ all_id_chars run = true.

(** Every character of [s] is a space character. *)
Fixpoint all_space (s : string) : bool :=
  match s with
  | EmptyString => true
  | String c s' => Str.is_space c && all_space s'
  end.

(** A segment without text, or whose text is only space characters. *)
Definition blank_segment (seg : Transcription.segment) : Prop :=
  all_space (default "" (Transcription.seg_text seg)) = true.

(** What [last_seen] reads for [cid] once the results [before] have been
    produced, given what it read at the start, [at_start]. *)
Definition seen_after (cid : string) (before : list result_entry)
    (at_start : res (option string)) : res (option string) :=
  match last_video_for cid before with
  | Some v => Ok (Some v)
  | None => at_start
  end.

(** A short link, its parse, and a service that answers with three
    segments. *)
Definition short_url : string := "https://youtu.be/dQw4w9WgXcQ".

Definition demo_urlparse (url : string)
  : Transcription.result Transcription.parsed_url :=
  if String.eqb url short_url
  then Transcription.Return
         {| Transcription.hostname := Some "youtu.be";
            Transcription.query := "";
            Transcription.path := "/dQw4w9WgXcQ" |}
  else Transcription.Return
         {| Transcription.hostname := None;
            Transcription.query := "";
            Transcription.path := url |}.

Definition demo_parse_qs (query : string) : gmap string (list string) := ∅.

Definition demo_fetch (video_id : string)
  : Transcription.result Transcription.fetched :=
  Transcription.Return
    (Transcription.FetchedList
       [ {| Transcription.seg_text := Some " Never gonna " |};
         {| Transcription.seg_text := None |};
         {| Transcription.seg_text := Some "give you up" |} ]).

(* ===================================================================== *)
(** * The regular expressions against their declarative reading           *)
(* ===================================================================== *)

Lemma app_cons (c : ascii) (a b : string) : String c a +:+ b = String c (a +:+ b).
Proof. reflexivity. Qed.

Lemma app_nil_l (b : string) : "" +:+ b = b.
Proof. reflexivity. Qed.

Ltac str_norm :=
  repeat (rewrite !app_cons in * || rewrite !app_nil_l in *); simpl in *.

Lemma append_assoc (a b c : string) : (a +:+ b) +:+ c = a +:+ b +:+ c.
Proof. induction a as [|x a IH]; str_norm; [reflexivity | now f_equal]. Qed.

Lemma append_nil_r (a : string) : a +:+ "" = a.
Proof. induction a as [|x a IH]; str_norm; [reflexivity | now f_equal]. Qed.

Lemma all_id_chars_app (a b : string) :
  all_id_chars (a +:+ b) = all_id_chars a && all_id_chars b.
Proof.
  induction a as [|x a IH]; str_norm; [reflexivity |].
  rewrite IH. now rewrite andb_assoc.
Qed.

(** [take_id_chars n] succeeds exactly on the strings that begin with [n]
    class characters, and returns them. *)
Lemma take_id_chars_intro n t suf :
  String.length t = n -> all_id_chars t = true ->
  Re.take_id_chars n (t +:+ suf) = Some t.
Proof.
  revert t. induction n as [|n IH]; intros [|c t] Hlen Hall; try discriminate.
  - reflexivity.
  - str_norm. apply andb_true_iff in Hall as [-> Hall].
    rewrite IH by (lia || easy). reflexivity.
Qed.

Lemma take_id_chars_elim n s t :
  Re.take_id_chars n s = Some t ->
  (exists suf, s = t +:+ suf) /\ String.length t = n /\ all_id_chars t = true.
Proof.
  revert s t. induction n as [|n IH]; intros s t; simpl.
  - intros [= <-]. repeat split. now exists s.
  - destruct s as [|c s]; [discriminate |].
    destruct (Re.is_id_char c) eqn:Hc; [|discriminate].
    destruct (Re.take_id_chars n s) as [u|] eqn:Hu; [|discriminate].
    intros [= <-]. apply IH in Hu as ([suf ->] & Hlen & Hall).
    simpl. rewrite Hc, Hall, Hlen. repeat split. now exists suf.
Qed.

Lemma literal_elim lit s rest : Re.literal lit s = Some rest -> s = lit +:+ rest.
Proof.
  revert s. induction lit as [|c lit IH]; intros s; simpl.
  - now intros [= ->].
  - destruct s as [|d s]; [discriminate |].
    destruct (Ascii.eqb_spec c d) as [-> |]; [|discriminate].
    intros H. apply IH in H as ->. reflexivity.
Qed.

Lemma literal_intro lit rest : Re.literal lit (lit +:+ rest) = Some rest.
Proof.
  induction lit as [|c lit IH]; str_norm; [reflexivity |].
  now rewrite Ascii.eqb_refl.
Qed.

(** The anchored channel-ID pattern matches exactly the strings that begin
    with a channel ID, and returns it. *)
Lemma channel_id_at_elim s cid :
  Re.channel_id_at s = Some cid ->
  channel_id_shape cid /\ exists suf, s = cid +:+ suf.
Proof.
  unfold Re.channel_id_at, channel_id_shape. intros H.
  destruct (Re.literal "UC" s) as [rest|] eqn:Hlit; [|discriminate].
  apply literal_elim in Hlit as ->.
  destruct (Re.take_id_chars 22 rest) as [tl|] eqn:Htl; [|discriminate].
  injection H as <-.
  apply take_id_chars_elim in Htl as ([suf ->] & Hlen & Hall).
  split; [now exists tl | exists suf; now rewrite append_assoc].
Qed.

Lemma channel_id_at_intro cid suf :
  channel_id_shape cid -> Re.channel_id_at (cid +:+ suf) = Some cid.
Proof.
  intros (tl & -> & Hlen & Hall). rewrite append_assoc.
  unfold Re.channel_id_at. rewrite literal_intro.
  now rewrite take_id_chars_intro.
Qed.

(** The greedy run: the longest prefix of class characters. *)
Lemma span_id_chars_elim s :
  exists suf, s = Re.span_id_chars s +:+ suf
              /\ all_id_chars (Re.span_id_chars s) = true /\ ends_run suf = true.
Proof.
  induction s as [|c s (suf & Hs & Hall & Hend)]; simpl.
  - now exists "".
  - destruct (Re.is_id_char c) eqn:Hc.
    + exists suf. str_norm. rewrite Hc, Hall. repeat split; [now f_equal | easy].
    + exists (String c s). simpl. now rewrite Hc.
Qed.

Lemma span_id_chars_intro name suf :
  all_id_chars name = true -> ends_run suf = true ->
  Re.span_id_chars (name +:+ suf) = name.
Proof.
  intros Hall Hend. induction name as [|c name IH]; str_norm.
  - destruct suf as [|d suf]; [reflexivity |]. simpl in *.
    now destruct (Re.is_id_char d).
  - apply andb_true_iff in Hall as [-> Hall]. now rewrite IH.
Qed.

Lemma name_at_elim s name :
  Re.name_at s = Some name ->
  name <> "" /\ all_id_chars name = true
  /\ exists suf, s = name +:+ suf /\ ends_run suf = true.
Proof.
  unfold Re.name_at. destruct (span_id_chars_elim s) as (suf & Hs & Hall & Hend).
  destruct (Re.span_id_chars s) as [|c run] eqn:Hrun; [discriminate |].
  intros [= <-]. repeat split; [discriminate | easy | now exists suf].
Qed.

Lemma name_at_None s : Re.name_at s = None -> ends_run s = true.
Proof.
  unfold Re.name_at. destruct s as [|c s]; [reflexivity |]. simpl.
  now destruct (Re.is_id_char c).
Qed.

(** [re.search] returns the match at the leftmost position that has one,
    and nothing only when no position has one. *)
Lemma search_elim at_head s m :
  Re.search at_head s = Some m ->
  exists pre rest,
    s = pre +:+ rest /\ at_head rest = Some m
    /\ forall pre' rest', s = pre' +:+ rest' ->
                          String.length pre' < String.length pre ->
                          at_head rest' = None.
Proof.
  induction s as [|c s IH]; simpl.
  - destruct (at_head "") as [m'|] eqn:Hm; [|discriminate].
    intros [= <-]. exists "", "". repeat split; [easy |].
    simpl. intros; lia.
  - destruct (at_head (String c s)) as [m'|] eqn:Hm.
    + intros [= <-]. exists "", (String c s). repeat split; [easy |].
      simpl. intros; lia.
    + intros H. destruct (IH H) as (pre & rest & -> & Hat & Hleft).
      exists (String c pre), rest. repeat split; [easy |].
      intros [|d pre'] rest' Heq Hlen; str_norm.
      * now subst rest'.
      * injection Heq as <- Heq. apply (Hleft pre' rest' Heq). lia.
Qed.

Lemma search_None at_head s :
  Re.search at_head s = None ->
  forall pre rest, s = pre +:+ rest -> at_head rest = None.
Proof.
  induction s as [|c s IH]; simpl.
  - destruct (at_head "") eqn:Hm; [discriminate |].
    intros _ [|d pre] rest Heq; str_norm; [now subst | discriminate].
  - destruct (at_head (String c s)) eqn:Hm; [discriminate |].
    intros H [|d pre] rest Heq; str_norm; [now subst |].
    injection Heq as <- Heq. now apply (IH H pre).
Qed.

Lemma search_Some_if at_head pre rest m :
  at_head rest = Some m -> exists m', Re.search at_head (pre +:+ rest) = Some m'.
Proof.
  intros Hm. destruct (Re.search at_head (pre +:+ rest)) as [m'|] eqn:Hs.
  - now exists m'.
  - rewrite (search_None _ _ Hs pre rest eq_refl) in Hm. discriminate.
Qed.

(** [_extract_channel_id_from_url] finds a channel ID exactly when the
    reference contains one, and what it returns is one the reference
    contains. *)
Lemma extract_channel_id_Some url cid :
  _extract_channel_id_from_url url = Some cid -> contains_channel_id url cid.
Proof.
  intros H. apply search_elim in H as (pre & rest & -> & Hat & _).
  apply channel_id_at_elim in Hat as (Hshape & suf & ->).
  now exists pre, suf.
Qed.

Lemma extract_channel_id_None url :
  _extract_channel_id_from_url url = None -> forall cid, ~ contains_channel_id url cid.
Proof.
  intros H cid (pre & suf & -> & Hshape).
  pose proof (channel_id_at_intro cid suf Hshape) as Hat.
  rewrite (search_None _ _ H pre (cid +:+ suf) eq_refl) in Hat. discriminate.
Qed.

Lemma extract_channel_id_complete url cid :
  contains_channel_id url cid -> exists cid', _extract_channel_id_from_url url = Some cid'.
Proof.
  intros (pre & suf & -> & Hshape).
  apply search_Some_if with (m := cid). now apply channel_id_at_intro.
Qed.

Lemma extracted_channel_id_truthy url cid :
  _extract_channel_id_from_url url = Some cid -> str_truthy cid = true.
Proof.
  intros H. apply extract_channel_id_Some in H as (_ & _ & _ & tl & -> & _).
  reflexivity.
Qed.

(** The handle patterns. *)
Lemma at_handle_at_elim s name :
  Re.at_handle_at s = Some name ->
  exists suf, s = "@" +:+ name +:+ suf
              /\ name <> "" /\ all_id_chars name = true /\ ends_run suf = true.
Proof.
  unfold Re.at_handle_at.
  destruct (Re.literal "@" s) as [rest|] eqn:Hlit; [|discriminate].
  apply literal_elim in Hlit as ->.
  intros H. apply name_at_elim in H as (Hne & Hall & suf & -> & Hend).
  now exists suf.
Qed.

Lemma path_name_at_elim s name :
  Re.path_name_at s = Some name ->
  exists marker suf,
    (marker = "/c/" \/ marker = "/user/")
    /\ s = marker +:+ name +:+ suf
    /\ name <> "" /\ all_id_chars name = true /\ ends_run suf = true.
Proof.
  unfold Re.path_name_at.
  destruct (Re.literal "/" s) as [rest|] eqn:Hlit; [|discriminate].
  apply literal_elim in Hlit as ->.
  assert (Hrest : forall s' name,
             match Re.literal "/" s' with
             | Some tl => Re.name_at tl
             | None => None
             end = Some name ->
             exists suf, s' = "/" +:+ name +:+ suf
                         /\ name <> "" /\ all_id_chars name = true
                         /\ ends_run suf = true).
  { intros s' nm. destruct (Re.literal "/" s') as [tl|] eqn:Htl; [|discriminate].
    apply literal_elim in Htl as ->.
    intros H. apply name_at_elim in H as (Hne & Hall & suf & -> & Hend).
    now exists suf. }
  destruct (match Re.literal "c" rest with
            | Some s' => _
            | None => None
            end) as [name'|] eqn:Hc.
  - intros [= <-].
    destruct (Re.literal "c" rest) as [s'|] eqn:Hs'; [|discriminate].
    apply literal_elim in Hs' as ->.
    apply Hrest in Hc as (suf & -> & Hne & Hall & Hend).
    exists "/c/", suf. repeat split; auto.
  - destruct (Re.literal "user" rest) as [s'|] eqn:Hs'; [|discriminate].
    apply literal_elim in Hs' as ->.
    intros H. apply Hrest in H as (suf & -> & Hne & Hall & Hend).
    exists "/user/", suf. repeat split; auto.
Qed.

Lemma at_handle_at_None suf : Re.at_handle_at ("@" +:+ suf) = None -> ends_run suf = true.
Proof.
  unfold Re.at_handle_at. rewrite literal_intro. apply name_at_None.
Qed.

Lemma path_name_at_None_c suf :
  Re.path_name_at ("/c/" +:+ suf) = None -> ends_run suf = true.
Proof.
  unfold Re.path_name_at.
  change ("/c/" +:+ suf) with ("/" +:+ "c" +:+ "/" +:+ suf).
  rewrite !literal_intro.
  destruct (Re.name_at suf) eqn:Hn; [discriminate |].
  intros _. now apply name_at_None.
Qed.

Lemma path_name_at_None_user suf :
  Re.path_name_at ("/user/" +:+ suf) = None -> ends_run suf = true.
Proof.
  unfold Re.path_name_at.
  change ("/user/" +:+ suf) with ("/" +:+ "user" +:+ "/" +:+ suf).
  rewrite !literal_intro.
  destruct (match Re.literal "c" ("user" +:+ "/" +:+ suf) with
            | Some s' => _
            | None => None
            end); [discriminate |].
  destruct (Re.name_at suf) eqn:Hn; [discriminate |].
  intros _. now apply name_at_None.
Qed.

(** [_extract_channel_name_from_url] returns a handle the reference
    carries in an [@name], [/c/name] or [/user/name] segment, and nothing
    only when the reference has no such segment. *)
Lemma extract_channel_name_Some url name :
  _extract_channel_name_from_url url = Some name -> handle_segment url name.
Proof.
  unfold _extract_channel_name_from_url, handle_segment, has_segment.
  destruct (Re.search Re.at_handle_at url) as [nm|] eqn:Hat.
  - intros [= <-]. apply search_elim in Hat as (pre & rest & -> & Hm & _).
    apply at_handle_at_elim in Hm as (suf & -> & Hne & Hall & Hend).
    left. now exists pre, suf.
  - intros H. apply search_elim in H as (pre & rest & -> & Hm & _).
    apply path_name_at_elim in Hm as (marker & suf & Hmk & -> & Hne & Hall & Hend).
    destruct Hmk as [-> | ->]; [right; left | right; right]; now exists pre, suf.
Qed.

Lemma extract_channel_name_None url :
  _extract_channel_name_from_url url = None -> no_handle_segment url.
Proof.
  unfold _extract_channel_name_from_url, no_handle_segment, no_segment.
  destruct (Re.search Re.at_handle_at url) as [nm|] eqn:Hat; [discriminate |].
  intros Hpath. repeat split; intros pre suf ->.
  - apply at_handle_at_None. apply (search_None _ _ Hat pre). reflexivity.
  - apply path_name_at_None_c. apply (search_None _ _ Hpath pre). reflexivity.
  - apply path_name_at_None_user. apply (search_None _ _ Hpath pre). reflexivity.
Qed.

Lemma extracted_channel_name_truthy url name :
  _extract_channel_name_from_url url = Some name -> str_truthy name = true.
Proof.
  intros H. apply extract_channel_name_Some in H.
  assert (Hne : name <> "").
  { destruct H as [H | [H | H]]; destruct H as (_ & _ & _ & Hne & _); exact Hne. }
  now destruct name.
Qed.

(* ===================================================================== *)
(** * The State Manager                                                   *)
(* ===================================================================== *)

Module StateManagerFacts.
Import StateManager.

Section Values.

(** What the dicts of the slots hold plays no part. *)
Context {V : Type}.

Lemma get_in_missing_map key k (d : Document V) : d !! key = None -> get_in key k d = Ok None.
Proof. unfold get_in. intros ->. simpl. now rewrite lookup_empty. Qed.

Lemma get_in_dict key k (d : Document V) m :
  d !! key = Some (SDict m) -> get_in key k d = Ok (m !! k).
Proof. unfold get_in. now intros ->. Qed.

Lemma get_in_other key k (d : Document V) ty :
  d !! key = Some (SOther ty) -> exists e, get_in key k d = Raise e.
Proof. unfold get_in. intros ->. simpl. eauto. Qed.

Lemma set_in_other key k v (d : Document V) ty :
  d !! key = Some (SOther ty) -> exists e, set_in key k v d = Raise e.
Proof. unfold set_in. intros ->. eauto. Qed.

Lemma set_in_dict key k v (d : Document V) m :
  d !! key = Some (SDict m) ->
  exists d', set_in key k v d = Ok d' /\ d' !! key = Some (SDict (<[k := v]> m)).
Proof.
  unfold set_in. intros ->. eexists. split; [reflexivity |].
  now rewrite lookup_insert_eq.
Qed.

Lemma get_in_total key k (d : Document V) :
  dict_shaped d -> exists o, get_in key k d = Ok o.
Proof.
  intros Hd. unfold get_in. destruct (d !! key) as [[m|ty]|] eqn:Hk; simpl; eauto.
  now destruct (Hd key ty).
Qed.

(** A successful read tells that the slot is a dict or missing, so the
    write that follows goes through. *)
Lemma set_in_after_get key k k' v (d : Document V) o :
  get_in key k d = Ok o -> set_in key k' v d = Ok (put_in key k' v d).
Proof.
  unfold get_in, set_in, put_in.
  destruct (d !! key) as [[m|ty]|]; simpl; (reflexivity || discriminate).
Qed.

Lemma set_in_total key k v (d : Document V) :
  dict_shaped d -> set_in key k v d = Ok (put_in key k v d).
Proof.
  intros Hd. destruct (get_in_total key k d Hd) as [o Ho].
  exact (set_in_after_get _ _ _ _ _ _ Ho).
Qed.

Lemma get_in_put_in_eq key k v (d : Document V) : get_in key k (put_in key k v d) = Ok (Some v).
Proof.
  unfold get_in, put_in. rewrite lookup_insert_eq. simpl.
  now rewrite lookup_insert_eq.
Qed.

Lemma get_in_put_in_ne key k k' v (d : Document V) o :
  k <> k' -> get_in key k d = Ok o -> get_in key k (put_in key k' v d) = Ok o.
Proof.
  unfold get_in, put_in. intros Hne. rewrite lookup_insert_eq. simpl.
  rewrite lookup_insert_ne by congruence.
  destruct (d !! key) as [[m|ty]|]; simpl; (easy || discriminate).
Qed.

Lemma get_in_put_in_other key key' k k' v (d : Document V) :
  key <> key' -> get_in key k (put_in key' k' v d) = get_in key k d.
Proof.
  unfold get_in, put_in. intros Hne. now rewrite lookup_insert_ne by congruence.
Qed.

Lemma put_in_other_slot key key' k v (d : Document V) :
  key <> key' -> put_in key' k v d !! key = d !! key.
Proof. unfold put_in. intros Hne. now rewrite lookup_insert_ne by congruence. Qed.

Lemma put_in_missing_map key k v (d : Document V) :
  d !! key = None -> put_in key k v d !! key = Some (SDict {[k := v]}).
Proof. unfold put_in. intros ->. now rewrite lookup_insert_eq. Qed.

Lemma put_in_dict_shaped key k v (d : Document V) : dict_shaped d -> dict_shaped (put_in key k v d).
Proof.
  intros Hd key' ty. unfold put_in.
  destruct (decide (key = key')) as [<- | Hne].
  - now rewrite lookup_insert_eq.
  - rewrite lookup_insert_ne by congruence. apply Hd.
Qed.

End Values.

Lemma empty_doc_dict_shaped : dict_shaped empty_doc.
Proof.
  intros key ty. unfold empty_doc.
  destruct (decide ("resolved" = key)) as [<- | H1]; [now rewrite lookup_insert_eq |].
  rewrite lookup_insert_ne by congruence.
  destruct (decide ("last_seen" = key)) as [<- | H2]; [now rewrite lookup_insert_eq |].
  rewrite lookup_insert_ne by congruence. now rewrite lookup_empty.
Qed.

End StateManagerFacts.

(** C9, as stated, fails.  [{"resolved": {}, "last_seen": null}] is a
    dictionary, and it is the document the State Manager holds once [load]
    has read it from the state file; on it the accessors of "last_seen"
    raise, the getter an [AttributeError] and the setter a [TypeError],
    while those of "resolved" return. *)
Lemma null_slot_accessors_raise :
  storage_load reads_null_last_seen null_last_seen_file = Ok doc_null_last_seen
  /\ StateManager.get_resolved "@a" doc_null_last_seen = Ok None
  /\ StateManager.get_last_seen channel_a doc_null_last_seen
     = Raise (Exn AttributeError "'NoneType' object has no attribute 'get'")
  /\ StateManager.set_last_seen channel_a "video1" doc_null_last_seen
     = Raise (Exn TypeError "'NoneType' object does not support item assignment")
  /\ ~ (forall k, exists o, StateManager.get_last_seen k doc_null_last_seen = Ok o).
Proof.
  split; [vm_compute; reflexivity |].
  split; [vm_compute; reflexivity |].
  split; [vm_compute; reflexivity |].
  split; [vm_compute; reflexivity |].
  intros Htotal. destruct (Htotal channel_a) as [o Ho].
  vm_compute in Ho. discriminate.
Qed.

(** C9, amended.  What an accessor does depends on what its own key holds
    and on nothing else: not on the other key, and not on what the values
    of the dicts are (they are of any type [V]).  When the key is missing
    or holds a dict, the accessor returns: a getter returns [None] when
    the map is missing and when the map lacks the key, and the entry
    otherwise; a setter on a missing map creates the map and puts the
    entry in it, and on a dict adds the entry to it.  When the key holds
    anything but a dict, its getter and its setter raise.  So on a dict of
    dicts, whichever of its keys are missing, no accessor raises; after a
    setter the getter reads the value back, and the other slot is as it
    was. *)
Theorem state_manager_accessors_total (V : Type) (d : Document V) (k : string) (v : V) :
  (d !! "resolved" = None -> StateManager.get_resolved k d = Ok None)
  /\ (forall m, d !! "resolved" = Some (SDict m) -> m !! k = None ->
                StateManager.get_resolved k d = Ok None)
  /\ (d !! "last_seen" = None -> StateManager.get_last_seen k d = Ok None)
  /\ (forall m, d !! "last_seen" = Some (SDict m) -> m !! k = None ->
                StateManager.get_last_seen k d = Ok None)
  /\ (d !! "resolved" = None ->
      exists d', StateManager.set_resolved k v d = Ok d'
                 /\ d' !! "resolved" = Some (SDict {[k := v]}))
  /\ (d !! "last_seen" = None ->
      exists d', StateManager.set_last_seen k v d = Ok d'
                 /\ d' !! "last_seen" = Some (SDict {[k := v]}))
  /\ (dict_shaped d ->
      (exists o, StateManager.get_resolved k d = Ok o)
      /\ (exists o, StateManager.get_last_seen k d = Ok o)
      /\ (exists d', StateManager.set_resolved k v d = Ok d'
                     /\ dict_shaped d'
                     /\ StateManager.get_resolved k d' = Ok (Some v)
                     /\ d' !! "last_seen" = d !! "last_seen")
      /\ (exists d', StateManager.set_last_seen k v d = Ok d'
                     /\ dict_shaped d'
                     /\ StateManager.get_last_seen k d' = Ok (Some v)
                     /\ d' !! "resolved" = d !! "resolved"))
  /\ (forall m, d !! "resolved" = Some (SDict m) ->
      StateManager.get_resolved k d = Ok (m !! k)
      /\ exists d', StateManager.set_resolved k v d = Ok d'
                    /\ d' !! "resolved" = Some (SDict (<[k := v]> m)))
  /\ (forall m, d !! "last_seen" = Some (SDict m) ->
      StateManager.get_last_seen k d = Ok (m !! k)
      /\ exists d', StateManager.set_last_seen k v d = Ok d'
                    /\ d' !! "last_seen" = Some (SDict (<[k := v]> m)))
  /\ (forall ty, d !! "resolved" = Some (SOther ty) ->
      (exists e, StateManager.get_resolved k d = Raise e)
      /\ (exists e, StateManager.set_resolved k v d = Raise e))
  /\ (forall ty, d !! "last_seen" = Some (SOther ty) ->
      (exists e, StateManager.get_last_seen k d = Raise e)
      /\ (exists e, StateManager.set_last_seen k v d = Raise e)).
Proof.
  unfold StateManager.get_resolved, StateManager.get_last_seen,
    StateManager.set_resolved, StateManager.set_last_seen.
  split; [apply StateManagerFacts.get_in_missing_map |].
  split; [intros m Hm <-; now apply StateManagerFacts.get_in_dict |].
  split; [apply StateManagerFacts.get_in_missing_map |].
  split; [intros m Hm <-; now apply StateManagerFacts.get_in_dict |].
  split.
  { intros Hmiss. eexists. split.
    - apply (StateManagerFacts.set_in_after_get _ k _ _ _ None).
      now apply StateManagerFacts.get_in_missing_map.
    - now apply StateManagerFacts.put_in_missing_map. }
  split.
  { intros Hmiss. eexists. split.
    - apply (StateManagerFacts.set_in_after_get _ k _ _ _ None).
      now apply StateManagerFacts.get_in_missing_map.
    - now apply StateManagerFacts.put_in_missing_map. }
  split.
  { intros Hd.
    split; [now apply StateManagerFacts.get_in_total |].
    split; [now apply StateManagerFacts.get_in_total |].
    split.
    - exists (put_in "resolved" k v d).
      split; [now apply StateManagerFacts.set_in_total |].
      split; [now apply StateManagerFacts.put_in_dict_shaped |].
      split; [apply StateManagerFacts.get_in_put_in_eq |].
      now apply StateManagerFacts.put_in_other_slot.
    - exists (put_in "last_seen" k v d).
      split; [now apply StateManagerFacts.set_in_total |].
      split; [now apply StateManagerFacts.put_in_dict_shaped |].
      split; [apply StateManagerFacts.get_in_put_in_eq |].
      now apply StateManagerFacts.put_in_other_slot. }
  split.
  { intros m Hm. split; [now apply StateManagerFacts.get_in_dict |].
    now apply StateManagerFacts.set_in_dict. }
  split.
  { intros m Hm. split; [now apply StateManagerFacts.get_in_dict |].
    now apply StateManagerFacts.set_in_dict. }
  split.
  { intros ty Hty. split; [now apply (StateManagerFacts.get_in_other _ _ _ ty) |].
    now apply (StateManagerFacts.set_in_other _ _ _ _ ty). }
  intros ty Hty. split; [now apply (StateManagerFacts.get_in_other _ _ _ ty) |].
  now apply (StateManagerFacts.set_in_other _ _ _ _ ty).
Qed.

(* ===================================================================== *)
(** * The Channel Resolver                                                *)
(* ===================================================================== *)

Ltac run_monad :=
  unfold mbind, M_bind, mret, M_ret, sm_get, sm_set, try_except in *;
  cbv beta in *.

Section Resolver.

Variable w : World.

Lemma resolve_channel_name_to_id_eq name st :
  _resolve_channel_name_to_id w name st
  = (Ok (top_match (search_list w (now st) name)), log (EvSearch name) st).
Proof.
  unfold _resolve_channel_name_to_id, top_match.
  now destruct (search_list w (now st) name) as [[|id items]|e].
Qed.

(** The whole of [_resolve_channel_id], one case per way through it. *)
Lemma resolve_channel_id_eq channel_url st :
  _resolve_channel_id w channel_url st =
  match StateManager.get_resolved channel_url (st_doc st) with
  | Raise e => (Raise e, st)
  | Ok cached_id =>
      if truthy cached_id then (Ok cached_id, st)
      else
        match _extract_channel_id_from_url channel_url with
        | Some id =>
            (Ok (Some id),
             {| st_doc := put_in "resolved" channel_url id (st_doc st);
                st_trace := st_trace st |})
        | None =>
            match _extract_channel_name_from_url channel_url with
            | Some name =>
                let found := top_match (search_list w (now st) name) in
                (Ok found,
                 {| st_doc := if truthy found
                              then put_in "resolved" channel_url (default "" found) (st_doc st)
                              else st_doc st;
                    st_trace := st_trace st ++ [EvSearch name] |})
            | None => (Ok None, st)
            end
        end
  end.
Proof.
  unfold _resolve_channel_id. run_monad.
  destruct (StateManager.get_resolved channel_url (st_doc st)) as [cached|e] eqn:Hget;
    [|reflexivity].
  destruct (truthy cached) eqn:Hcached; [reflexivity |].
  destruct (_extract_channel_id_from_url channel_url) as [id|] eqn:Hid.
  - unfold truthy at 1. rewrite (extracted_channel_id_truthy _ _ Hid).
    cbv beta iota. unfold negb. rewrite (extracted_channel_id_truthy _ _ Hid).
    unfold StateManager.set_resolved.
    now rewrite (StateManagerFacts.set_in_after_get _ _ _ _ _ _ Hget).
  - cbn [truthy negb].
    destruct (_extract_channel_name_from_url channel_url) as [name|] eqn:Hname;
      [|reflexivity].
    rewrite (extracted_channel_name_truthy _ _ Hname).
    rewrite resolve_channel_name_to_id_eq.
    destruct (top_match (search_list w (now st) name)) as [id|]; [|reflexivity].
    cbn [truthy default]. destruct (str_truthy id); [|reflexivity].
    unfold StateManager.set_resolved.
    now rewrite (StateManagerFacts.set_in_after_get _ _ _ _ _ _ Hget).
Qed.

End Resolver.

(** C2, as stated, fails: ["@a"] is a key of the resolved cache, cached
    as the empty string.  The cached value is tested for truth, so the
    entry counts as a miss: the name is searched for and the channel found
    is returned, not the cached value. *)
Lemma empty_cached_id_is_looked_up :
  StateManager.get_resolved "@a" (st_doc st_empty_id) = Ok (Some "")
  /\ (_resolve_channel_id world_steady "@a" st_empty_id).1 = Ok (Some channel_a)
  /\ st_trace (_resolve_channel_id world_steady "@a" st_empty_id).2 = [EvSearch "a"].
Proof. vm_compute. repeat split; reflexivity. Qed.

(** C2, amended. Resolution tries three things in order and stops at the
    first that succeeds.  (1) A reference the resolved cache maps to a
    non-empty channel ID gets that ID back, whatever the reference looks
    like, and nothing else happens: the state and the log of external
    calls are untouched.  (2) Otherwise (no entry, or an empty one), a
    reference that contains a substring of the channel-ID shape gets such
    a substring back (the one the pattern finds), with nothing added to the
    log.  (3) Otherwise, a handle is taken from an [@name], [/c/name] or
    [/user/name] segment: when there is one, exactly one call is logged,
    the search for that name, and its top match is the result; when there
    is none, nothing is logged and the result is [None]. *)
Theorem resolution_is_ordered (w : World) (ref : string) (st : St) :
  (forall id,
      StateManager.get_resolved ref (st_doc st) = Ok (Some id) -> id <> "" ->
      _resolve_channel_id w ref st = (Ok (Some id), st))
  /\ (forall cached,
         StateManager.get_resolved ref (st_doc st) = Ok cached ->
         truthy cached = false ->
         forall some_id, contains_channel_id ref some_id ->
         exists cid st',
           _resolve_channel_id w ref st = (Ok (Some cid), st')
           /\ _extract_channel_id_from_url ref = Some cid
           /\ contains_channel_id ref cid
           /\ st_trace st' = st_trace st)
  /\ (forall cached,
         StateManager.get_resolved ref (st_doc st) = Ok cached ->
         truthy cached = false ->
         (forall cid, ~ contains_channel_id ref cid) ->
         match _extract_channel_name_from_url ref with
         | Some name =>
             handle_segment ref name
             /\ exists st',
                 _resolve_channel_id w ref st
                 = (Ok (top_match (search_list w (now st) name)), st')
                 /\ st_trace st' = st_trace st ++ [EvSearch name]
         | None =>
             no_handle_segment ref
             /\ _resolve_channel_id w ref st = (Ok None, st)
         end).
Proof.
  repeat split.
  - intros id Hget Hne. rewrite resolve_channel_id_eq, Hget.
    destruct id; [contradiction | reflexivity].
  - intros cached Hget Hfalsy some_id Hsome.
    destruct (extract_channel_id_complete _ _ Hsome) as [cid Hcid].
    exists cid. eexists. rewrite resolve_channel_id_eq, Hget, Hfalsy, Hcid.
    repeat split. now apply extract_channel_id_Some.
  - intros cached Hget Hfalsy Hno.
    assert (Hid : _extract_channel_id_from_url ref = None).
    { destruct (_extract_channel_id_from_url ref) as [cid|] eqn:Hcid; [|reflexivity].
      destruct (Hno cid). now apply extract_channel_id_Some. }
    rewrite resolve_channel_id_eq, Hget, Hfalsy, Hid.
    destruct (_extract_channel_name_from_url ref) as [name|] eqn:Hname.
    + split; [now apply extract_channel_name_Some |].
      eexists. split; reflexivity.
    + split; [now apply extract_channel_name_None | reflexivity].
Qed.

(** Entries of the resolved cache that hold a channel ID are never
    overwritten nor removed by a resolution, of any reference. *)
Lemma resolve_keeps_cached (w : World) ref ref' id st r st' :
  StateManager.get_resolved ref (st_doc st) = Ok (Some id) -> id <> "" ->
  _resolve_channel_id w ref' st = (r, st') ->
  StateManager.get_resolved ref (st_doc st') = Ok (Some id).
Proof.
  intros Hget Hne. rewrite resolve_channel_id_eq.
  assert (Hput : forall id',
             StateManager.get_resolved ref' (st_doc st) = Ok None
             \/ StateManager.get_resolved ref' (st_doc st) = Ok (Some "") ->
             StateManager.get_resolved ref (put_in "resolved" ref' id' (st_doc st))
             = Ok (Some id)).
  { intros id' Hmiss. unfold StateManager.get_resolved in *.
    apply StateManagerFacts.get_in_put_in_ne; [|exact Hget].
    intros ->. destruct Hmiss as [Hm | Hm]; rewrite Hm in Hget; congruence. }
  destruct (StateManager.get_resolved ref' (st_doc st)) as [cached|e] eqn:Hget';
    [|now intros [= <- <-]].
  destruct (truthy cached) eqn:Hc; [now intros [= <- <-] |].
  assert (Hmiss : Ok cached = Ok None \/ Ok cached = Ok (Some "")).
  { destruct cached as [[|c s]|]; simpl in Hc; auto; discriminate. }
  destruct (_extract_channel_id_from_url ref') as [cid|].
  - intros [= <- <-]. simpl. now apply Hput.
  - destruct (_extract_channel_name_from_url ref') as [name|];
      [|now intros [= <- <-]].
    simpl. intros [= <- <-]. simpl.
    destruct (truthy (top_match _)); [now apply Hput | exact Hget].
Qed.

(** A resolution touches the "resolved" slot only. *)
Lemma resolve_keeps_other_slots (w : World) ref st r st' key :
  key <> "resolved" ->
  _resolve_channel_id w ref st = (r, st') ->
  st_doc st' !! key = st_doc st !! key.
Proof.
  intros Hkey. rewrite resolve_channel_id_eq.
  destruct (StateManager.get_resolved ref (st_doc st)) as [cached|e];
    [|now intros [= <- <-]].
  destruct (truthy cached); [now intros [= <- <-] |].
  destruct (_extract_channel_id_from_url ref) as [cid|].
  - intros [= <- <-]. simpl. now apply StateManagerFacts.put_in_other_slot.
  - destruct (_extract_channel_name_from_url ref) as [name|];
      [|now intros [= <- <-]].
    simpl. intros [= <- <-]. simpl.
    destruct (truthy (top_match _)); [|reflexivity].
    now apply StateManagerFacts.put_in_other_slot.
Qed.

(** The calls a resolution logs: at most one, and only a name search. *)
Lemma resolve_trace (w : World) ref st r st' :
  _resolve_channel_id w ref st = (r, st') ->
  exists evs, st_trace st' = st_trace st ++ evs
              /\ length evs <= 1 /\ saves evs = 0 /\ lookups evs = length evs.
Proof.
  rewrite resolve_channel_id_eq.
  assert (Hnil : exists evs : list event,
             st_trace st = st_trace st ++ evs
             /\ length evs <= 1 /\ saves evs = 0 /\ lookups evs = length evs).
  { exists []. rewrite app_nil_r. repeat split; simpl; lia. }
  destruct (StateManager.get_resolved ref (st_doc st)) as [cached|e];
    [|now intros [= <- <-]].
  destruct (truthy cached); [now intros [= <- <-] |].
  destruct (_extract_channel_id_from_url ref) as [cid|];
    [now intros [= <- <-] |].
  destruct (_extract_channel_name_from_url ref) as [name|];
    [|now intros [= <- <-]].
  simpl. intros [= <- <-]. simpl. exists [EvSearch name]. repeat split; simpl; lia.
Qed.

(** What a successful resolution returns is in the cache when it returns. *)
Lemma resolve_caches (w : World) ref st id st' :
  _resolve_channel_id w ref st = (Ok (Some id), st') -> id <> "" ->
  StateManager.get_resolved ref (st_doc st') = Ok (Some id).
Proof.
  rewrite resolve_channel_id_eq. intros H Hne.
  assert (Hid : str_truthy id = true) by (destruct id; [contradiction | reflexivity]).
  destruct (StateManager.get_resolved ref (st_doc st)) as [cached|e] eqn:Hget;
    [|discriminate].
  destruct (truthy cached) eqn:Hc; [injection H as -> <-; exact Hget |].
  destruct (_extract_channel_id_from_url ref) as [cid|].
  - injection H as -> <-. simpl. apply StateManagerFacts.get_in_put_in_eq.
  - destruct (_extract_channel_name_from_url ref) as [name|]; [|discriminate].
    simpl in H. injection H as Hfound <-. rewrite Hfound. simpl. rewrite Hid.
    apply StateManagerFacts.get_in_put_in_eq.
Qed.

(* ===================================================================== *)
(** * The Freshness Evaluator: one channel                                *)
(* ===================================================================== *)

Section Channel.

Variable w : World.

Lemma now_log ev st : now (log ev st) = S (now st).
Proof. unfold now, log. simpl. rewrite length_app. simpl. lia. Qed.

Lemma get_latest_video_eq cid st :
  _get_latest_video w cid st
  = (Ok (latest_of w cid st),
     {| st_doc := st_doc st; st_trace := st_trace st ++ latest_calls w cid st |}).
Proof.
  unfold _get_latest_video, latest_of, latest_calls. rewrite now_log.
  destruct (channels_list w (now st) cid) as [[|uploads items]|e]; try reflexivity.
  unfold log. simpl. rewrite <- app_assoc. simpl.
  now destruct (playlist_items w (S (now st)) uploads) as [[|sn sns]|e].
Qed.

Lemma latest_of_channel_id cid st vi : latest_of w cid st = Some vi -> channel_id vi = cid.
Proof.
  unfold latest_of.
  destruct (channels_list w (now st) cid) as [[|uploads items]|e]; try discriminate.
  destruct (playlist_items w (S (now st)) uploads) as [[|sn sns]|e]; try discriminate.
  now intros [= <-].
Qed.

Lemma latest_calls_no_save cid st :
  saves (latest_calls w cid st) = 0 /\ lookups (latest_calls w cid st) = 0.
Proof.
  unfold latest_calls.
  now destruct (channels_list w (now st) cid) as [[|uploads items]|e].
Qed.

(** The body of the inner [try], one case per way through it. *)
Lemma channel_body_eq channel_url st :
  channel_body w channel_url st =
  match _resolve_channel_id w channel_url st with
  | (Raise e, st1) => (Raise e, st1)
  | (Ok None, st1) => (Ok (Skipped "Could not resolve channel ID"), st1)
  | (Ok (Some id), st1) =>
      if str_truthy id then
        let st2 := {| st_doc := st_doc st1;
                      st_trace := st_trace st1 ++ latest_calls w id st1 |} in
        match latest_of w id st1 with
        | None => (Ok (Skipped "No videos found"), st2)
        | Some vi =>
            match StateManager.get_last_seen id (st_doc st1) with
            | Raise e => (Raise e, st2)
            | Ok last_seen =>
                if differs last_seen (video_id vi)
                then (Ok (Fetched vi true),
                      {| st_doc := put_in "last_seen" id (video_id vi) (st_doc st1);
                         st_trace := st_trace st2 |})
                else (Ok (Fetched vi false), st2)
            end
        end
      else (Ok (Skipped "Could not resolve channel ID"), st1)
  end.
Proof.
  unfold channel_body. run_monad.
  destruct (_resolve_channel_id w channel_url st) as [[[id|]|e] st1]; try reflexivity.
  destruct (str_truthy id); [|reflexivity].
  rewrite get_latest_video_eq.
  destruct (latest_of w id st1) as [vi|]; [|reflexivity].
  cbn [st_doc st_trace]. fold (differs).
  destruct (StateManager.get_last_seen id (st_doc st1)) as [last_seen|e] eqn:Hget;
    [|reflexivity].
  fold (differs last_seen (video_id vi)).
  destruct (differs last_seen (video_id vi)); [|reflexivity].
  unfold StateManager.set_last_seen.
  now rewrite (StateManagerFacts.set_in_after_get _ _ _ _ _ _ Hget).
Qed.

End Channel.

Section ChannelFacts.

Variable w : World.

Lemma get_in_same_slot key k (d d' : Doc) :
  d' !! key = d !! key -> StateManager.get_in key k d' = StateManager.get_in key k d.
Proof. unfold StateManager.get_in. now intros ->. Qed.

(** What a turn that reaches the end of the body went through. *)
Lemma channel_body_fetched channel_url st vi new st' :
  channel_body w channel_url st = (Ok (Fetched vi new), st') ->
  exists st1 last_seen,
    _resolve_channel_id w channel_url st = (Ok (Some (channel_id vi)), st1)
    /\ channel_id vi <> ""
    /\ latest_of w (channel_id vi) st1 = Some vi
    /\ StateManager.get_last_seen (channel_id vi) (st_doc st) = Ok last_seen
    /\ new = differs last_seen (video_id vi)
    /\ st_trace st' = st_trace st1 ++ latest_calls w (channel_id vi) st1
    /\ st_doc st' = if new
                    then put_in "last_seen" (channel_id vi) (video_id vi) (st_doc st1)
                    else st_doc st1.
Proof.
  rewrite channel_body_eq.
  destruct (_resolve_channel_id w channel_url st) as [[[id|]|e] st1] eqn:Hres;
    try discriminate.
  destruct (str_truthy id) eqn:Hid; [|discriminate].
  destruct (latest_of w id st1) as [vi'|] eqn:Hlatest; [|discriminate].
  pose proof (latest_of_channel_id _ _ _ _ Hlatest) as Hcid.
  destruct (StateManager.get_last_seen id (st_doc st1)) as [last_seen|e] eqn:Hget;
    [|discriminate].
  assert (Hget0 : StateManager.get_last_seen id (st_doc st) = Ok last_seen).
  { rewrite <- Hget. symmetry. apply get_in_same_slot.
    now apply (resolve_keeps_other_slots w channel_url st (Ok (Some id)) st1). }
  intros H. exists st1, last_seen.
  destruct (differs last_seen (video_id vi')) eqn:Hnew;
    injection H as <- <- <-; rewrite Hcid; rewrite Hnew;
    (repeat split; try easy; intros ->; discriminate).
Qed.

(** A turn that ends any other way leaves the "last_seen" slot alone. *)
Lemma channel_body_last_seen_slot channel_url st t st' :
  channel_body w channel_url st = (t, st') ->
  (forall vi, t <> Ok (Fetched vi true)) ->
  st_doc st' !! "last_seen" = st_doc st !! "last_seen".
Proof.
  rewrite channel_body_eq.
  destruct (_resolve_channel_id w channel_url st) as [r st1] eqn:Hres.
  assert (Hslot : st_doc st1 !! "last_seen" = st_doc st !! "last_seen")
    by now apply (resolve_keeps_other_slots w channel_url st r st1).
  destruct r as [[id|]|e]; try (now intros [= <- <-]).
  destruct (str_truthy id); [|now intros [= <- <-]].
  destruct (latest_of w id st1) as [vi|]; [|now intros [= <- <-]].
  destruct (StateManager.get_last_seen id (st_doc st1)) as [last_seen|e];
    [|now intros [= <- <-]].
  destruct (differs last_seen (video_id vi)); [|now intros [= <- <-]].
  intros [= <- <-] Hno. now destruct (Hno vi).
Qed.

(** The calls one turn logs: no storage write, at most one name search. *)
Lemma channel_body_trace channel_url st t st' :
  channel_body w channel_url st = (t, st') ->
  exists evs, st_trace st' = st_trace st ++ evs /\ saves evs = 0 /\ lookups evs <= 1.
Proof.
  rewrite channel_body_eq.
  destruct (_resolve_channel_id w channel_url st) as [r st1] eqn:Hres.
  destruct (resolve_trace _ _ _ _ _ Hres) as (evs & Htr & Hlen & Hsaves & Hlook).
  assert (H1 : exists evs0, st_trace st1 = st_trace st ++ evs0
                            /\ saves evs0 = 0 /\ lookups evs0 <= 1).
  { exists evs. repeat split; [easy | easy | lia]. }
  assert (H2 : forall id, exists evs0,
               st_trace st1 ++ latest_calls w id st1 = st_trace st ++ evs0
               /\ saves evs0 = 0 /\ lookups evs0 <= 1).
  { intros id. exists (evs ++ latest_calls w id st1).
    destruct (latest_calls_no_save w id st1) as [Hs Hl].
    rewrite Htr, <- app_assoc. unfold saves, lookups in *.
    rewrite !List.filter_app, !length_app. repeat split; lia. }
  destruct r as [[id|]|e]; try (now intros [= <- <-]).
  destruct (str_truthy id); [|now intros [= <- <-]].
  destruct (latest_of w id st1) as [vi|]; [|intros [= <- <-]; apply H2].
  destruct (StateManager.get_last_seen id (st_doc st1)) as [last_seen|e];
    [|intros [= <- <-]; apply H2].
  destruct (differs last_seen (video_id vi)); intros [= <- <-]; apply H2.
Qed.

(** Cached channel IDs survive a turn. *)
Lemma channel_body_keeps_cached ref id channel_url st t st' :
  StateManager.get_resolved ref (st_doc st) = Ok (Some id) -> id <> "" ->
  channel_body w channel_url st = (t, st') ->
  StateManager.get_resolved ref (st_doc st') = Ok (Some id).
Proof.
  intros Hget Hne. rewrite channel_body_eq.
  destruct (_resolve_channel_id w channel_url st) as [r st1] eqn:Hres.
  pose proof (resolve_keeps_cached w _ _ _ _ _ _ Hget Hne Hres) as Hget1.
  destruct r as [[id'|]|e]; try (now intros [= <- <-]).
  destruct (str_truthy id'); [|now intros [= <- <-]].
  destruct (latest_of w id' st1) as [vi|]; [|now intros [= <- <-]].
  destruct (StateManager.get_last_seen id' (st_doc st1)) as [last_seen|e];
    [|now intros [= <- <-]].
  destruct (differs last_seen (video_id vi)); intros [= <- <-]; [|easy].
  simpl. unfold StateManager.get_resolved in *.
  now rewrite StateManagerFacts.get_in_put_in_other.
Qed.

End ChannelFacts.

(* ===================================================================== *)
(** * The Batch Orchestrator: the loop and the response                   *)
(* ===================================================================== *)

Section Loop.

Variable w : World.

Lemma batch_app_empty_r b : batch_app b empty_batch = b.
Proof. destruct b. unfold batch_app. simpl. now rewrite !app_nil_r. Qed.

Lemma batch_app_empty_l b : batch_app empty_batch b = b.
Proof. now destruct b. Qed.

Lemma batch_app_assoc b1 b2 b3 :
  batch_app (batch_app b1 b2) b3 = batch_app b1 (batch_app b2 b3).
Proof. unfold batch_app. simpl. now rewrite !app_assoc. Qed.

(** What a turn appends does not depend on what the lists already hold. *)
Lemma process_channel_app channel_url b st :
  process_channel w channel_url b st
  = (batch_app b (process_channel w channel_url empty_batch st).1,
     (process_channel w channel_url empty_batch st).2).
Proof.
  unfold process_channel, batch_app.
  destruct (channel_body w channel_url st) as [[[msg|vi new]|e] st']; simpl;
    rewrite ?app_nil_r; try reflexivity.
  now destruct new; simpl; rewrite ?app_nil_r.
Qed.

Lemma process_channels_app_batch channels b st :
  process_channels w channels b st
  = (batch_app b (process_channels w channels empty_batch st).1,
     (process_channels w channels empty_batch st).2).
Proof.
  revert b st. induction channels as [|c cs IH]; intros b st; simpl.
  - now rewrite batch_app_empty_r.
  - rewrite (process_channel_app c b st).
    destruct (process_channel w c empty_batch st) as [b1 st1]. simpl.
    rewrite (IH (batch_app b b1) st1), (IH b1 st1).
    simpl. now rewrite batch_app_assoc.
Qed.

(** The loop over a concatenation is the loop over the first part, then
    over the second from the lists and the state the first part left. *)
Lemma process_channels_app l1 l2 b st :
  process_channels w (l1 ++ l2) b st
  = let '(b1, st1) := process_channels w l1 b st in process_channels w l2 b1 st1.
Proof.
  revert b st. induction l1 as [|c cs IH]; intros b st; simpl; [reflexivity |].
  destruct (process_channel w c b st) as [b1 st1]. apply IH.
Qed.

(** One turn: the reference ends in [results] or in [errors], never in
    both, never in neither. *)
Lemma process_channel_outcome channel_url b st b' st' :
  process_channel w channel_url b st = (b', st') ->
  (exists vi new,
      channel_body w channel_url st = (Ok (Fetched vi new), st')
      /\ results b' = results b
                      ++ [{| info := vi; is_new := new; channel_url := channel_url |}]
      /\ new_videos b' = (if new then new_videos b ++ [vi] else new_videos b)
      /\ errors b' = errors b)
  \/ (exists t msg,
         channel_body w channel_url st = (t, st')
         /\ (forall vi new, t <> Ok (Fetched vi new))
         /\ results b' = results b
         /\ new_videos b' = new_videos b
         /\ errors b' = errors b ++ [{| channel := channel_url; message := msg |}]).
Proof.
  unfold process_channel.
  destruct (channel_body w channel_url st) as [[[msg|vi new]|e] st1] eqn:Hbody;
    intros [= <- <-]; simpl.
  - right. exists (Ok (Skipped msg)), msg. repeat split; congruence.
  - left. exists vi, new. repeat split.
  - right. exists (Raise e), (exn_msg e). repeat split; congruence.
Qed.

Lemma process_channel_trace channel_url b st b' st' :
  process_channel w channel_url b st = (b', st') ->
  exists evs, st_trace st' = st_trace st ++ evs /\ saves evs = 0 /\ lookups evs <= 1.
Proof.
  intros H. apply process_channel_outcome in H as [(vi & new & Hb & _) | (t & msg & Hb & _)];
    now apply channel_body_trace in Hb.
Qed.

Lemma process_channel_keeps_cached ref id channel_url b st b' st' :
  StateManager.get_resolved ref (st_doc st) = Ok (Some id) -> id <> "" ->
  process_channel w channel_url b st = (b', st') ->
  StateManager.get_resolved ref (st_doc st') = Ok (Some id).
Proof.
  intros Hget Hne H.
  apply process_channel_outcome in H as [(vi & new & Hb & _) | (t & msg & Hb & _)];
    eapply (channel_body_keeps_cached w ref id channel_url st); eassumption.
Qed.

(** The loop logs no storage write. *)
Lemma process_channels_trace channels b st b' st' :
  process_channels w channels b st = (b', st') ->
  exists evs, st_trace st' = st_trace st ++ evs /\ saves evs = 0
              /\ lookups evs <= length channels.
Proof.
  revert b st. induction channels as [|c cs IH]; intros b st; simpl.
  - intros [= <- <-]. exists []. rewrite app_nil_r. repeat split; unfold lookups; simpl; lia.
  - destruct (process_channel w c b st) as [b1 st1] eqn:Hstep. intros H.
    apply process_channel_trace in Hstep as (evs1 & Ht1 & Hs1 & Hl1).
    apply IH in H as (evs2 & Ht2 & Hs2 & Hl2).
    exists (evs1 ++ evs2). rewrite Ht2, Ht1, <- app_assoc.
    unfold saves, lookups in *. rewrite !List.filter_app, !length_app.
    repeat split; lia.
Qed.

Lemma process_channels_keeps_cached ref id channels b st b' st' :
  StateManager.get_resolved ref (st_doc st) = Ok (Some id) -> id <> "" ->
  process_channels w channels b st = (b', st') ->
  StateManager.get_resolved ref (st_doc st') = Ok (Some id).
Proof.
  intros Hget Hne. revert b st Hget.
  induction channels as [|c cs IH]; intros b st Hget; simpl.
  - now intros [= <- <-].
  - destruct (process_channel w c b st) as [b1 st1] eqn:Hstep.
    apply IH. now apply (process_channel_keeps_cached ref id c b st b1 st1).
Qed.

(** Every reference of the list is accounted for, once per occurrence and
    in the order of the list: the references of [results] and those of
    [errors] are two subsequences of the list that together make it up. *)
Lemma process_channels_accounts channels st b' st' :
  process_channels w channels empty_batch st = (b', st') ->
  map channel_url (results b') ++ map channel (errors b') ≡ₚ channels
  /\ sublist (map channel_url (results b')) channels
  /\ sublist (map channel (errors b')) channels.
Proof.
  revert st b' st'. induction channels as [|c cs IH]; intros st b' st'; simpl.
  - intros [= <- <-]. simpl. repeat split; constructor.
  - destruct (process_channel w c empty_batch st) as [b1 st1] eqn:Hstep.
    rewrite process_channels_app_batch.
    destruct (process_channels w cs empty_batch st1) as [b2 st2] eqn:Hrest.
    simpl. intros [= <- <-]. simpl.
    apply IH in Hrest as (Hperm & Hres & Herr).
    apply process_channel_outcome in Hstep
        as [(vi & new & _ & -> & _ & ->) | (t & msg & _ & _ & -> & _ & ->)]; simpl.
    + repeat split.
      * now constructor.
      * now constructor.
      * now apply sublist_cons.
    + repeat split.
      * rewrite <- Hperm. symmetry. apply Permutation_middle.
      * now apply sublist_cons.
      * now constructor.
Qed.

(** [process], one case per way through it. *)
Lemma process_eq input_data st :
  process w input_data st =
  match _extract_channels input_data with
  | [] => (Ok validation_error, st)
  | _ :: _ =>
      let '(b, st1) :=
        process_channels w (_extract_channels input_data) empty_batch st in
      (Ok match storage_save w (now st1) (st_doc st1) with
          | None => respond (_extract_channels input_data) b
          | Some e => unexpected_error e
          end,
       log (EvSave (st_doc st1)) st1)
  end.
Proof.
  unfold process.
  destruct (_extract_channels input_data) as [|c cs] eqn:Hch; [reflexivity |].
  cbn [nonempty negb]. unfold save. run_monad.
  destruct (process_channels w (c :: cs) empty_batch st) as [b st1].
  now destruct (storage_save w (now st1) (st_doc st1)).
Qed.

End Loop.

(* ===================================================================== *)
(** * Resolution is memoized                                              *)
(* ===================================================================== *)

(** C3. When a resolution returns a channel ID, the resolved cache maps
    the reference to that ID by the time it returns; the resolution logged
    at most one name search.  Resolving the same reference again returns
    the same ID and leaves the state and the log as they were, so the two
    resolutions together made at most one search; and the same holds for a
    resolution that comes after any further stretch of batch processing. *)
Theorem resolution_is_memoized (w : World) (ref id : string) (st st1 : St) :
  _resolve_channel_id w ref st = (Ok (Some id), st1) -> id <> "" ->
  StateManager.get_resolved ref (st_doc st1) = Ok (Some id)
  /\ _resolve_channel_id w ref st1 = (Ok (Some id), st1)
  /\ (exists evs, st_trace st1 = st_trace st ++ evs /\ lookups evs <= 1)
  /\ (forall channels b b2 st2,
         process_channels w channels b st1 = (b2, st2) ->
         _resolve_channel_id w ref st2 = (Ok (Some id), st2)).
Proof.
  intros Hres Hne.
  pose proof (resolve_caches w ref st id st1 Hres Hne) as Hcached.
  assert (Hhit : forall st2,
             StateManager.get_resolved ref (st_doc st2) = Ok (Some id) ->
             _resolve_channel_id w ref st2 = (Ok (Some id), st2)).
  { intros st2 Hget. rewrite resolve_channel_id_eq, Hget.
    destruct id; [contradiction | reflexivity]. }
  split; [exact Hcached |].
  split; [now apply Hhit |].
  split.
  - destruct (resolve_trace w ref st _ st1 Hres) as (evs & Htr & Hlen & _ & Hlook).
    exists evs. split; [exact Htr | lia].
  - intros channels b b2 st2 Hloop. apply Hhit.
    now apply (process_channels_keeps_cached w ref id channels b st1 b2 st2).
Qed.

(* ===================================================================== *)
(** * Freshness classification                                            *)
(* ===================================================================== *)

Lemma differs_spec (s : option string) (v : string) :
  differs s v = true <-> (s = None \/ exists v0, s = Some v0 /\ v0 <> v).
Proof.
  unfold differs. rewrite negb_true_iff, bool_decide_eq_false. split.
  - intros Hne. destruct s as [v0|]; [right | now left].
    exists v0. split; [reflexivity | congruence].
  - intros [-> | (v0 & -> & Hne)]; congruence.
Qed.

Lemma differs_false (s : option string) (v : string) :
  differs s v = false <-> s = Some v.
Proof.
  unfold differs. now rewrite negb_false_iff, bool_decide_eq_true.
Qed.

Lemma results_not_grown {A} (l : list A) (x : A) : l <> l ++ [x].
Proof.
  intros H. apply (f_equal (@length A)) in H. rewrite length_app in H.
  simpl in H. lia.
Qed.

(** C4. A channel that gets a result in a batch, with fetched video [v]
    and prior [last_seen] value [s] for its channel ID, is classified new
    exactly when [s] is absent or differs from [v].  When it is new,
    [last_seen] holds [v] for the channel in the state the turn leaves, and
    that state is the one the rest of the loop starts from; when it is
    not, the whole "last_seen" map is as the turn found it. *)
Theorem freshness_classification (w : World) (ref : string) (b b' : batch)
    (st st' : St) (r : result_entry) :
  process_channel w ref b st = (b', st') ->
  results b' = results b ++ [r] ->
  exists s,
    StateManager.get_last_seen (channel_id (info r)) (st_doc st) = Ok s
    /\ (is_new r = true <->
        (s = None \/ exists v0, s = Some v0 /\ v0 <> video_id (info r)))
    /\ (is_new r = true ->
        StateManager.get_last_seen (channel_id (info r)) (st_doc st')
        = Ok (Some (video_id (info r))))
    /\ (is_new r = false -> st_doc st' !! "last_seen" = st_doc st !! "last_seen")
    /\ (forall rest,
           process_channels w (ref :: rest) b st = process_channels w rest b' st').
Proof.
  intros Hstep Hres.
  assert (Hrest : forall rest,
             process_channels w (ref :: rest) b st = process_channels w rest b' st')
    by (intros rest; simpl; now rewrite Hstep).
  apply process_channel_outcome in Hstep
      as [(vi & new & Hbody & Hr & _) | (t & msg & _ & _ & Hr & _)].
  2:{ rewrite Hr in Hres. now destruct (results_not_grown _ _ Hres). }
  rewrite Hr in Hres. apply app_inv_head in Hres. injection Hres as <-. simpl.
  pose proof Hbody as Hslot.
  apply channel_body_fetched in Hbody
      as (st1 & s & Hresolve & Hne & Hlatest & Hget & -> & Htr & Hdoc).
  exists s. split; [exact Hget |].
  split; [apply differs_spec |].
  split; [|split; [|exact Hrest]].
  - intros Hnew. rewrite Hnew in Hdoc. rewrite Hdoc.
    apply StateManagerFacts.get_in_put_in_eq.
  - intros Hnew.
    apply (channel_body_last_seen_slot w ref st _ st' Hslot).
    intros vi' Heq. inversion Heq. congruence.
Qed.

(* ===================================================================== *)
(** * One save, after every reference                                     *)
(* ===================================================================== *)

Lemma saves_app (evs1 evs2 : list event) : saves (evs1 ++ evs2) = saves evs1 + saves evs2.
Proof. unfold saves. now rewrite List.filter_app, length_app. Qed.

(** C6. A batch that passes validation runs the loop over the whole list
    first: every reference of the list ends in [results] or in [errors],
    once per occurrence and in list order, and the loop logs no storage
    write.  Then [save] is called, once: the log of the batch is the log of
    the loop followed by that one write, of the document the loop left. *)
Theorem save_once_after_all (w : World) (input_data : option (gmap string pyval))
    (st st' : St) (response : res AgentResponse) :
  _extract_channels input_data <> [] ->
  process w input_data st = (response, st') ->
  exists b st1 evs,
    process_channels w (_extract_channels input_data) empty_batch st = (b, st1)
    /\ map channel_url (results b) ++ map channel (errors b)
       ≡ₚ _extract_channels input_data
    /\ sublist (map channel_url (results b)) (_extract_channels input_data)
    /\ sublist (map channel (errors b)) (_extract_channels input_data)
    /\ length (results b) + length (errors b) = length (_extract_channels input_data)
    /\ st_trace st1 = st_trace st ++ evs
    /\ saves evs = 0
    /\ st_trace st' = st_trace st ++ evs ++ [EvSave (st_doc st1)]
    /\ saves (evs ++ [EvSave (st_doc st1)]) = 1
    /\ st_doc st' = st_doc st1.
Proof.
  intros Hne. rewrite process_eq.
  destruct (_extract_channels input_data) as [|c cs] eqn:Hch; [contradiction |].
  destruct (process_channels w (c :: cs) empty_batch st) as [b st1] eqn:Hloop.
  intros [= <- <-]. exists b, st1.
  destruct (process_channels_trace w _ _ _ _ _ Hloop) as (evs & Htr & Hsaves & _).
  destruct (process_channels_accounts w _ _ _ _ Hloop) as (Hperm & Hsub1 & Hsub2).
  exists evs. repeat split; try assumption.
  - apply Permutation_length in Hperm.
    rewrite length_app, !length_map in Hperm. exact Hperm.
  - unfold log. simpl. now rewrite Htr, <- app_assoc.
  - rewrite saves_app, Hsaves. reflexivity.
Qed.

(* ===================================================================== *)
(** * Validation                                                          *)
(* ===================================================================== *)

(** The inputs that yield no channel: no dict or an empty one, neither key
    holding a value of the type looked for, or only blank entries. *)
Lemma extract_channels_none_or_empty :
  _extract_channels None = [] /\ _extract_channels (Some ∅) = [].
Proof. split; reflexivity. Qed.

Lemma extract_channels_wrong_type (d : gmap string pyval) :
  (forall s, d !! "channels" <> Some (PStr s)) ->
  (forall items, d !! "channel_urls" <> Some (PList items)) ->
  _extract_channels (Some d) = [].
Proof.
  intros Hstr Hlist. unfold _extract_channels.
  destruct (bool_decide (size d = 0)); [reflexivity |].
  destruct (d !! "channels") as [[s|l|]|]; try (now destruct (Hstr s));
    destruct (d !! "channel_urls") as [[s'|l'|]|];
    try reflexivity; now destruct (Hlist l').
Qed.

Lemma extract_channels_blank_string (d : gmap string pyval) (s : string) :
  d !! "channels" = Some (PStr s) ->
  Forall (fun field => Str.strip field = "") (Str.split "," s) ->
  _extract_channels (Some d) = [].
Proof.
  intros Hd Hblank. unfold _extract_channels.
  destruct (bool_decide (size d = 0)); [reflexivity |]. rewrite Hd.
  induction Hblank as [|field fields Hfield _ IH]; [reflexivity |].
  simpl. now rewrite Hfield.
Qed.

Lemma extract_channels_blank_list (d : gmap string pyval) (items : list pyitem) :
  (forall s, d !! "channels" <> Some (PStr s)) ->
  d !! "channel_urls" = Some (PList items) ->
  Forall (fun item => match item with
                      | IStr s => Str.strip s = ""
                      | IOther => True
                      end) items ->
  _extract_channels (Some d) = [].
Proof.
  intros Hstr Hd Hblank. unfold _extract_channels.
  destruct (bool_decide (size d = 0)); [reflexivity |]. rewrite Hd.
  assert (Hflat : flat_map (fun url => match url with
                                       | IStr s =>
                                           if str_truthy (Str.strip s)
                                           then [Str.strip s] else []
                                       | IOther => []
                                       end) items = []).
  { clear Hd. induction Hblank as [|[s|] items' Hitem _ IH]; simpl; try easy.
    now rewrite Hitem. }
  rewrite Hflat.
  destruct (d !! "channels") as [[s|l|]|]; try reflexivity. now destruct (Hstr s).
Qed.

(** C8. An input from which no channel reference is extracted is answered
    with the validation error at once: the state the call leaves is the
    state it found, document and log of external calls alike, so nothing
    was resolved, requested, recorded or saved. *)
Theorem empty_input_is_rejected (w : World) (input_data : option (gmap string pyval))
    (st : St) :
  _extract_channels input_data = [] ->
  process w input_data st = (Ok validation_error, st)
  /\ status validation_error = FAILED
  /\ error_type validation_error = Some "validation_error"
  /\ data validation_error = None.
Proof.
  intros Hch. rewrite process_eq, Hch. repeat split.
Qed.

(* ===================================================================== *)
(** * The response, and what a failed save does to it                     *)
(* ===================================================================== *)

(** C1, as stated, fails: one reference, resolved and fetched, so the loop
    holds one result; the write raises; the response carries no data at
    all. *)
Lemma save_failure_drops_results :
  let input_data := channels_input channel_a in
  let '(b, st1) := process_channels world_save_fails [channel_a] empty_batch fresh in
  _extract_channels input_data = [channel_a]
  /\ length (results b) = 1
  /\ storage_save world_save_fails (now st1) (st_doc st1) = Some disk_full
  /\ (process world_save_fails input_data fresh).1
     = Ok {| status := FAILED; data := None;
             error := Some "[Errno 28] No space left on device";
             error_type := Some "unexpected_error" |}.
Proof. vm_compute. repeat split; reflexivity. Qed.

(** C1, amended. When the terminal [save] raises, the response is the
    unexpected-error response: FAILED, the exception's message as error,
    and no data, so the results of the batch are not in it.  The document
    in memory is the one the loop left, and the write was attempted once. *)
Theorem save_failure_response (w : World) (input_data : option (gmap string pyval))
    (st st1 : St) (b : batch) (e : exn) :
  _extract_channels input_data <> [] ->
  process_channels w (_extract_channels input_data) empty_batch st = (b, st1) ->
  storage_save w (now st1) (st_doc st1) = Some e ->
  process w input_data st = (Ok (unexpected_error e), log (EvSave (st_doc st1)) st1)
  /\ status (unexpected_error e) = FAILED
  /\ data (unexpected_error e) = None
  /\ error (unexpected_error e) = Some (exn_msg e)
  /\ error_type (unexpected_error e) = Some "unexpected_error"
  /\ st_doc (log (EvSave (st_doc st1)) st1) = st_doc st1.
Proof.
  intros Hne Hloop Hsave. rewrite process_eq.
  destruct (_extract_channels input_data) as [|c cs]; [contradiction |].
  rewrite Hloop, Hsave. repeat split.
Qed.

(** C5, as stated, fails: two references, the first yields a result and
    the second does not resolve, so the batch is partial by the rule; the
    write raises and the outcome is FAILED. *)
Lemma partial_batch_failed_by_save :
  let input_data := channels_input "@a, not a channel" in
  let '(b, st1) :=
    process_channels world_save_fails ["@a"; "not a channel"] empty_batch fresh in
  _extract_channels input_data = ["@a"; "not a channel"]
  /\ length (results b) = 1 /\ length (errors b) = 1
  /\ option_map status
       match (process world_save_fails input_data fresh).1 with
       | Ok response => Some response
       | Raise _ => None
       end = Some FAILED.
Proof. vm_compute. repeat split; reflexivity. Qed.

Lemma nonempty_true {A} (l : list A) : l <> [] -> nonempty l = true.
Proof. now destruct l. Qed.

(** C5, amended. For a non-empty batch whose terminal [save] returns, the
    outcome is FAILED, with the errors as data, when no channel produced a
    result and some error was recorded; PARTIAL when there are both
    results and errors; SUCCESS otherwise.  With three references of which
    the first and the third produce a result and the second does not
    resolve, the response is PARTIAL and holds the two results and the one
    error entry. *)
Theorem batch_outcome (w : World) (input_data : option (gmap string pyval))
    (st st1 : St) (b : batch) :
  _extract_channels input_data <> [] ->
  process_channels w (_extract_channels input_data) empty_batch st = (b, st1) ->
  storage_save w (now st1) (st_doc st1) = None ->
  exists response,
    process w input_data st = (Ok response, log (EvSave (st_doc st1)) st1)
    /\ (results b = [] -> errors b <> [] ->
        status response = FAILED
        /\ data response = Some (DataErrors (errors b)))
    /\ (results b <> [] -> errors b <> [] ->
        status response = PARTIAL
        /\ data response
           = Some (DataBatch (results b) (new_videos b) (Some (errors b))
                     (length (_extract_channels input_data)) (length (results b))))
    /\ (errors b = [] ->
        status response = SUCCESS
        /\ data response
           = Some (DataBatch (results b) (new_videos b) None
                     (length (_extract_channels input_data)) (length (results b))))
    /\ (forall first second third vi1 new1 st_a unresolved st_b vi3 new3,
           _extract_channels input_data = [first; second; third] ->
           channel_body w first st = (Ok (Fetched vi1 new1), st_a) ->
           _resolve_channel_id w second st_a = (Ok unresolved, st_b) ->
           truthy unresolved = false ->
           channel_body w third st_b = (Ok (Fetched vi3 new3), st1) ->
           status response = PARTIAL
           /\ exists new_list,
               data response
               = Some (DataBatch
                         [ {| info := vi1; is_new := new1; channel_url := first |};
                           {| info := vi3; is_new := new3; channel_url := third |} ]
                         new_list
                         (Some [ {| channel := second;
                                    message := "Could not resolve channel ID" |} ])
                         3 2)).
Proof.
  intros Hne Hloop Hsave. exists (respond (_extract_channels input_data) b).
  rewrite process_eq.
  destruct (_extract_channels input_data) as [|c cs] eqn:Hch; [contradiction |].
  rewrite Hloop, Hsave. split; [reflexivity |]. unfold respond.
  split; [|split; [|split]].
  - intros -> Herr. simpl. now rewrite (nonempty_true _ Herr).
  - intros Hres Herr. rewrite (nonempty_true _ Hres), (nonempty_true _ Herr).
    simpl. repeat split.
  - intros ->. simpl. rewrite !andb_false_r. simpl. repeat split.
  - intros first second third vi1 new1 st_a unresolved st_b vi3 new3
      [= -> ->] H1 H2 Hfalsy H3.
    assert (H2' : channel_body w second st_a
                  = (Ok (Skipped "Could not resolve channel ID"), st_b)).
    { rewrite channel_body_eq, H2.
      destruct unresolved as [id|]; [|reflexivity].
      simpl in Hfalsy. now rewrite Hfalsy. }
    simpl in Hloop. unfold process_channel in Hloop.
    rewrite H1, H2', H3 in Hloop. injection Hloop as <-. simpl.
    split; [reflexivity |]. eexists. reflexivity.
Qed.

(* ===================================================================== *)
(** * The same reference twice in one batch                               *)
(* ===================================================================== *)

Section Duplicates.

Variable w : World.

(** After a turn that produced a result, [last_seen] holds the result's
    video for the result's channel, new or not. *)
Lemma fetched_is_last_seen channel_url st vi new st' :
  channel_body w channel_url st = (Ok (Fetched vi new), st') ->
  StateManager.get_last_seen (channel_id vi) (st_doc st') = Ok (Some (video_id vi)).
Proof.
  intros Hbody. pose proof Hbody as Hslot.
  apply channel_body_fetched in Hbody
      as (st1 & s & Hresolve & Hne & Hlatest & Hget & -> & Htr & Hdoc).
  destruct (differs s (video_id vi)) eqn:Hnew.
  - rewrite Hdoc. apply StateManagerFacts.get_in_put_in_eq.
  - apply differs_false in Hnew as ->. rewrite <- Hget.
    apply get_in_same_slot.
    apply (channel_body_last_seen_slot w channel_url st _ st' Hslot).
    intros vi' Heq. inversion Heq.
Qed.

(** A turn keeps [last_seen] for a channel unless it produces a result
    for that channel with another video. *)
Lemma process_channel_keeps_last_seen cid v channel_url b st b' st' :
  StateManager.get_last_seen cid (st_doc st) = Ok (Some v) ->
  process_channel w channel_url b st = (b', st') ->
  (forall r, results b' = results b ++ [r] ->
             channel_id (info r) = cid -> video_id (info r) = v) ->
  StateManager.get_last_seen cid (st_doc st') = Ok (Some v).
Proof.
  intros Hget Hstep Hsame.
  apply process_channel_outcome in Hstep
      as [(vi & new & Hbody & Hr & _) | (t & msg & Hbody & Hnot & _)].
  - specialize (Hsame _ Hr). simpl in Hsame.
    destruct (decide (channel_id vi = cid)) as [Hcid | Hcid].
    + rewrite <- (Hsame Hcid), <- Hcid. now apply (fetched_is_last_seen channel_url st vi new).
    + pose proof Hbody as Hslot.
      apply channel_body_fetched in Hbody
          as (st1 & s & Hresolve & Hne & Hlatest & Hget' & -> & Htr & Hdoc).
      assert (Hget1 : StateManager.get_last_seen cid (st_doc st1) = Ok (Some v)).
      { rewrite <- Hget. apply get_in_same_slot.
        eapply (resolve_keeps_other_slots w channel_url st); [easy | eassumption]. }
      rewrite Hdoc. destruct (differs s (video_id vi)); [|exact Hget1].
      unfold StateManager.get_last_seen in *.
      apply StateManagerFacts.get_in_put_in_ne; [congruence | exact Hget1].
  - rewrite <- Hget. apply get_in_same_slot.
    apply (channel_body_last_seen_slot w channel_url st t st' Hbody).
    intros vi. apply Hnot.
Qed.

Lemma process_channels_results channels b st b' st' :
  process_channels w channels b st = (b', st') ->
  exists rs, results b' = results b ++ rs.
Proof.
  rewrite process_channels_app_batch. intros [= <- <-]. simpl. eauto.
Qed.

(** So does a stretch of the loop, unless one of its results is for that
    channel with another video. *)
Lemma process_channels_keeps_last_seen cid v channels b st b' st' rs :
  StateManager.get_last_seen cid (st_doc st) = Ok (Some v) ->
  process_channels w channels b st = (b', st') ->
  results b' = results b ++ rs ->
  Forall (fun r => channel_id (info r) = cid -> video_id (info r) = v) rs ->
  StateManager.get_last_seen cid (st_doc st') = Ok (Some v).
Proof.
  revert b st rs. induction channels as [|c cs IH]; intros b st rs Hget; simpl.
  - now intros [= <- <-].
  - destruct (process_channel w c b st) as [b1 st1] eqn:Hstep.
    intros Hloop Hres Hall.
    destruct (process_channels_results _ _ _ _ _ Hloop) as [rs2 Hrs2].
    assert (Hrs1 : exists rs1, results b1 = results b ++ rs1).
    { rewrite process_channel_app in Hstep. injection Hstep as <- <-. simpl. eauto. }
    destruct Hrs1 as [rs1 Hrs1].
    assert (Hsplit : rs = rs1 ++ rs2).
    { rewrite Hrs2, Hrs1, <- app_assoc in Hres. now apply app_inv_head in Hres. }
    subst rs. apply Forall_app in Hall as [Hall1 Hall2].
    apply (IH b1 st1 rs2); try assumption.
    apply (process_channel_keeps_last_seen cid v c b st b1 st1 Hget Hstep).
    intros r Hr Hcid. rewrite Hrs1 in Hr. apply app_inv_head in Hr. subst rs1.
    apply Forall_cons in Hall1 as [Hr _]. now apply Hr.
Qed.

End Duplicates.

(** C10, as stated, fails.  The batch holds ["@a"] twice with another
    reference to the same channel in between; the head of the playlist is
    [video1] for both occurrences of ["@a"] and [video2] for the reference
    in between.  All three turns produce a result for [channel_a]; the
    second occurrence of ["@a"] fetches the same video as the first and is
    classified new. *)
Lemma duplicate_reference_new_again :
  map (fun r => (channel_url r, channel_id (info r), video_id (info r), is_new r))
      (results (process_channels world_flapping ["@a"; channel_a; "@a"]
                  empty_batch fresh).1)
  = [ ("@a", channel_a, "video1", true);
      (channel_a, channel_a, "video2", true);
      ("@a", channel_a, "video1", true) ].
Proof. vm_compute. reflexivity. Qed.

(** C10, amended.  A batch holds [ref] twice; both occurrences produce a
    result, [r1] then [r2], with the same video; and every result produced
    between them for the channel of [r1] carries that video too (as when
    the two occurrences are adjacent, or nothing between them refers to
    that channel).  Then both results are in the final [results], in input
    order; they are for the same channel; the second is classified
    unchanged; and its turn leaves the "last_seen" map as it found it. *)
Theorem duplicate_reference_unchanged (w : World) (ref : string)
    (pre mid post : list string) (st st0 st1 st2 st3 st_end : St)
    (b0 b1 b2 b3 b_end : batch) (r1 r2 : result_entry)
    (between : list result_entry) :
  process_channels w pre empty_batch st = (b0, st0) ->
  process_channel w ref b0 st0 = (b1, st1) ->
  process_channels w mid b1 st1 = (b2, st2) ->
  process_channel w ref b2 st2 = (b3, st3) ->
  process_channels w post b3 st3 = (b_end, st_end) ->
  results b1 = results b0 ++ [r1] ->
  results b2 = results b1 ++ between ->
  results b3 = results b2 ++ [r2] ->
  video_id (info r2) = video_id (info r1) ->
  Forall (fun r => channel_id (info r) = channel_id (info r1) ->
                   video_id (info r) = video_id (info r1)) between ->
  process_channels w (pre ++ ref :: mid ++ ref :: post) empty_batch st = (b_end, st_end)
  /\ (exists after, results b_end = results b0 ++ r1 :: between ++ r2 :: after)
  /\ channel_url r1 = ref /\ channel_url r2 = ref
  /\ channel_id (info r2) = channel_id (info r1)
  /\ is_new r2 = false
  /\ st_doc st3 !! "last_seen" = st_doc st2 !! "last_seen".
Proof.
  intros Hpre Hfirst Hmid Hsecond Hpost Hr1 Hbetween Hr2 Hvideo Hall.
  split.
  { rewrite process_channels_app, Hpre. simpl. rewrite Hfirst.
    rewrite process_channels_app, Hmid. simpl. now rewrite Hsecond. }
  split.
  { destruct (process_channels_results w _ _ _ _ _ Hpost) as [after Hafter].
    exists after. rewrite Hafter, Hr2, Hbetween, Hr1.
    rewrite <- !app_assoc. reflexivity. }
  pose proof Hfirst as Hfirst'. pose proof Hsecond as Hsecond'.
  apply process_channel_outcome in Hfirst'
      as [(vi1 & new1 & Hbody1 & Hres1 & _) | (t & msg & _ & _ & Hres1 & _)].
  2:{ rewrite Hres1 in Hr1. now destruct (results_not_grown _ _ Hr1). }
  rewrite Hres1 in Hr1. apply app_inv_head in Hr1. injection Hr1 as <-.
  apply process_channel_outcome in Hsecond'
      as [(vi2 & new2 & Hbody2 & Hres2 & _) | (t & msg & _ & _ & Hres2 & _)].
  2:{ rewrite Hres2 in Hr2. now destruct (results_not_grown _ _ Hr2). }
  rewrite Hres2 in Hr2. apply app_inv_head in Hr2. injection Hr2 as <-.
  simpl in *.
  split; [reflexivity |]. split; [reflexivity |].
  (* the first result's channel is cached, and stays so up to [st2] *)
  pose proof (fetched_is_last_seen w ref st0 vi1 new1 st1 Hbody1) as Hseen1.
  pose proof Hbody1 as Hb1.
  apply channel_body_fetched in Hb1
      as (sa & s1 & Hresolve1 & Hne1 & _ & _ & _ & _ & Hdoc1).
  assert (Hcached1 : StateManager.get_resolved ref (st_doc st1) = Ok (Some (channel_id vi1))).
  { pose proof (resolve_caches w ref st0 _ sa Hresolve1 Hne1) as Hc.
    rewrite Hdoc1. destruct new1; [|exact Hc].
    unfold StateManager.get_resolved in *.
    now rewrite StateManagerFacts.get_in_put_in_other. }
  pose proof (process_channels_keeps_cached w ref _ mid b1 st1 b2 st2 Hcached1 Hne1 Hmid)
    as Hcached2.
  pose proof Hbody2 as Hb2.
  apply channel_body_fetched in Hb2
      as (sb & s2 & Hresolve2 & Hne2 & _ & Hget2 & Hnew2 & _ & _).
  assert (Hsame : channel_id vi2 = channel_id vi1).
  { rewrite resolve_channel_id_eq, Hcached2 in Hresolve2.
    destruct (channel_id vi1); [contradiction |]. simpl in Hresolve2. congruence. }
  split; [exact Hsame |].
  (* so [last_seen] still holds the first result's video at [st2] *)
  pose proof (process_channels_keeps_last_seen w _ _ mid b1 st1 b2 st2 between
                Hseen1 Hmid Hbetween Hall) as Hseen2.
  rewrite Hsame, Hseen2 in Hget2. injection Hget2 as <-.
  assert (Hold : new2 = false).
  { rewrite Hnew2. apply differs_false. now rewrite Hvideo. }
  split; [exact Hold |].
  apply (channel_body_last_seen_slot w ref st2 _ st3 Hbody2).
  intros vi Heq. inversion Heq. congruence.
Qed.

(* ===================================================================== *)
(** * Loading fails open                                                  *)
(* ===================================================================== *)

Lemma storage_load_never_raises (json_loads : string -> res Doc) (s : storage) :
  exists d, storage_load json_loads s = Ok d.
Proof.
  destruct s as [fs | b]; simpl.
  - unfold LocalFileStorage.load.
    destruct (LocalFileStorage.path_exists fs) as [[]|e]; simpl; eauto.
    destruct (LocalFileStorage.read_text fs) as [text|e]; simpl; eauto.
    destruct (json_loads text) as [d|e]; simpl; eauto.
  - unfold BlobStorage.load.
    destruct b as [ |e|[text|]|text]; simpl; eauto;
      try (destruct (exn_cls e); now eauto);
      destruct (json_loads text) as [d|e]; eauto;
      destruct (exn_cls e); eauto.
Qed.

(** C7. Whatever state the backend is in, [load] returns a document and
    does not raise.  When nothing is stored, when what is stored cannot be
    read, and when it is not JSON, for the file backend and for the blob
    backend alike, the document returned is the same one: the "resolved"
    and "last_seen" maps, both present and both empty. *)
Theorem load_fails_open (json_loads : string -> res Doc) (s : storage) :
  unavailable json_loads s ->
  storage_load json_loads s = Ok empty_doc
  /\ empty_doc !! "resolved" = Some (SDict ∅)
  /\ empty_doc !! "last_seen" = Some (SDict ∅)
  /\ (forall key, key <> "resolved" -> key <> "last_seen" -> empty_doc !! key = None)
  /\ (forall s', exists d, storage_load json_loads s' = Ok d).
Proof.
  intros Hs. split.
  - destruct Hs as [fs H | fs e H | fs e H1 H2 | fs text e H1 H2 H3
                   | | e | | text e H | text e H]; simpl;
      unfold LocalFileStorage.load, BlobStorage.load; simpl;
      rewrite ?H, ?H1, ?H2; simpl; rewrite ?H3; simpl; try reflexivity.
    all: now destruct (exn_cls e).
  - split; [reflexivity |]. split; [reflexivity |].
    split; [|apply storage_load_never_raises].
    intros key H1 H2. unfold empty_doc.
    rewrite !lookup_insert_ne by congruence. apply lookup_empty.
Qed.

(* ===================================================================== *)
(** * The cache holds channel IDs only; examples                          *)
(* ===================================================================== *)

Lemma empty_doc_cache_holds_ids : cache_holds_ids empty_doc.
Proof.
  intros ref. unfold StateManager.get_resolved, StateManager.get_in, empty_doc.
  rewrite lookup_insert_eq. simpl. rewrite lookup_empty. discriminate.
Qed.

Lemma get_in_total_of_one key k k' (d : Doc) o :
  StateManager.get_in key k d = Ok o -> exists o', StateManager.get_in key k' d = Ok o'.
Proof.
  unfold StateManager.get_in.
  destruct (default (SDict ∅) (d !! key)); [eauto | discriminate].
Qed.

Lemma put_keeps_cache_ids ref id (d : Doc) o :
  cache_holds_ids d -> id <> "" ->
  StateManager.get_resolved ref d = Ok o ->
  cache_holds_ids (put_in "resolved" ref id d).
Proof.
  intros Hd Hne Hget ref'. unfold StateManager.get_resolved in *.
  destruct (decide (ref' = ref)) as [-> | Hneq].
  - rewrite StateManagerFacts.get_in_put_in_eq. congruence.
  - destruct (get_in_total_of_one _ _ ref' _ _ Hget) as [o' Ho'].
    rewrite (StateManagerFacts.get_in_put_in_ne _ _ _ _ _ _ Hneq Ho').
    rewrite <- Ho'. apply Hd.
Qed.

(** A resolution never puts the empty string in the cache. *)
Lemma resolve_keeps_cache_ids (w : World) ref st r st' :
  cache_holds_ids (st_doc st) ->
  _resolve_channel_id w ref st = (r, st') ->
  cache_holds_ids (st_doc st').
Proof.
  intros Hd. rewrite resolve_channel_id_eq.
  destruct (StateManager.get_resolved ref (st_doc st)) as [cached|e] eqn:Hget;
    [|now intros [= <- <-]].
  destruct (truthy cached); [now intros [= <- <-] |].
  destruct (_extract_channel_id_from_url ref) as [cid|] eqn:Hcid.
  - intros [= <- <-]. simpl. apply (put_keeps_cache_ids _ _ _ cached Hd); [|exact Hget].
    apply extracted_channel_id_truthy in Hcid. now destruct cid.
  - destruct (_extract_channel_name_from_url ref) as [name|];
      [|now intros [= <- <-]].
    simpl. intros [= <- <-]. simpl.
    destruct (top_match _) as [[|c id]|]; simpl; try exact Hd.
    now apply (put_keeps_cache_ids _ _ _ cached Hd).
Qed.

(** Nor does a batch. *)
Lemma process_channels_keeps_cache_ids (w : World) channels b st b' st' :
  cache_holds_ids (st_doc st) ->
  process_channels w channels b st = (b', st') ->
  cache_holds_ids (st_doc st').
Proof.
  revert b st. induction channels as [|c cs IH]; intros b st Hd; simpl.
  - now intros [= <- <-].
  - destruct (process_channel w c b st) as [b1 st1] eqn:Hstep.
    apply IH. clear IH.
    assert (Hbody : exists t, channel_body w c st = (t, st1)).
    { apply process_channel_outcome in Hstep
          as [(vi & new & Hb & _) | (t & msg & Hb & _)]; eauto. }
    destruct Hbody as [t Hbody]. rewrite channel_body_eq in Hbody.
    destruct (_resolve_channel_id w c st) as [r sa] eqn:Hres.
    pose proof (resolve_keeps_cache_ids w c st r sa Hd Hres) as Hsa.
    destruct r as [[id|]|e]; try (now injection Hbody as <- <-).
    destruct (str_truthy id); [|now injection Hbody as <- <-].
    destruct (latest_of w id sa) as [vi|]; [|now injection Hbody as <- <-].
    destruct (StateManager.get_last_seen id (st_doc sa)) as [last_seen|e];
      [|now injection Hbody as <- <-].
    destruct (differs last_seen (video_id vi)); injection Hbody as <- <-; [|easy].
    intros ref. simpl. unfold StateManager.get_resolved.
    rewrite StateManagerFacts.get_in_put_in_other by discriminate. apply Hsa.
Qed.

(** An exception inside a turn: with a "last_seen" slot that is not a
    dict, every turn raises after its fetch; each is recorded as that
    channel's error, the loop goes on, and the save follows. *)
Example per_channel_exception_is_recorded :
  let run := process world_steady (channels_input "@a, UCabcdefghijklmnopqrstuv")
               st_null_last_seen in
  run.1 = Ok {| status := FAILED;
                data := Some (DataErrors
                  [ {| channel := "@a";
                       message := "'NoneType' object has no attribute 'get'" |};
                    {| channel := channel_a;
                       message := "'NoneType' object has no attribute 'get'" |} ]);
                error := Some "Failed to process any channels";
                error_type := Some "processing_error" |}
  /\ map is_save (st_trace run.2) = [false; false; false; false; false; true].
Proof. vm_compute. split; reflexivity. Qed.

(** Two batches in a row over the same channel with the same latest
    video: new the first time, unchanged the second. *)
Example second_batch_is_not_new :
  let first := process_channels world_steady ["@a"] empty_batch fresh in
  let second := process_channels world_steady ["@a"] empty_batch first.2 in
  map is_new (results first.1) = [true]
  /\ map is_new (results second.1) = [false]
  /\ StateManager.get_last_seen channel_a (st_doc first.2) = Ok (Some "video1")
  /\ StateManager.get_last_seen channel_a (st_doc second.2) = Ok (Some "video1").
Proof. vm_compute. repeat split; reflexivity. Qed.

Example search_channel_id_demo :
  _extract_channel_id_from_url
    "https://www.youtube.com/channel/UCabcdefghijklmnopqrstuv/videos"
  = Some channel_a.
Proof. reflexivity. Qed.

Example search_handle_demo :
  _extract_channel_name_from_url "https://www.youtube.com/@some-handle/videos"
  = Some "some-handle"
  /\ _extract_channel_name_from_url "https://www.youtube.com/user/abc_1?x=1" = Some "abc_1"
  /\ _extract_channel_name_from_url "youtube.com/c/Name" = Some "Name"
  /\ _extract_channel_name_from_url "youtube.com/channel/Name" = None.
Proof. repeat split; reflexivity. Qed.

Example extract_channels_demo :
  _extract_channels (channels_input " a ,, b c ,") = ["a"; "b c"]
  /\ _extract_channels (Some {["channel_urls" := PList [IStr " x "; IOther; IStr ""]]})
     = ["x"]
  /\ _extract_channels (Some {["channels" := PStr ""; "channel_urls" := PList [IStr "x"]]})
     = [].
Proof. vm_compute. repeat split; reflexivity. Qed.

(* ===================================================================== *)
(** * The theorems at concrete inputs                                     *)
(* ===================================================================== *)

Lemma resolution_is_ordered_witness :
  (StateManager.get_resolved "@a" (st_doc st_cached) = Ok (Some channel_a)
   /\ channel_a <> ""
   /\ _resolve_channel_id world_steady "@a" st_cached = (Ok (Some channel_a), st_cached))
  /\ (StateManager.get_resolved channel_a (st_doc fresh) = Ok None
      /\ contains_channel_id channel_a channel_a
      /\ exists cid st',
          _resolve_channel_id world_steady channel_a fresh = (Ok (Some cid), st')
          /\ _extract_channel_id_from_url channel_a = Some cid
          /\ contains_channel_id channel_a cid
          /\ st_trace st' = st_trace fresh)
  /\ (StateManager.get_resolved "@a" (st_doc fresh) = Ok None
      /\ (forall cid, ~ contains_channel_id "@a" cid)
      /\ handle_segment "@a" "a"
      /\ exists st',
          _resolve_channel_id world_steady "@a" fresh
          = (Ok (top_match (search_list world_steady (now fresh) "a")), st')
          /\ st_trace st' = st_trace fresh ++ [EvSearch "a"]).
Proof.
  assert (Hhit : StateManager.get_resolved "@a" (st_doc st_cached) = Ok (Some channel_a))
    by (vm_compute; reflexivity).
  assert (Hne : channel_a <> "") by discriminate.
  assert (Hmiss_a : StateManager.get_resolved channel_a (st_doc fresh) = Ok None)
    by (vm_compute; reflexivity).
  assert (Hin : contains_channel_id channel_a channel_a).
  { apply extract_channel_id_Some. vm_compute. reflexivity. }
  assert (Hmiss : StateManager.get_resolved "@a" (st_doc fresh) = Ok None)
    by (vm_compute; reflexivity).
  assert (Hno : forall cid, ~ contains_channel_id "@a" cid).
  { apply extract_channel_id_None. vm_compute. reflexivity. }
  split; [|split].
  - split; [exact Hhit |]. split; [exact Hne |].
    exact (proj1 (resolution_is_ordered world_steady "@a" st_cached) _ Hhit Hne).
  - split; [exact Hmiss_a |]. split; [exact Hin |].
    exact (proj1 (proj2 (resolution_is_ordered world_steady channel_a fresh))
             None Hmiss_a eq_refl _ Hin).
  - split; [exact Hmiss |]. split; [exact Hno |].
    exact (proj2 (proj2 (resolution_is_ordered world_steady "@a" fresh))
             None Hmiss eq_refl Hno).
Defined.

Lemma resolution_is_memoized_witness :
  let st1 := (_resolve_channel_id world_steady "@a" fresh).2 in
  _resolve_channel_id world_steady "@a" fresh = (Ok (Some channel_a), st1)
  /\ channel_a <> ""
  /\ StateManager.get_resolved "@a" (st_doc st1) = Ok (Some channel_a)
  /\ _resolve_channel_id world_steady "@a" st1 = (Ok (Some channel_a), st1)
  /\ (exists evs, st_trace st1 = st_trace fresh ++ evs /\ lookups evs <= 1)
  /\ (forall channels b b2 st2,
         process_channels world_steady channels b st1 = (b2, st2) ->
         _resolve_channel_id world_steady "@a" st2 = (Ok (Some channel_a), st2)).
Proof.
  intros st1.
  assert (Hres : _resolve_channel_id world_steady "@a" fresh = (Ok (Some channel_a), st1))
    by (vm_compute; reflexivity).
  assert (Hne : channel_a <> "") by discriminate.
  split; [exact Hres |]. split; [exact Hne |].
  exact (resolution_is_memoized world_steady "@a" channel_a fresh st1 Hres Hne).
Defined.

Lemma freshness_classification_witness :
  let b' := (process_channel world_steady "@a" empty_batch fresh).1 in
  let st' := (process_channel world_steady "@a" empty_batch fresh).2 in
  process_channel world_steady "@a" empty_batch fresh = (b', st')
  /\ results b' = results empty_batch ++ [first_result]
  /\ exists s,
      StateManager.get_last_seen channel_a (st_doc fresh) = Ok s
      /\ (true = true <-> (s = None \/ exists v0, s = Some v0 /\ v0 <> "video1"))
      /\ (true = true ->
          StateManager.get_last_seen channel_a (st_doc st') = Ok (Some "video1"))
      /\ (true = false -> st_doc st' !! "last_seen" = st_doc fresh !! "last_seen")
      /\ (forall rest,
             process_channels world_steady ("@a" :: rest) empty_batch fresh
             = process_channels world_steady rest b' st').
Proof.
  intros b' st'.
  assert (Hstep : process_channel world_steady "@a" empty_batch fresh = (b', st'))
    by (vm_compute; reflexivity).
  assert (Hres : results b' = results empty_batch ++ [first_result])
    by (vm_compute; reflexivity).
  split; [exact Hstep |]. split; [exact Hres |].
  exact (freshness_classification world_steady "@a" empty_batch b' fresh st'
           first_result Hstep Hres).
Defined.

Lemma save_once_after_all_witness :
  let input_data := channels_input "@a, not a channel" in
  let response := (process world_steady input_data fresh).1 in
  let st' := (process world_steady input_data fresh).2 in
  _extract_channels input_data <> []
  /\ process world_steady input_data fresh = (response, st')
  /\ exists b st1 evs,
      process_channels world_steady (_extract_channels input_data) empty_batch fresh
      = (b, st1)
      /\ map channel_url (results b) ++ map channel (errors b)
         ≡ₚ _extract_channels input_data
      /\ sublist (map channel_url (results b)) (_extract_channels input_data)
      /\ sublist (map channel (errors b)) (_extract_channels input_data)
      /\ length (results b) + length (errors b)
         = length (_extract_channels input_data)
      /\ st_trace st1 = st_trace fresh ++ evs
      /\ saves evs = 0
      /\ st_trace st' = st_trace fresh ++ evs ++ [EvSave (st_doc st1)]
      /\ saves (evs ++ [EvSave (st_doc st1)]) = 1
      /\ st_doc st' = st_doc st1.
Proof.
  intros input_data response st'.
  assert (Hne : _extract_channels input_data <> []) by (vm_compute; discriminate).
  assert (Hrun : process world_steady input_data fresh = (response, st'))
    by (vm_compute; reflexivity).
  split; [exact Hne |]. split; [exact Hrun |].
  exact (save_once_after_all world_steady input_data fresh st' response Hne Hrun).
Defined.

Lemma empty_input_is_rejected_witness :
  _extract_channels (channels_input " , ") = []
  /\ process world_steady (channels_input " , ") st_cached = (Ok validation_error, st_cached)
  /\ status validation_error = FAILED
  /\ error_type validation_error = Some "validation_error"
  /\ data validation_error = None.
Proof.
  assert (Hempty : _extract_channels (channels_input " , ") = [])
    by (vm_compute; reflexivity).
  split; [exact Hempty |].
  exact (empty_input_is_rejected world_steady (channels_input " , ") st_cached Hempty).
Defined.

Lemma save_failure_response_witness :
  let input_data := channels_input channel_a in
  let b := (process_channels world_save_fails [channel_a] empty_batch fresh).1 in
  let st1 := (process_channels world_save_fails [channel_a] empty_batch fresh).2 in
  _extract_channels input_data <> []
  /\ process_channels world_save_fails (_extract_channels input_data) empty_batch fresh
     = (b, st1)
  /\ storage_save world_save_fails (now st1) (st_doc st1) = Some disk_full
  /\ process world_save_fails input_data fresh
     = (Ok (unexpected_error disk_full), log (EvSave (st_doc st1)) st1)
  /\ status (unexpected_error disk_full) = FAILED
  /\ data (unexpected_error disk_full) = None
  /\ error (unexpected_error disk_full) = Some (exn_msg disk_full)
  /\ error_type (unexpected_error disk_full) = Some "unexpected_error"
  /\ st_doc (log (EvSave (st_doc st1)) st1) = st_doc st1.
Proof.
  intros input_data b st1.
  assert (Hne : _extract_channels input_data <> []) by (vm_compute; discriminate).
  assert (Hloop : process_channels world_save_fails (_extract_channels input_data)
                    empty_batch fresh = (b, st1)) by (vm_compute; reflexivity).
  assert (Hsave : storage_save world_save_fails (now st1) (st_doc st1) = Some disk_full)
    by reflexivity.
  split; [exact Hne |]. split; [exact Hloop |]. split; [exact Hsave |].
  exact (save_failure_response world_save_fails input_data fresh st1 b disk_full
           Hne Hloop Hsave).
Defined.

Lemma batch_outcome_witness :
  let input_data := channels_input "@a, not a channel, UCabcdefghijklmnopqrstuv" in
  let refs := ["@a"; "not a channel"; channel_a] in
  let b := (process_channels world_steady refs empty_batch fresh).1 in
  let st1 := (process_channels world_steady refs empty_batch fresh).2 in
  _extract_channels input_data <> []
  /\ process_channels world_steady (_extract_channels input_data) empty_batch fresh
     = (b, st1)
  /\ storage_save world_steady (now st1) (st_doc st1) = None
  /\ exists response,
      process world_steady input_data fresh
      = (Ok response, log (EvSave (st_doc st1)) st1)
      /\ status response = PARTIAL
      /\ exists new_list,
          data response
          = Some (DataBatch
                    [ first_result;
                      {| info := make_video_info channel_a (demo_snippet "video1");
                         is_new := false;
                         channel_url := channel_a |} ]
                    new_list
                    (Some [ {| channel := "not a channel";
                               message := "Could not resolve channel ID" |} ])
                    3 2).
Proof.
  intros input_data refs b st1.
  assert (Hne : _extract_channels input_data <> []) by (vm_compute; discriminate).
  assert (Hloop : process_channels world_steady (_extract_channels input_data)
                    empty_batch fresh = (b, st1)) by (vm_compute; reflexivity).
  assert (Hsave : storage_save world_steady (now st1) (st_doc st1) = None)
    by reflexivity.
  split; [exact Hne |]. split; [exact Hloop |]. split; [exact Hsave |].
  destruct (batch_outcome world_steady input_data fresh st1 b Hne Hloop Hsave)
    as (response & Hrun & _ & _ & _ & Hthree).
  exists response. split; [exact Hrun |].
  apply (Hthree "@a" "not a channel" channel_a
           (make_video_info channel_a (demo_snippet "video1")) true
           (channel_body world_steady "@a" fresh).2
           None
           (_resolve_channel_id world_steady "not a channel"
              (channel_body world_steady "@a" fresh).2).2
           (make_video_info channel_a (demo_snippet "video1")) false);
    vm_compute; reflexivity.
Defined.

Lemma duplicate_reference_unchanged_witness :
  let w := world_steady in
  let st1 := (process_channel w "@a" empty_batch fresh).2 in
  let b1 := (process_channel w "@a" empty_batch fresh).1 in
  let st2 := (process_channels w [channel_a] b1 st1).2 in
  let b2 := (process_channels w [channel_a] b1 st1).1 in
  let st3 := (process_channel w "@a" b2 st2).2 in
  let b3 := (process_channel w "@a" b2 st2).1 in
  (process_channels w [] empty_batch fresh = (empty_batch, fresh)
   /\ process_channel w "@a" empty_batch fresh = (b1, st1)
   /\ process_channels w [channel_a] b1 st1 = (b2, st2)
   /\ process_channel w "@a" b2 st2 = (b3, st3)
   /\ process_channels w [] b3 st3 = (b3, st3)
   /\ results b1 = results empty_batch ++ [first_result]
   /\ results b2 = results b1 ++ [second_result]
   /\ results b3 = results b2 ++ [repeat_result]
   /\ video_id (info repeat_result) = video_id (info first_result)
   /\ Forall (fun r => channel_id (info r) = channel_id (info first_result) ->
                       video_id (info r) = video_id (info first_result))
        [second_result])
  /\ process_channels w ([] ++ "@a" :: [channel_a] ++ "@a" :: []) empty_batch fresh
     = (b3, st3)
  /\ (exists after,
         results b3
         = results empty_batch ++ first_result :: [second_result] ++ repeat_result :: after)
  /\ channel_url first_result = "@a" /\ channel_url repeat_result = "@a"
  /\ channel_id (info repeat_result) = channel_id (info first_result)
  /\ is_new repeat_result = false
  /\ st_doc st3 !! "last_seen" = st_doc st2 !! "last_seen".
Proof.
  intros w st1 b1 st2 b2 st3 b3.
  assert (H0 : process_channels w [] empty_batch fresh = (empty_batch, fresh))
    by reflexivity.
  assert (H1 : process_channel w "@a" empty_batch fresh = (b1, st1))
    by (vm_compute; reflexivity).
  assert (H2 : process_channels w [channel_a] b1 st1 = (b2, st2))
    by (vm_compute; reflexivity).
  assert (H3 : process_channel w "@a" b2 st2 = (b3, st3))
    by (vm_compute; reflexivity).
  assert (H4 : process_channels w [] b3 st3 = (b3, st3)) by reflexivity.
  assert (H5 : results b1 = results empty_batch ++ [first_result])
    by (vm_compute; reflexivity).
  assert (H6 : results b2 = results b1 ++ [second_result])
    by (vm_compute; reflexivity).
  assert (H7 : results b3 = results b2 ++ [repeat_result])
    by (vm_compute; reflexivity).
  assert (H8 : video_id (info repeat_result) = video_id (info first_result))
    by reflexivity.
  assert (H9 : Forall (fun r => channel_id (info r) = channel_id (info first_result) ->
                               video_id (info r) = video_id (info first_result))
                 [second_result]).
  { constructor; [intros _; reflexivity | constructor]. }
  split; [repeat split; assumption |].
  exact (duplicate_reference_unchanged w "@a" [] [channel_a] []
           fresh fresh st1 st2 st3 st3 empty_batch b1 b2 b3 b3
           first_result repeat_result [second_result]
           H0 H1 H2 H3 H4 H5 H6 H7 H8 H9).
Defined.

Lemma load_fails_open_witness :
  (unavailable rejects_all no_file
   /\ storage_load rejects_all no_file = Ok empty_doc)
  /\ (unavailable rejects_all truncated_file
      /\ storage_load rejects_all truncated_file = Ok empty_doc)
  /\ (unavailable rejects_all (Blob (BlobStorage.BlobBytes None))
      /\ storage_load rejects_all (Blob (BlobStorage.BlobBytes None)) = Ok empty_doc).
Proof.
  assert (H1 : unavailable rejects_all no_file)
    by (apply file_missing; reflexivity).
  assert (H2 : unavailable rejects_all truncated_file).
  { eapply file_unparseable; reflexivity. }
  assert (H3 : unavailable rejects_all (Blob (BlobStorage.BlobBytes None)))
    by apply blob_undecodable.
  split; [|split].
  - split; [exact H1 | exact (proj1 (load_fails_open rejects_all no_file H1))].
  - split; [exact H2 | exact (proj1 (load_fails_open rejects_all truncated_file H2))].
  - split; [exact H3 | exact (proj1 (load_fails_open rejects_all _ H3))].
Defined.

Lemma state_manager_accessors_total_witness :
  doc_list_cached !! "resolved" = Some (SDict {["@a" := PList [IStr channel_a]]})
  /\ doc_list_cached !! "last_seen" = None
  /\ dict_shaped doc_list_cached
  /\ StateManager.get_resolved "@a" doc_list_cached = Ok (Some (PList [IStr channel_a]))
  /\ StateManager.get_resolved "@b" doc_list_cached = Ok None
  /\ StateManager.get_last_seen channel_a doc_list_cached = Ok None
  /\ (exists d', StateManager.set_last_seen channel_a (PStr "video1") doc_list_cached = Ok d'
                 /\ dict_shaped d'
                 /\ StateManager.get_last_seen channel_a d' = Ok (Some (PStr "video1"))
                 /\ d' !! "resolved" = doc_list_cached !! "resolved")
  /\ doc_null_last_seen !! "last_seen" = Some (SOther "NoneType")
  /\ (exists e, StateManager.get_last_seen channel_a doc_null_last_seen = Raise e)
  /\ (exists e, StateManager.set_last_seen channel_a "video1" doc_null_last_seen = Raise e).
Proof.
  assert (H1 : doc_list_cached !! "resolved"
               = Some (SDict {["@a" := PList [IStr channel_a]]}))
    by apply lookup_singleton_eq.
  assert (H2 : doc_list_cached !! "last_seen" = None)
    by (apply lookup_singleton_ne; discriminate).
  assert (H3 : dict_shaped doc_list_cached).
  { intros key ty. unfold doc_list_cached.
    destruct (decide ("resolved" = key)) as [<- | Hne].
    - rewrite lookup_singleton_eq. discriminate.
    - rewrite lookup_singleton_ne by exact Hne. discriminate. }
  assert (H4 : ({["@a" := PList [IStr channel_a]]} : gmap string pyval) !! "@b" = None)
    by (apply lookup_singleton_ne; discriminate).
  assert (H5 : doc_null_last_seen !! "last_seen" = Some (SOther "NoneType")).
  { unfold doc_null_last_seen. rewrite lookup_insert_ne by discriminate.
    apply lookup_insert_eq. }
  split; [exact H1 |]. split; [exact H2 |]. split; [exact H3 |].
  destruct (state_manager_accessors_total pyval doc_list_cached "@a" POther)
    as (_ & _ & _ & _ & _ & _ & _ & Hdict & _).
  destruct (state_manager_accessors_total pyval doc_list_cached "@b" POther)
    as (_ & Hlacks & _).
  destruct (state_manager_accessors_total pyval doc_list_cached channel_a (PStr "video1"))
    as (_ & _ & Hmissing & _ & _ & _ & Htotal & _).
  destruct (state_manager_accessors_total string doc_null_last_seen channel_a "video1")
    as (_ & _ & _ & _ & _ & _ & _ & _ & _ & _ & Hother).
  split.
  { rewrite (proj1 (Hdict _ H1)). now rewrite lookup_singleton_eq. }
  split; [exact (Hlacks _ H1 H4) |].
  split; [exact (Hmissing H2) |].
  split; [exact (proj2 (proj2 (proj2 (Htotal H3)))) |].
  split; [exact H5 |].
  exact (Hother _ H5).
Defined.

(* ===================================================================== *)
(** * Further properties of the batch orchestrator                        *)
(* ===================================================================== *)

Section BatchInvariants.

Variable w : World.

Lemma filter_is_new_app (l1 l2 : list result_entry) :
  map info (List.filter is_new (l1 ++ l2))
  = map info (List.filter is_new l1) ++ map info (List.filter is_new l2).
Proof. now rewrite List.filter_app, map_app. Qed.

Lemma process_channel_new_videos channel_url st :
  new_videos (process_channel w channel_url empty_batch st).1
  = map info (List.filter is_new (results (process_channel w channel_url empty_batch st).1)).
Proof.
  unfold process_channel.
  destruct (channel_body w channel_url st) as [[[msg|vi new]|e] st']; simpl;
    try reflexivity.
  now destruct new.
Qed.

Lemma process_channels_new_videos channels st :
  new_videos (process_channels w channels empty_batch st).1
  = map info (List.filter is_new (results (process_channels w channels empty_batch st).1)).
Proof.
  revert st. induction channels as [|c cs IH]; intros st; simpl; [reflexivity |].
  destruct (process_channel w c empty_batch st) as [b1 st1] eqn:Hstep.
  rewrite process_channels_app_batch. simpl.
  rewrite filter_is_new_app, <- IH.
  pose proof (process_channel_new_videos c st) as H1. rewrite Hstep in H1.
  simpl in H1. now rewrite H1.
Qed.

Lemma process_channels_lengths channels st :
  length (results (process_channels w channels empty_batch st).1)
  + length (errors (process_channels w channels empty_batch st).1)
  = length channels.
Proof.
  destruct (process_channels w channels empty_batch st) as [b st'] eqn:Hloop.
  destruct (process_channels_accounts w _ _ _ _ Hloop) as (Hperm & _).
  apply Permutation_length in Hperm.
  rewrite length_app, !length_map in Hperm. exact Hperm.
Qed.

End BatchInvariants.

(** X1. The counts and lists of a batch response agree with each other:
    [new_videos] is the videos of the results flagged new, in order;
    [successful_channels] is the number of results and never exceeds
    [total_channels], the number of references; and [errors] is [None]
    exactly when every reference produced a result. *)
Theorem batch_response_is_consistent (w : World)
    (input_data : option (gmap string pyval)) (st st' : St)
    (response : AgentResponse) (videos : list result_entry)
    (news : list video_info) (errs : option (list error_entry))
    (total successful : nat) :
  process w input_data st = (Ok response, st') ->
  data response = Some (DataBatch videos news errs total successful) ->
  news = map info (List.filter is_new videos)
  /\ successful = length videos
  /\ total = length (_extract_channels input_data)
  /\ successful <= total
  /\ (errs = None <-> successful = total)
  /\ (forall l, errs = Some l -> successful + length l = total).
Proof.
  rewrite process_eq.
  destruct (_extract_channels input_data) as [|c cs] eqn:Hch; [now intros [= <- <-] |].
  pose proof (process_channels_new_videos w (c :: cs) st) as Hnews.
  pose proof (process_channels_lengths w (c :: cs) st) as Hlen.
  destruct (process_channels w (c :: cs) empty_batch st) as [b st1].
  simpl in Hnews, Hlen.
  destruct (storage_save w (now st1) (st_doc st1)); [now intros [= <- <-] |].
  intros [= <- <-]. unfold respond.
  destruct (results b) as [|r rs] eqn:Hres; destruct (errors b) as [|e es] eqn:Herr;
    simpl; try discriminate; intros [= <- <- <- <- <-]; simpl in *;
    (repeat split; try congruence; try lia; try discriminate).
  all: try (intros l [= <-]; simpl; lia).
  all: intros; exfalso; lia.
Qed.

(* --------------------------------------------------------------------- *)
(** ** What [last_seen] holds after a batch                               *)
(* --------------------------------------------------------------------- *)

Lemma last_video_for_app cid rs1 rs2 :
  last_video_for cid (rs1 ++ rs2)
  = match last_video_for cid rs2 with
    | Some v => Some v
    | None => last_video_for cid rs1
    end.
Proof.
  induction rs1 as [|r rs1 IH]; simpl.
  - now destruct (last_video_for cid rs2).
  - rewrite IH. now destruct (last_video_for cid rs2).
Qed.

Lemma process_channel_last_seen (w : World) cid channel_url b st b' st' rs :
  process_channel w channel_url b st = (b', st') ->
  results b' = results b ++ rs ->
  StateManager.get_last_seen cid (st_doc st')
  = match last_video_for cid rs with
    | Some v => Ok (Some v)
    | None => StateManager.get_last_seen cid (st_doc st)
    end.
Proof.
  intros Hstep Hrs.
  apply process_channel_outcome in Hstep
      as [(vi & new & Hbody & Hr & _) | (t & msg & Hbody & Hnot & Hr & _)].
  - rewrite Hr in Hrs. apply app_inv_head in Hrs. subst rs. simpl.
    destruct (String.eqb_spec (channel_id vi) cid) as [<- | Hne].
    + now apply (fetched_is_last_seen w channel_url st vi new).
    + apply channel_body_fetched in Hbody
          as (st1 & s & Hresolve & _ & _ & Hget & _ & _ & Hdoc).
      assert (Hslot : st_doc st1 !! "last_seen" = st_doc st !! "last_seen").
      { eapply (resolve_keeps_other_slots w channel_url st); [easy | eassumption]. }
      rewrite Hdoc. destruct new.
      * unfold StateManager.get_last_seen in *.
        destruct (get_in_total_of_one _ _ cid _ _ Hget) as [o Ho].
        rewrite <- (get_in_same_slot _ cid _ _ Hslot) in Ho.
        rewrite (StateManagerFacts.get_in_put_in_ne _ _ _ _ _ _ (not_eq_sym Hne) Ho).
        rewrite <- Ho. now apply get_in_same_slot.
      * now apply get_in_same_slot.
  - assert (rs = []) as ->.
    { rewrite Hr in Hrs. rewrite <- (app_nil_r (results b)) in Hrs at 1.
      now apply app_inv_head in Hrs. }
    simpl. apply get_in_same_slot.
    apply (channel_body_last_seen_slot w channel_url st t st' Hbody).
    intros vi. apply Hnot.
Qed.

(** X2. After any stretch of the loop, [last_seen] holds, for every
    channel, the video of the last result the stretch produced for that
    channel; for a channel without a result it reads as it did before. *)
Theorem last_seen_is_last_result (w : World) (cid : string)
    (channels : list string) (b b' : batch) (st st' : St)
    (rs : list result_entry) :
  process_channels w channels b st = (b', st') ->
  results b' = results b ++ rs ->
  StateManager.get_last_seen cid (st_doc st')
  = match last_video_for cid rs with
    | Some v => Ok (Some v)
    | None => StateManager.get_last_seen cid (st_doc st)
    end.
Proof.
  revert b st rs. induction channels as [|c cs IH]; intros b st rs; simpl.
  - intros [= <- <-] Hrs. assert (rs = []) as ->.
    { rewrite <- (app_nil_r (results b)) in Hrs at 1. now apply app_inv_head in Hrs. }
    reflexivity.
  - destruct (process_channel w c b st) as [b1 st1] eqn:Hstep. intros Hloop Hrs.
    destruct (process_channels_results w _ _ _ _ _ Hloop) as [rs2 Hrs2].
    assert (Hrs1 : exists rs1, results b1 = results b ++ rs1).
    { pose proof Hstep as H. rewrite process_channel_app in H.
      injection H as <- _. simpl. eauto. }
    destruct Hrs1 as [rs1 Hrs1].
    assert (rs = rs1 ++ rs2) as ->.
    { rewrite Hrs2, Hrs1, <- app_assoc in Hrs. now apply app_inv_head in Hrs. }
    rewrite (IH b1 st1 rs2 Hloop Hrs2), last_video_for_app.
    destruct (last_video_for cid rs2); [reflexivity |].
    now apply (process_channel_last_seen w cid c b st b1 st1 rs1).
Qed.

(* --------------------------------------------------------------------- *)
(** ** The calls a batch makes                                            *)
(* --------------------------------------------------------------------- *)





(* --------------------------------------------------------------------- *)
(** ** Invariants of the document                                         *)
(* --------------------------------------------------------------------- *)

Lemma resolve_dict_shaped (w : World) channel_url st r st' :
  dict_shaped (st_doc st) ->
  _resolve_channel_id w channel_url st = (r, st') ->
  dict_shaped (st_doc st') /\ exists o, r = Ok o.
Proof.
  intros Hd. rewrite resolve_channel_id_eq.
  destruct (StateManagerFacts.get_in_total "resolved" channel_url _ Hd) as [cached Hget].
  unfold StateManager.get_resolved. rewrite Hget.
  destruct (truthy cached); [intros [= <- <-]; eauto |].
  destruct (_extract_channel_id_from_url channel_url) as [cid|].
  - intros [= <- <-]. simpl. split; [|eauto].
    now apply StateManagerFacts.put_in_dict_shaped.
  - destruct (_extract_channel_name_from_url channel_url) as [name|];
      [|intros [= <- <-]; eauto].
    simpl. intros [= <- <-]. simpl. split; [|eauto].
    destruct (truthy (top_match _)); [|exact Hd].
    now apply StateManagerFacts.put_in_dict_shaped.
Qed.

Lemma channel_body_dict_shaped (w : World) channel_url st t st' :
  dict_shaped (st_doc st) ->
  channel_body w channel_url st = (t, st') ->
  dict_shaped (st_doc st')
  /\ ((exists vi new, t = Ok (Fetched vi new))
      \/ t = Ok (Skipped "Could not resolve channel ID")
      \/ t = Ok (Skipped "No videos found")).
Proof.
  intros Hd. rewrite channel_body_eq.
  destruct (_resolve_channel_id w channel_url st) as [r st1] eqn:Hres.
  destruct (resolve_dict_shaped w _ _ _ _ Hd Hres) as (Hd1 & o & ->).
  destruct o as [id|]; [|intros [= <- <-]; auto].
  destruct (str_truthy id); [|intros [= <- <-]; auto].
  destruct (latest_of w id st1) as [vi|]; [|intros [= <- <-]; auto].
  destruct (StateManagerFacts.get_in_total "last_seen" id _ Hd1) as [s Hget].
  unfold StateManager.get_last_seen. rewrite Hget.
  destruct (differs s (video_id vi)); intros [= <- <-]; simpl.
  - split; [now apply StateManagerFacts.put_in_dict_shaped | eauto].
  - split; [exact Hd1 | eauto].
Qed.

Lemma process_channels_dict_shaped (w : World) channels b st b' st' :
  dict_shaped (st_doc st) ->
  Forall is_plain_error (errors b) ->
  process_channels w channels b st = (b', st') ->
  dict_shaped (st_doc st') /\ Forall is_plain_error (errors b').
Proof.
  revert b st. induction channels as [|c cs IH]; intros b st Hd Hplain; simpl.
  - now intros [= <- <-].
  - destruct (process_channel w c b st) as [b1 st1] eqn:Hstep.
    apply IH; clear IH.
    + unfold process_channel in Hstep.
      destruct (channel_body w c st) as [t st2] eqn:Hbody.
      destruct (channel_body_dict_shaped w _ _ _ _ Hd Hbody) as [Hd2 _].
      destruct t as [[msg|vi new]|e]; now injection Hstep as <- <-.
    + unfold process_channel in Hstep.
      destruct (channel_body w c st) as [t st2] eqn:Hbody.
      destruct (channel_body_dict_shaped w _ _ _ _ Hd Hbody)
        as [_ [(vi & new & ->) | [-> | ->]]];
        injection Hstep as <- <-; simpl; try exact Hplain;
        (apply Forall_app; split; [exact Hplain |]);
        (constructor; [|constructor]); unfold is_plain_error; simpl; auto.
Qed.

(** X4. On a document that is a dict of dicts of strings, no turn of the
    loop raises.  The document is a [Doc]: each of its slots is a dict (the
    hypothesis) and what these dicts hold are strings (its type), as are
    the IDs the provider answers with (the type of [World]); a cached
    value that is a list or a number is outside this statement.  Then every
    per-channel error a response reports is one of the two the loop
    records itself, an unresolved reference or a channel without videos;
    and the document the call leaves is a dict of dicts of strings
    again. *)
Theorem well_shaped_document_no_exception (w : World)
    (input_data : option (gmap string pyval)) (st st' : St)
    (response : AgentResponse) :
  dict_shaped (st_doc st) ->
  process w input_data st = (Ok response, st') ->
  dict_shaped (st_doc st')
  /\ Forall is_plain_error (response_errors response).
Proof.
  intros Hd. rewrite process_eq.
  destruct (_extract_channels input_data) as [|c cs] eqn:Hch.
  - intros [= <- <-]. split; [exact Hd | constructor].
  - destruct (process_channels w (c :: cs) empty_batch st) as [b st1] eqn:Hloop.
    destruct (process_channels_dict_shaped w (c :: cs) empty_batch st b st1 Hd
                (List.Forall_nil _) Hloop)
      as [Hd1 Hplain].
    intros [= <- <-]. split; [exact Hd1 |].
    destruct (storage_save w (now st1) (st_doc st1)); [constructor |].
    unfold response_errors, respond.
    destruct (results b), (errors b); simpl; first [exact Hplain | constructor].
Qed.

(** X5. The agent never puts an empty channel ID in the resolved cache:
    when the cache holds none before a call of [process], it holds none
    after it, whatever the searches answered. *)
Theorem process_keeps_cache_ids (w : World)
    (input_data : option (gmap string pyval)) (st st' : St)
    (response : res AgentResponse) :
  cache_holds_ids (st_doc st) ->
  process w input_data st = (response, st') ->
  cache_holds_ids (st_doc st').
Proof.
  intros Hd. rewrite process_eq.
  destruct (_extract_channels input_data) as [|c cs] eqn:Hch; [now intros [= <- <-] |].
  destruct (process_channels w (c :: cs) empty_batch st) as [b st1] eqn:Hloop.
  intros [= <- <-]. simpl.
  now apply (process_channels_keeps_cache_ids w (c :: cs) empty_batch st b st1).
Qed.

(* --------------------------------------------------------------------- *)
(** ** What every result looks like                                       *)
(* --------------------------------------------------------------------- *)

Lemma length_append (a b : string) :
  String.length (a +:+ b) = String.length a + String.length b.
Proof. induction a as [|c a IH]; str_norm; [reflexivity | now rewrite IH]. Qed.

Lemma length_substring_le (n : nat) (s : string) :
  String.length (String.substring 0 n s) <= n.
Proof.
  revert s. induction n as [|n IH]; intros [|c s]; simpl; try lia.
  specialize (IH s). lia.
Qed.

Lemma make_video_info_well_formed id sn new channel_url :
  id <> "" ->
  well_formed_result {| info := make_video_info id sn; is_new := new;
                        channel_url := channel_url |}.
Proof.
  intros Hne. unfold well_formed_result, make_video_info. simpl.
  split; [exact Hne |]. split; [reflexivity |]. split.
  - now eexists.
  - rewrite length_append.
    pose proof (length_substring_le 200 (default "" (sn_description sn))).
    simpl. lia.
Qed.

Lemma latest_of_make (w : World) cid st vi :
  latest_of w cid st = Some vi -> exists sn, vi = make_video_info cid sn.
Proof.
  unfold latest_of.
  destruct (channels_list w (now st) cid) as [[|uploads items]|e]; try discriminate.
  destruct (playlist_items w (S (now st)) uploads) as [[|sn sns]|e]; try discriminate.
  intros [= <-]. eauto.
Qed.

Lemma process_channels_well_formed (w : World) channels b st b' st' :
  Forall well_formed_result (results b) ->
  process_channels w channels b st = (b', st') ->
  Forall well_formed_result (results b').
Proof.
  revert b st. induction channels as [|c cs IH]; intros b st Hwf; simpl.
  - now intros [= <- <-].
  - destruct (process_channel w c b st) as [b1 st1] eqn:Hstep.
    apply IH; clear IH.
    apply process_channel_outcome in Hstep
        as [(vi & new & Hbody & -> & _) | (t & msg & _ & _ & -> & _)];
      [|exact Hwf].
    apply Forall_app. split; [exact Hwf |]. constructor; [|constructor].
    apply channel_body_fetched in Hbody
        as (st2 & s & _ & Hne & Hlatest & _).
    apply latest_of_make in Hlatest as [sn Hvi]. rewrite Hvi in *.
    now apply make_video_info_well_formed.
Qed.

(** X6. Every result a response carries has a non-empty channel ID, a
    watch URL made of the fixed prefix and its video ID, and a description
    that ends in three dots and is at most 203 characters long. *)
Theorem results_are_well_formed (w : World)
    (input_data : option (gmap string pyval)) (st : St) :
  match (process w input_data st).1 with
  | Ok response => Forall well_formed_result (response_videos response)
  | Raise _ => False
  end.
Proof.
  rewrite process_eq.
  destruct (_extract_channels input_data) as [|c cs] eqn:Hch; [constructor |].
  destruct (process_channels w (c :: cs) empty_batch st) as [b st1] eqn:Hloop.
  simpl.
  destruct (storage_save w (now st1) (st_doc st1)); [constructor |].
  unfold response_videos, respond.
  pose proof (process_channels_well_formed w (c :: cs) empty_batch st b st1
                (List.Forall_nil _) Hloop) as Hwf.
  destruct (results b), (errors b); simpl; first [exact Hwf | constructor].
Qed.

(* --------------------------------------------------------------------- *)
(** ** The references of the results are cached                           *)
(* --------------------------------------------------------------------- *)

Lemma process_channel_cached (w : World) channel_url b st b' st' :
  Forall (cached_result (st_doc st)) (results b) ->
  process_channel w channel_url b st = (b', st') ->
  Forall (cached_result (st_doc st')) (results b').
Proof.
  intros Hold Hstep.
  assert (Hkept : Forall (cached_result (st_doc st')) (results b)).
  { eapply List.Forall_impl; [|exact Hold]. intros r [Hget Hne]. split; [|exact Hne].
    now apply (process_channel_keeps_cached w _ _ channel_url b st b' st'). }
  apply process_channel_outcome in Hstep
      as [(vi & new & Hbody & -> & _) | (t & msg & _ & _ & -> & _)];
    [|exact Hkept].
  apply Forall_app. split; [exact Hkept |]. constructor; [|constructor].
  apply channel_body_fetched in Hbody
      as (st1 & s & Hresolve & Hne & _ & _ & _ & _ & Hdoc).
  split; [|exact Hne]. simpl.
  pose proof (resolve_caches w channel_url st _ st1 Hresolve Hne) as Hc.
  rewrite Hdoc. destruct new; [|exact Hc].
  unfold StateManager.get_resolved in *.
  now rewrite StateManagerFacts.get_in_put_in_other.
Qed.

Lemma process_channels_cached (w : World) channels b st b' st' :
  Forall (cached_result (st_doc st)) (results b) ->
  process_channels w channels b st = (b', st') ->
  Forall (cached_result (st_doc st')) (results b').
Proof.
  revert b st. induction channels as [|c cs IH]; intros b st Hold; simpl.
  - now intros [= <- <-].
  - destruct (process_channel w c b st) as [b1 st1] eqn:Hstep.
    apply IH. now apply (process_channel_cached w c b st).
Qed.

(** X7. When [process] returns, the resolved cache maps the reference of
    every result in the response to that result's channel ID, so that the
    next resolution of any of these references is served from the cache,
    without a search. *)
Theorem result_references_are_cached (w : World)
    (input_data : option (gmap string pyval)) (st st' : St)
    (response : AgentResponse) :
  process w input_data st = (Ok response, st') ->
  Forall (fun r =>
            cached_result (st_doc st') r
            /\ _resolve_channel_id w (channel_url r) st'
               = (Ok (Some (channel_id (info r))), st'))
         (response_videos response).
Proof.
  rewrite process_eq.
  destruct (_extract_channels input_data) as [|c cs] eqn:Hch;
    [intros [= <- <-]; constructor |].
  destruct (process_channels w (c :: cs) empty_batch st) as [b st1] eqn:Hloop.
  intros [= <- <-].
  pose proof (process_channels_cached w (c :: cs) empty_batch st b st1
                (List.Forall_nil _) Hloop) as Hcached.
  assert (Hall : Forall (fun r =>
                           cached_result (st_doc (log (EvSave (st_doc st1)) st1)) r
                           /\ _resolve_channel_id w (channel_url r)
                                (log (EvSave (st_doc st1)) st1)
                              = (Ok (Some (channel_id (info r))),
                                 log (EvSave (st_doc st1)) st1))
                        (results b)).
  { eapply List.Forall_impl; [|exact Hcached]. intros r [Hget Hne].
    split; [now split |].
    rewrite resolve_channel_id_eq. simpl. rewrite Hget.
    destruct (channel_id (info r)); [contradiction | reflexivity]. }
  destruct (storage_save w (now st1) (st_doc st1)); [constructor |].
  unfold response_videos, respond.
  destruct (results b), (errors b); simpl; first [exact Hall | constructor].
Qed.

(* --------------------------------------------------------------------- *)
(** ** The references [_extract_channels] hands to the loop               *)
(* --------------------------------------------------------------------- *)

Lemma lstrip_no_leading_space s : starts_with_space (Str.lstrip s) = false.
Proof.
  induction s as [|c s IH]; simpl; [reflexivity |].
  destruct (Str.is_space c) eqn:Hc; [exact IH | simpl; exact Hc].
Qed.

Lemma rstrip_keeps_head s :
  starts_with_space s = false -> starts_with_space (Str.rstrip s) = false.
Proof.
  destruct s as [|c s]; simpl; [reflexivity |]. intros Hc.
  destruct (Str.rstrip s); [rewrite Hc |]; simpl; exact Hc.
Qed.

Lemma rstrip_no_trailing_space s : ends_with_space (Str.rstrip s) = false.
Proof.
  induction s as [|c s IH]; simpl; [reflexivity |].
  destruct (Str.rstrip s) as [|d t] eqn:Hr.
  - destruct (Str.is_space c) eqn:Hc; simpl; [reflexivity | exact Hc].
  - exact IH.
Qed.

Lemma strip_clean s : str_truthy (Str.strip s) = true -> clean_reference (Str.strip s).
Proof.
  intros Hne. unfold clean_reference, Str.strip in *. split; [|split].
  - intros H. rewrite H in Hne. discriminate.
  - apply rstrip_keeps_head, lstrip_no_leading_space.
  - apply rstrip_no_trailing_space.
Qed.

Lemma split_fields_no_sep sep s :
  Forall (fun field => has_char sep field = false) (Str.split sep s).
Proof.
  induction s as [|c s IH]; simpl.
  - repeat constructor.
  - destruct (Ascii.eqb_spec c sep) as [-> | Hne].
    + constructor; [reflexivity | exact IH].
    + destruct (Str.split sep s) as [|fld flds].
      * repeat constructor. simpl. apply Ascii.eqb_neq in Hne. now rewrite Hne.
      * apply Forall_cons in IH as [Hf Hfs]. constructor; [|exact Hfs].
        simpl. apply Ascii.eqb_neq in Hne. now rewrite Hne.
Qed.

Lemma lstrip_no_char c s : has_char c s = false -> has_char c (Str.lstrip s) = false.
Proof.
  induction s as [|d s IH]; simpl; [reflexivity |]. intros H.
  apply orb_false_iff in H as [Hd Hs].
  destruct (Str.is_space d); [now apply IH | simpl; now rewrite Hd, Hs].
Qed.

Lemma rstrip_no_char c s : has_char c s = false -> has_char c (Str.rstrip s) = false.
Proof.
  induction s as [|d s IH]; simpl; [reflexivity |]. intros H.
  apply orb_false_iff in H as [Hd Hs]. specialize (IH Hs).
  destruct (Str.rstrip s) as [|e t].
  - destruct (Str.is_space d); simpl; [reflexivity | now rewrite Hd].
  - simpl in *. now rewrite Hd, IH.
Qed.

(** X8. Every reference [_extract_channels] returns is non-empty and has
    no space character at either end; those it takes from the
    comma-separated string hold no comma either. *)
Theorem extracted_references_are_clean (input_data : option (gmap string pyval)) :
  Forall clean_reference (_extract_channels input_data)
  /\ (forall d s,
         input_data = Some d -> d !! "channels" = Some (PStr s) ->
         Forall (fun ref => has_char "," ref = false) (_extract_channels input_data)).
Proof.
  assert (Hstr : forall s,
             Forall clean_reference
               (List.filter str_truthy (List.map Str.strip (Str.split "," s)))).
  { intros s. apply List.Forall_forall. intros ref Hin.
    apply List.filter_In in Hin as [Hin Htruthy].
    apply List.in_map_iff in Hin as (field & <- & _). now apply strip_clean. }
  assert (Hlist : forall items,
             Forall clean_reference
               (flat_map (fun url => match url with
                                     | IStr s =>
                                         if str_truthy (Str.strip s)
                                         then [Str.strip s] else []
                                     | IOther => []
                                     end) items)).
  { induction items as [|[s|] items IH]; simpl; [constructor | | exact IH].
    destruct (str_truthy (Str.strip s)) eqn:Ht; [|exact IH].
    constructor; [now apply strip_clean | exact IH]. }
  split.
  - destruct input_data as [d|]; [|constructor]. unfold _extract_channels.
    destruct (bool_decide (size d = 0)); [constructor |].
    destruct (d !! "channels") as [[s|l|]|]; try apply Hstr;
      destruct (d !! "channel_urls") as [[s'|l'|]|]; try constructor; apply Hlist.
  - intros d s -> Hd. unfold _extract_channels.
    destruct (bool_decide (size d = 0)); [constructor |]. rewrite Hd.
    apply List.Forall_forall. intros ref Hin.
    apply List.filter_In in Hin as [Hin _].
    apply List.in_map_iff in Hin as (field & <- & Hfield).
    pose proof (split_fields_no_sep "," s) as Hsep.
    rewrite List.Forall_forall in Hsep. specialize (Hsep field Hfield).
    unfold Str.strip. now apply rstrip_no_char, lstrip_no_char.
Qed.

(* --------------------------------------------------------------------- *)
(** ** Which results are new                                              *)
(* --------------------------------------------------------------------- *)

Lemma process_channel_results (w : World) channel_url b st b' st' :
  process_channel w channel_url b st = (b', st') ->
  results b' = results b
  \/ exists vi new,
      results b' = results b
                   ++ [{| info := vi; is_new := new; channel_url := channel_url |}]
      /\ exists s,
          StateManager.get_last_seen (channel_id vi) (st_doc st) = Ok s
          /\ new = differs s (video_id vi).
Proof.
  intros Hstep.
  apply process_channel_outcome in Hstep
      as [(vi & new & Hbody & Hr & _) | (t & msg & _ & _ & Hr & _)]; [|now left].
  right. exists vi, new. split; [exact Hr |].
  apply channel_body_fetched in Hbody as (st1 & s & _ & _ & _ & Hget & Hnew & _).
  eauto.
Qed.

(** X18. Which results of a batch are new.  A result is flagged new
    exactly when its video differs from the video of the last earlier
    result of the same batch for the same channel or, when there is no
    such result, from what [last_seen] held for the channel before the
    batch (nothing at all included). *)
Theorem is_new_characterized (w : World) (channels : list string)
    (b b' : batch) (st st' : St) (before after : list result_entry)
    (r : result_entry) :
  process_channels w channels b st = (b', st') ->
  results b' = results b ++ before ++ r :: after ->
  exists s,
    seen_after (channel_id (info r)) before
      (StateManager.get_last_seen (channel_id (info r)) (st_doc st)) = Ok s
    /\ is_new r = differs s (video_id (info r)).
Proof.
  revert b st before. induction channels as [|c cs IH]; intros b st before; simpl.
  - intros [= <- <-] Hrs. exfalso.
    apply (f_equal (@length _)) in Hrs. rewrite !length_app in Hrs. simpl in Hrs. lia.
  - destruct (process_channel w c b st) as [b1 st1] eqn:Hstep. intros Hloop Hrs.
    destruct (process_channels_results w _ _ _ _ _ Hloop) as [rs2 Hrs2].
    pose proof (process_channel_last_seen w (channel_id (info r)) c b st b1 st1) as Hseen.
    destruct (process_channel_results w c b st b1 st1 Hstep)
      as [Hsame | (vi & new & Hone & s0 & Hget0 & Hnew0)].
    + assert (Hnil : results b1 = results b ++ []) by now rewrite app_nil_r.
      specialize (Hseen [] Hstep Hnil). simpl in Hseen.
      rewrite <- Hseen. apply (IH b1 st1 before Hloop). now rewrite Hsame.
    + specialize (Hseen _ Hstep Hone). simpl in Hseen.
      assert (Hsplit : before ++ r :: after
                       = {| info := vi; is_new := new; channel_url := c |} :: rs2).
      { rewrite Hrs2, Hone, <- app_assoc in Hrs. now apply app_inv_head in Hrs. }
      destruct before as [|r0 before'].
      * simpl in Hsplit. injection Hsplit as -> _. simpl.
        exists s0. split; [exact Hget0 | exact Hnew0].
      * simpl in Hsplit. injection Hsplit as -> Hrest.
        assert (Hrs' : results b' = results b1 ++ before' ++ r :: after).
        { rewrite Hrs2. now rewrite Hrest. }
        destruct (IH b1 st1 before' Hloop Hrs') as (s & Hs & Hnew).
        exists s. split; [|exact Hnew].
        unfold seen_after in *. simpl.
        destruct (last_video_for (channel_id (info r)) before'); [exact Hs |].
        rewrite <- Hs, Hseen.
        now destruct (String.eqb (channel_id vi) (channel_id (info r))).
Qed.

(* --------------------------------------------------------------------- *)
(** ** Which handle is taken                                              *)
(* --------------------------------------------------------------------- *)

(** X19. An [@name] segment wins over a path segment wherever it stands:
    when the reference has an [@] followed by a class character, the
    handle is the run after some [@]; a [/c/name] or [/user/name] segment
    gives the handle only in a reference without any. *)
Theorem at_handle_precedes_path (url name : string) :
  _extract_channel_name_from_url url = Some name ->
  has_segment "@" url name
  \/ (no_segment "@" url
      /\ (has_segment "/c/" url name \/ has_segment "/user/" url name)).
Proof.
  unfold _extract_channel_name_from_url, has_segment, no_segment.
  destruct (Re.search Re.at_handle_at url) as [nm|] eqn:Hat.
  - intros [= <-]. apply search_elim in Hat as (pre & rest & -> & Hm & _).
    apply at_handle_at_elim in Hm as (suf & -> & Hne & Hall & Hend).
    left. now exists pre, suf.
  - intros H. right. split.
    + intros pre suf ->. apply at_handle_at_None.
      apply (search_None _ _ Hat pre). reflexivity.
    + apply search_elim in H as (pre & rest & -> & Hm & _).
      apply path_name_at_elim in Hm as (marker & suf & Hmk & -> & Hne & Hall & Hend).
      destruct Hmk as [-> | ->]; [left | right]; now exists pre, suf.
Qed.

(* ===================================================================== *)
(** * The channel tools                                                   *)
(* ===================================================================== *)

Lemma split_nonempty sep s : Str.split sep s <> [].
Proof.
  destruct s as [|c s]; simpl; [discriminate |].
  destruct (c =? sep)%char; [discriminate |].
  destruct (Str.split sep s); discriminate.
Qed.

Lemma split_app_sep sep a b :
  Str.split sep (a +:+ String sep b) = Str.split sep a ++ Str.split sep b.
Proof.
  induction a as [|c a IH]; str_norm.
  - now rewrite Ascii.eqb_refl.
  - destruct (c =? sep)%char; [now rewrite IH |].
    rewrite IH. pose proof (split_nonempty sep a) as Hne.
    destruct (Str.split sep a) as [|f fs]; [contradiction | reflexivity].
Qed.

Lemma reference_fields_space b : reference_fields (String " " b) = reference_fields b.
Proof.
  unfold reference_fields. simpl.
  pose proof (split_nonempty "," b) as Hne.
  destruct (Str.split "," b) as [|f fs]; [contradiction | reflexivity].
Qed.

Lemma reference_fields_join entry rest :
  reference_fields (Py.join ", " (entry :: rest))
  = reference_fields entry ++ flat_map reference_fields rest.
Proof.
  revert entry. induction rest as [|next rest IH]; intros entry.
  - simpl. now rewrite app_nil_r.
  - change (Py.join ", " (entry :: next :: rest))
      with (entry +:+ ", " +:+ Py.join ", " (next :: rest)).
    change (entry +:+ ", " +:+ Py.join ", " (next :: rest))
      with (entry +:+ String "," (String " " (Py.join ", " (next :: rest)))).
    unfold reference_fields at 1. rewrite split_app_sep, List.map_app, List.filter_app.
    fold (reference_fields entry).
    fold (reference_fields (String " " (Py.join ", " (next :: rest)))).
    now rewrite reference_fields_space, IH.
Qed.

Lemma extract_tool_input channels_str :
  _extract_channels (tool_input channels_str) = reference_fields channels_str.
Proof.
  unfold _extract_channels, tool_input.
  rewrite map_size_singleton. simpl. now rewrite lookup_singleton_eq.
Qed.

Lemma split_no_sep sep s : has_char sep s = false -> Str.split sep s = [s].
Proof.
  induction s as [|c s IH]; simpl; [reflexivity |]. intros H.
  apply orb_false_iff in H as [Hc Hs]. rewrite Hc, (IH Hs). reflexivity.
Qed.

Lemma lstrip_id s : starts_with_space s = false -> Str.lstrip s = s.
Proof. destruct s as [|c s]; simpl; [reflexivity |]. now intros ->. Qed.

Lemma rstrip_id s : ends_with_space s = false -> Str.rstrip s = s.
Proof.
  induction s as [|c s IH]; simpl; [reflexivity |].
  destruct s as [|d t]; [now intros -> |].
  intros H. rewrite (IH H). reflexivity.
Qed.

Lemma reference_fields_clean entry :
  clean_reference entry -> has_char "," entry = false ->
  reference_fields entry = [entry].
Proof.
  intros (Hne & Hhead & Hlast) Hcomma. unfold reference_fields.
  rewrite (split_no_sep _ _ Hcomma). simpl. unfold Str.strip.
  rewrite (lstrip_id _ Hhead), (rstrip_id _ Hlast).
  destruct entry; [contradiction | reflexivity].
Qed.

Lemma extract_joined (channels : list string) :
  _extract_channels (tool_input (Py.join ", " channels))
  = flat_map reference_fields channels.
Proof.
  rewrite extract_tool_input. destruct channels as [|entry rest]; [reflexivity |].
  apply reference_fields_join.
Qed.

(** X9. The references the monitor tool has processed for a list of
    channels are, entry by entry and in order, the comma-separated fields
    of each entry, stripped and without the blank ones: joining with a
    comma and a space and splitting at commas loses nothing and invents
    nothing.  A list of entries that are non-empty, without a comma and
    without a space at either end is processed as it is. *)
Theorem monitor_references (channels : list string) :
  _extract_channels (tool_input (Py.join ", " channels))
  = flat_map reference_fields channels
  /\ (Forall (fun entry => clean_reference entry /\ has_char "," entry = false)
             channels ->
      _extract_channels (tool_input (Py.join ", " channels)) = channels).
Proof.
  split; [apply extract_joined |]. rewrite extract_joined.
  induction 1 as [|entry rest [Hclean Hcomma] _ IH]; simpl; [reflexivity |].
  now rewrite (reference_fields_clean _ Hclean Hcomma), IH.
Qed.

Section ToolFacts.

Variable env : Tools.Env.
Variable w : World.

(** What a successful response is made of. *)
Lemma process_success_inv input_data st response st' :
  process w input_data st = (Ok response, st') ->
  success response = true ->
  exists b st1,
    _extract_channels input_data <> []
    /\ process_channels w (_extract_channels input_data) empty_batch st = (b, st1)
    /\ storage_save w (now st1) (st_doc st1) = None
    /\ errors b = []
    /\ results b <> []
    /\ length (results b) = length (_extract_channels input_data)
    /\ new_videos b = map info (List.filter is_new (results b))
    /\ data response
       = Some (DataBatch (results b) (new_videos b) None
                 (length (_extract_channels input_data)) (length (results b)))
    /\ st' = log (EvSave (st_doc st1)) st1.
Proof.
  rewrite process_eq.
  destruct (_extract_channels input_data) as [|c cs] eqn:Hch;
    [intros [= <- <-]; discriminate |].
  pose proof (process_channels_new_videos w (c :: cs) st) as Hnews.
  pose proof (process_channels_lengths w (c :: cs) st) as Hlen.
  destruct (process_channels w (c :: cs) empty_batch st) as [b st1].
  simpl in Hnews, Hlen.
  destruct (storage_save w (now st1) (st_doc st1)) eqn:Hsave;
    [intros [= <- <-]; discriminate |].
  intros [= <- <-]. unfold respond, success.
  destruct (results b) as [|r rs] eqn:Hres; destruct (errors b) as [|e es] eqn:Herr;
    simpl in *; try discriminate; intros _.
  exists b, st1. rewrite Hres, Herr. simpl.
  repeat split; try congruence; try discriminate; lia.
Qed.

End ToolFacts.

(** X10. A report of the monitor tool is all or nothing: whenever the
    tool returns a report rather than an error, every reference produced a
    result, so [successful_channels] equals [total_channels] and is not
    zero, [all_videos] has that many entries, [errors] is [None], and
    [new_videos] is the videos of the results flagged new. *)
Theorem monitor_report_is_all_or_nothing (env : Tools.Env) (w : World)
    (channels : list string) (cached cached' : option St)
    (successful total : nat) (news : list video_info)
    (videos : list result_entry) (errs : option (list error_entry)) :
  Tools.youtube_channels_monitor env w channels cached
  = (Tools.MonitorReport successful total news videos errs, cached') ->
  successful = total
  /\ 0 < total
  /\ total = length (flat_map reference_fields channels)
  /\ length videos = total
  /\ errs = None
  /\ news = map info (List.filter is_new videos).
Proof.
  unfold Tools.youtube_channels_monitor.
  destruct (nonempty channels); simpl; [|discriminate].
  destruct (Tools.get_youtube_channel_agent env cached) as [agent|e]; [|discriminate].
  destruct (process w _ agent) as [[response|e] agent'] eqn:Hrun; [|discriminate].
  destruct (data response) as [d|] eqn:Hdata; [|discriminate].
  destruct (success response) eqn:Hsucc; [|discriminate].
  destruct (process_success_inv w _ _ _ _ Hrun Hsucc)
    as (b & st1 & Hne & _ & _ & _ & Hres & Hlen & Hnews & Hd & _).
  fold (tool_input (Py.join ", " channels)) in *.
  rewrite extract_joined in *.
  rewrite Hd in Hdata. injection Hdata as <-. simpl.
  intros [= <- <- <- <- <-].
  repeat split; try congruence.
  destruct (results b); [contradiction | simpl in *; lia].
Qed.

Lemma process_channels_nil_errors (w : World) channels st b st1 :
  process_channels w channels empty_batch st = (b, st1) ->
  errors b <> [] -> channels <> [].
Proof. destruct channels; [now intros [= <- <-] | discriminate]. Qed.

(** X11. The monitor tool reports nothing of a batch in which some
    reference failed.  With an agent in place and a save that returns,
    a batch with at least one per-channel error makes the tool return only
    an error message: "Failed to process any channels" when no reference
    produced a result, "Failed to monitor channels" when some did.  The
    agent the tool keeps is nevertheless in the state the loop left, with
    the [last_seen] updates of the results that were not reported. *)
Theorem monitor_drops_partial_results (env : Tools.Env) (w : World)
    (channels : list string) (agent st1 : St) (b : batch) :
  process_channels w (flat_map reference_fields channels) empty_batch agent = (b, st1) ->
  errors b <> [] ->
  storage_save w (now st1) (st_doc st1) = None ->
  Tools.youtube_channels_monitor env w channels (Some agent)
  = (Tools.ToolError (if nonempty (results b)
                      then "Failed to monitor channels"
                      else "Failed to process any channels"),
     Some (log (EvSave (st_doc st1)) st1)).
Proof.
  intros Hloop Herr Hsave.
  pose proof (process_channels_nil_errors w _ _ _ _ Hloop Herr) as Hrefs.
  unfold Tools.youtube_channels_monitor.
  destruct channels as [|entry rest]; [now destruct Hrefs |].
  cbn [nonempty negb Tools.get_youtube_channel_agent].
  fold (tool_input (Py.join ", " (entry :: rest))).
  rewrite process_eq, extract_joined.
  destruct (flat_map reference_fields (entry :: rest)) as [|c cs] eqn:Hfm;
    [now destruct Hrefs |].
  rewrite Hloop, Hsave. unfold respond, success.
  destruct (results b), (errors b); simpl; try reflexivity; now destruct Herr.
Qed.

(** X12. The single-channel tool returns the first result of the batch
    whenever the agent's response is a success: a successful response
    always holds a result, so the tool's "No videos found for this
    channel" answer is never what a successful response leads to. *)
Theorem latest_returns_first_result (env : Tools.Env) (w : World)
    (channel_id : string) (agent agent' : St) (response : AgentResponse) :
  channel_id <> "" ->
  process w (tool_input channel_id) agent = (Ok response, agent') ->
  success response = true ->
  exists r rest,
    response_videos response = r :: rest
    /\ Tools.youtube_channel_latest env w channel_id (Some agent)
       = (Tools.LatestVideo (channel_title (info r)) (video_title (info r))
            (video_url (info r)) (video_id (info r)) (published_at (info r))
            (is_new r),
          Some agent').
Proof.
  intros Hne Hrun Hsucc.
  destruct (process_success_inv w _ _ _ _ Hrun Hsucc)
    as (b & st1 & _ & _ & _ & _ & Hres & _ & _ & Hd & _).
  destruct (results b) as [|r rest] eqn:Hrs; [contradiction |].
  exists r, rest. unfold response_videos. rewrite Hd. split; [reflexivity |].
  unfold Tools.youtube_channel_latest.
  destruct channel_id; [contradiction |].
  cbn [str_truthy negb Tools.get_youtube_channel_agent].
  unfold tool_input in Hrun. rewrite Hrun, Hd, Hsucc. reflexivity.
Qed.

(* ===================================================================== *)
(** * The transcription agent                                             *)
(* ===================================================================== *)

Lemma substring_prefix (t suf : string) :
  String.substring 0 (String.length t) (t +:+ suf) = t.
Proof.
  induction t as [|c t IH]; str_norm.
  - now destruct suf.
  - now rewrite IH.
Qed.

Lemma embed_candidate_length parts vid :
  Transcription.embed_candidate parts = Some vid -> String.length vid = 11.
Proof.
  induction parts as [|part rest IH]; simpl; [discriminate |].
  destruct rest as [|candidate rest']; [discriminate |].
  destruct ((String.eqb part "embed" || String.eqb part "v")
            && (String.length candidate =? 11)%nat) eqn:Hhit.
  - intros [= <-]. apply andb_true_iff in Hhit as [_ Hlen].
    now apply Nat.eqb_eq in Hlen.
  - exact IH.
Qed.

Section Extraction.

Variable urlparse : string -> Transcription.result Transcription.parsed_url.
Variable parse_qs : string -> gmap string (list string).

Lemma watch_or_embed_length parsed vid :
  Transcription.watch_or_embed parse_qs parsed = Some vid -> String.length vid = 11.
Proof.
  unfold Transcription.watch_or_embed.
  destruct (parse_qs (Transcription.query parsed) !! "v") as [[|v vs]|];
    try apply embed_candidate_length.
  destruct (String.length v =? 11)%nat eqn:Hlen; [|apply embed_candidate_length].
  intros [= <-]. now apply Nat.eqb_eq in Hlen.
Qed.

Lemma short_link_length parsed vid :
  Transcription.short_link parsed = Some vid -> String.length vid = 11.
Proof.
  unfold Transcription.short_link.
  destruct (str_truthy _); [|discriminate].
  destruct (Re.take_id_chars 11 _) as [t|] eqn:Htake; [|discriminate].
  apply take_id_chars_elim in Htake as ([suf Hs] & Hlen & _).
  intros [= <-]. rewrite Hs, <- Hlen. now rewrite substring_prefix.
Qed.

Lemma extract_video_id_length url vid :
  Transcription._extract_video_id urlparse parse_qs url = Transcription.Return vid ->
  String.length vid = 11.
Proof.
  unfold Transcription._extract_video_id.
  destruct (negb (str_truthy url)); [discriminate |].
  destruct (urlparse url) as [parsed|e]; [|discriminate].
  destruct (PyStr.contains "youtube.com" _).
  - destruct (Transcription.watch_or_embed parse_qs parsed) as [v|] eqn:Hw.
    + intros [= <-]. now apply watch_or_embed_length in Hw.
    + destruct (PyStr.contains "youtu.be" _).
      * destruct (Transcription.short_link parsed) as [v|] eqn:Hs.
        -- intros [= <-]. now apply short_link_length in Hs.
        -- destruct (Re.search _ url) as [v|] eqn:Hf; [|discriminate].
           intros [= <-]. apply search_elim in Hf as (_ & rest & _ & Hat & _).
           now apply take_id_chars_elim in Hat as (_ & Hlen & _).
      * destruct (Re.search _ url) as [v|] eqn:Hf; [|discriminate].
        intros [= <-]. apply search_elim in Hf as (_ & rest & _ & Hat & _).
        now apply take_id_chars_elim in Hat as (_ & Hlen & _).
  - destruct (PyStr.contains "youtu.be" _).
    + destruct (Transcription.short_link parsed) as [v|] eqn:Hs.
      * intros [= <-]. now apply short_link_length in Hs.
      * destruct (Re.search _ url) as [v|] eqn:Hf; [|discriminate].
        intros [= <-]. apply search_elim in Hf as (_ & rest & _ & Hat & _).
        now apply take_id_chars_elim in Hat as (_ & Hlen & _).
    + destruct (Re.search _ url) as [v|] eqn:Hf; [|discriminate].
      intros [= <-]. apply search_elim in Hf as (_ & rest & _ & Hat & _).
      now apply take_id_chars_elim in Hat as (_ & Hlen & _).
Qed.

Lemma id_run_found url run :
  has_id_run url run -> exists vid, Re.search (Re.take_id_chars 11) url = Some vid.
Proof.
  intros (pre & suf & -> & Hlen & Hall).
  apply search_Some_if with (m := run). now apply take_id_chars_intro.
Qed.

Lemma id_run_nonempty url run : has_id_run url run -> str_truthy url = true.
Proof.
  intros (pre & suf & -> & Hlen & _). destruct pre; str_norm; [|reflexivity].
  destruct run; [discriminate | reflexivity].
Qed.

End Extraction.

(** X13. Whatever [urlparse] and [parse_qs] make of the URL, a video ID
    that [_extract_video_id] returns has exactly eleven characters, on
    each of its four ways out. *)
Theorem extracted_video_id_has_11_chars
    (urlparse : string -> Transcription.result Transcription.parsed_url)
    (parse_qs : string -> gmap string (list string)) (url vid : string) :
  Transcription._extract_video_id urlparse parse_qs url = Transcription.Return vid ->
  String.length vid = 11.
Proof. apply extract_video_id_length. Qed.

(** X14. The last resort of [_extract_video_id] accepts any host: for a
    URL that [urlparse] accepts and that holds eleven consecutive
    characters of the ID class anywhere, an ID is returned.  The other
    way round, when it raises on a non-empty URL that [urlparse] accepts,
    the URL holds no such run and the error is the [ValueError] that
    quotes the URL. *)
Theorem video_id_found_whenever_possible
    (urlparse : string -> Transcription.result Transcription.parsed_url)
    (parse_qs : string -> gmap string (list string)) (url : string)
    (parsed : Transcription.parsed_url) :
  urlparse url = Transcription.Return parsed ->
  (forall run, has_id_run url run ->
               exists vid,
                 Transcription._extract_video_id urlparse parse_qs url
                 = Transcription.Return vid)
  /\ (forall e,
         url <> "" ->
         Transcription._extract_video_id urlparse parse_qs url = Transcription.Raises e ->
         (forall run, ~ has_id_run url run)
         /\ e = Transcription.Exception Transcription.ValueError
                  ("Could not extract YouTube video ID from URL: " +:+ url)).
Proof.
  intros Hparse. split.
  - intros run Hrun. unfold Transcription._extract_video_id.
    rewrite (id_run_nonempty _ _ Hrun), Hparse. cbn [negb].
    destruct (id_run_found _ _ Hrun) as [vid Hvid]. rewrite Hvid.
    destruct (if PyStr.contains "youtube.com" _ then _ else None); [eauto |].
    destruct (if PyStr.contains "youtu.be" _ then _ else None); eauto.
  - intros e Hne. unfold Transcription._extract_video_id.
    destruct url as [|c url']; [contradiction |]. cbn [str_truthy negb].
    rewrite Hparse.
    destruct (if PyStr.contains "youtube.com" _ then _ else None); [discriminate |].
    destruct (if PyStr.contains "youtu.be" _ then _ else None); [discriminate |].
    destruct (Re.search _ (String c url')) as [v|] eqn:Hf; [discriminate |].
    intros [= <-]. split; [|reflexivity].
    intros run Hrun. destruct (id_run_found _ _ Hrun) as [vid Hvid]. congruence.
Qed.

(* --------------------------------------------------------------------- *)
(** ** Joining the segments                                               *)
(* --------------------------------------------------------------------- *)

Lemma lstrip_empty_iff s : Str.lstrip s = "" <-> all_space s = true.
Proof.
  induction s as [|c s IH]; simpl; [easy |].
  destruct (Str.is_space c); simpl; [exact IH | easy].
Qed.

Lemma rstrip_empty_iff s : Str.rstrip s = "" <-> all_space s = true.
Proof.
  induction s as [|c s IH]; simpl; [easy |].
  destruct (Str.rstrip s) as [|d t].
  - destruct (Str.is_space c); simpl; [|easy].
    split; [intros _; now apply IH | reflexivity].
  - split; [discriminate |]. intros H. apply andb_true_iff in H as [_ H].
    apply IH in H. discriminate.
Qed.

Lemma all_space_lstrip s : all_space (Str.lstrip s) = all_space s.
Proof.
  induction s as [|c s IH]; simpl; [reflexivity |].
  destruct (Str.is_space c) eqn:Hc; simpl; [exact IH | now rewrite Hc].
Qed.

Lemma strip_empty_iff s : Str.strip s = "" <-> all_space s = true.
Proof. unfold Str.strip. now rewrite rstrip_empty_iff, all_space_lstrip. Qed.

Lemma all_space_app a b : all_space (a +:+ b) = all_space a && all_space b.
Proof.
  induction a as [|c a IH]; str_norm; [reflexivity |].
  now rewrite IH, andb_assoc.
Qed.

Lemma all_space_join parts :
  all_space (Py.join " " parts) = forallb all_space parts.
Proof.
  induction parts as [|p rest IH]; [reflexivity |].
  destruct rest as [|q rest'].
  - simpl. now rewrite andb_true_r.
  - change (Py.join " " (p :: q :: rest'))
      with (p +:+ " " +:+ Py.join " " (q :: rest')).
    rewrite !all_space_app, IH. reflexivity.
Qed.

Lemma strip_starts_clean s : starts_with_space (Str.strip s) = false.
Proof. apply rstrip_keeps_head, lstrip_no_leading_space. Qed.

Lemma all_space_strip s : all_space (Str.strip s) = all_space s.
Proof.
  destruct (all_space s) eqn:Hs.
  - apply strip_empty_iff in Hs. now rewrite Hs.
  - destruct (Str.strip s) as [|c t] eqn:Ht.
    + apply strip_empty_iff in Ht. congruence.
    + pose proof (strip_starts_clean s) as Hc. rewrite Ht in Hc. simpl in *.
      now rewrite Hc.
Qed.

Lemma transcript_clean (segments : list Transcription.segment) :
  starts_with_space (Transcription._segments_to_text segments) = false
  /\ ends_with_space (Transcription._segments_to_text segments) = false.
Proof. split; [apply strip_starts_clean | apply rstrip_no_trailing_space]. Qed.

(** X15. The transcript [_segments_to_text] builds never starts or ends
    with a space character, and it is empty exactly when every segment is
    blank: without text, or with a text of space characters only. *)
Theorem transcript_empty_iff_all_blank (segments : list Transcription.segment) :
  (Transcription._segments_to_text segments = "" <-> Forall blank_segment segments)
  /\ starts_with_space (Transcription._segments_to_text segments) = false
  /\ ends_with_space (Transcription._segments_to_text segments) = false.
Proof.
  split; [|split; [apply strip_starts_clean | apply rstrip_no_trailing_space]].
  unfold Transcription._segments_to_text.
  rewrite strip_empty_iff, all_space_join.
  induction segments as [|[text] rest IH]; simpl.
  - split; [constructor | reflexivity].
  - unfold blank_segment at 1.
    destruct text as [[|c t]|]; simpl.
    + rewrite IH. split; [now constructor | now intros H; apply Forall_cons in H].
    + change (Str.rstrip (Str.lstrip (String c t))) with (Str.strip (String c t)).
      rewrite all_space_strip, andb_true_iff, IH. simpl. split.
      * intros [H1 H2]. now constructor.
      * intros H. apply Forall_cons in H as [H1 H2]. now split.
    + rewrite IH. split; [now constructor | now intros H; apply Forall_cons in H].
Qed.

(* --------------------------------------------------------------------- *)
(** ** The agent's responses                                              *)
(* --------------------------------------------------------------------- *)

Section TranscriptionProcess.

Variable urlparse : string -> Transcription.result Transcription.parsed_url.
Variable parse_qs : string -> gmap string (list string).
Variable fetch : string -> Transcription.result Transcription.fetched.

Lemma fetch_and_join_spec video_id response asked :
  str_truthy video_id = true ->
  Transcription.fetch_and_join fetch video_id = (response, asked) ->
  asked = [video_id]
  /\ (Transcription.status response = SUCCESS ->
      exists transcript,
        Transcription.data response = Some (video_id, transcript)
        /\ transcript <> ""
        /\ starts_with_space transcript = false
        /\ ends_with_space transcript = false
        /\ Transcription.error response = None)
  /\ (Transcription.status response <> SUCCESS ->
      Transcription.status response = FAILED
      /\ Transcription.data response = None
      /\ (exists msg, Transcription.error response = Some msg)
      /\ Transcription.error_type response <> Some "validation_error"
      /\ Transcription.error_type response <> Some "invalid_url").
Proof.
  intros Hid. unfold Transcription.fetch_and_join, Transcription._fetch_raw.
  rewrite Hid. cbn [negb].
  set (raw := match fetch video_id with
              | Transcription.Return (Transcription.FetchedTranscript r) => r
              | Transcription.Return (Transcription.FetchedList l) =>
                  Transcription.Return l
              | Transcription.Raises e => Transcription.Raises e
              end).
  destruct raw as [segments|e].
  - destruct (str_truthy (Transcription._segments_to_text segments)) eqn:Ht;
      intros [= <- <-]; simpl; (split; [reflexivity |]); split; try easy.
    + intros _. exists (Transcription._segments_to_text segments).
      destruct (transcript_clean segments) as [H1 H2].
      repeat split; try assumption.
      intros H. rewrite H in Ht. discriminate.
    + intros _. repeat split; eauto; discriminate.
  - intros [= <- <-]. simpl. split; [reflexivity |]. split; [discriminate |].
    intros _. repeat split; eauto; destruct (Transcription.exc_class e); discriminate.
Qed.

Lemma fetch_and_join_success_type video_id response asked :
  Transcription.fetch_and_join fetch video_id = (response, asked) ->
  Transcription.status response = SUCCESS ->
  Transcription.error_type response = None.
Proof.
  unfold Transcription.fetch_and_join.
  destruct (Transcription._fetch_raw fetch video_id) as [[segments|e] asked'].
  - destruct (negb (str_truthy (Transcription._segments_to_text segments)));
      intros [= <- <-]; simpl; [discriminate | reflexivity].
  - intros [= <- <-]. discriminate.
Qed.

End TranscriptionProcess.

Lemma length_11_truthy (s : string) : String.length s = 11 -> str_truthy s = true.
Proof. destruct s; [discriminate | reflexivity]. Qed.

(** X16. A [video_id] entry decides alone.  When the input has one and it
    is not a string of exactly eleven characters, the response is a
    validation error and the transcript service is not asked, whatever the
    [url] entry holds; when it is one, that ID is the only one asked for
    and the [url] entry is not looked at. *)
Theorem video_id_takes_precedence
    (urlparse urlparse' : string -> Transcription.result Transcription.parsed_url)
    (parse_qs parse_qs' : string -> gmap string (list string))
    (fetch : string -> Transcription.result Transcription.fetched)
    (d : gmap string pyval) (v : pyval) :
  d !! "video_id" = Some v ->
  ((forall s, v = PStr s -> String.length s <> 11) ->
   exists msg,
     Transcription.process urlparse parse_qs fetch (Some d)
     = (Transcription.failed msg "validation_error", []))
  /\ (forall s, v = PStr s -> String.length s = 11 ->
      (Transcription.process urlparse parse_qs fetch (Some d)).2 = [s]
      /\ forall other,
          Transcription.process urlparse parse_qs fetch (Some d)
          = Transcription.process urlparse' parse_qs' fetch
              (Some (<["url" := other]> d))).
Proof.
  intros Hv. split.
  - intros Hbad. unfold Transcription.process.
    destruct (bool_decide (size d = 0)); [eauto |]. rewrite Hv.
    destruct v as [s|l|]; eauto.
    specialize (Hbad s eq_refl). apply Nat.eqb_neq in Hbad. rewrite Hbad.
    rewrite orb_true_r. eauto.
  - intros s -> Hlen.
    assert (Hsize : bool_decide (size d = 0) = false).
    { apply bool_decide_eq_false. intros H0. apply map_size_empty_iff in H0.
      rewrite H0, lookup_empty in Hv. discriminate. }
    assert (Hrun : Transcription.process urlparse parse_qs fetch (Some d)
                   = Transcription.fetch_and_join fetch s).
    { unfold Transcription.process. rewrite Hsize, Hv.
      apply Nat.eqb_eq in Hlen as Hlen'. rewrite Hlen'.
      now rewrite (length_11_truthy _ Hlen). }
    split.
    + rewrite Hrun. unfold Transcription.fetch_and_join, Transcription._fetch_raw.
      now rewrite (length_11_truthy _ Hlen).
    + intros other. rewrite Hrun. unfold Transcription.process.
      assert (Hsize' : bool_decide (size (<["url" := other]> d) = 0) = false).
      { apply bool_decide_eq_false. intros H0. apply map_size_empty_iff in H0.
        apply (f_equal (fun m => m !! "url")) in H0.
        rewrite lookup_insert_eq, lookup_empty in H0. discriminate. }
      rewrite Hsize', lookup_insert_ne by discriminate. rewrite Hv.
      apply Nat.eqb_eq in Hlen as Hlen'. rewrite Hlen'.
      now rewrite (length_11_truthy _ Hlen).
Qed.

(** X17. What a response of the transcription agent guarantees.  On
    SUCCESS it carries a video ID of exactly eleven characters and a
    transcript that is not empty and has no space character at either
    end, and the service was asked once, for that ID.  Any other response
    is FAILED, has no data and an error message; the service is asked at
    most once, and not at all when the error is a validation error or an
    invalid URL. *)
Theorem transcription_response_guarantees
    (urlparse : string -> Transcription.result Transcription.parsed_url)
    (parse_qs : string -> gmap string (list string))
    (fetch : string -> Transcription.result Transcription.fetched)
    (input_data : option (gmap string pyval)) :
  let response := (Transcription.process urlparse parse_qs fetch input_data).1 in
  let asked := (Transcription.process urlparse parse_qs fetch input_data).2 in
  (Transcription.status response = SUCCESS ->
   exists video_id transcript,
     Transcription.data response = Some (video_id, transcript)
     /\ String.length video_id = 11
     /\ transcript <> ""
     /\ starts_with_space transcript = false
     /\ ends_with_space transcript = false
     /\ Transcription.error response = None
     /\ asked = [video_id])
  /\ (Transcription.status response <> SUCCESS ->
      Transcription.status response = FAILED
      /\ Transcription.data response = None
      /\ exists msg, Transcription.error response = Some msg)
  /\ length asked <= 1
  /\ (Transcription.error_type response = Some "validation_error"
      \/ Transcription.error_type response = Some "invalid_url" ->
      asked = []).
Proof.
  assert (Hfailed : forall msg kind,
             let response := Transcription.failed msg kind in
             (Transcription.status response = SUCCESS ->
              exists video_id transcript,
                Transcription.data response = Some (video_id, transcript)
                /\ String.length video_id = 11
                /\ transcript <> ""
                /\ starts_with_space transcript = false
                /\ ends_with_space transcript = false
                /\ Transcription.error response = None
                /\ @nil string = [video_id])
             /\ (Transcription.status response <> SUCCESS ->
                 Transcription.status response = FAILED
                 /\ Transcription.data response = None
                 /\ exists m, Transcription.error response = Some m)
             /\ length (@nil string) <= 1
             /\ (Transcription.error_type response = Some "validation_error"
                 \/ Transcription.error_type response = Some "invalid_url" ->
                 @nil string = [])).
  { intros msg kind. simpl. repeat split; try discriminate; eauto. }
  assert (Hfetch : forall video_id,
             String.length video_id = 11 ->
             let response := (Transcription.fetch_and_join fetch video_id).1 in
             let asked := (Transcription.fetch_and_join fetch video_id).2 in
             (Transcription.status response = SUCCESS ->
              exists vid transcript,
                Transcription.data response = Some (vid, transcript)
                /\ String.length vid = 11
                /\ transcript <> ""
                /\ starts_with_space transcript = false
                /\ ends_with_space transcript = false
                /\ Transcription.error response = None
                /\ asked = [vid])
             /\ (Transcription.status response <> SUCCESS ->
                 Transcription.status response = FAILED
                 /\ Transcription.data response = None
                 /\ exists m, Transcription.error response = Some m)
             /\ length asked <= 1
             /\ (Transcription.error_type response = Some "validation_error"
                 \/ Transcription.error_type response = Some "invalid_url" ->
                 asked = [])).
  { intros video_id Hlen.
    destruct (Transcription.fetch_and_join fetch video_id) as [response asked] eqn:Hrun.
    destruct (fetch_and_join_spec fetch video_id response asked
                (length_11_truthy _ Hlen) Hrun) as (-> & Hok & Hko).
    simpl. split; [|split; [|split]].
    - intros Hs. destruct (Hok Hs) as (t & H1 & H2 & H3 & H4 & H5).
      exists video_id, t. repeat split; assumption.
    - intros Hs. destruct (Hko Hs) as (H1 & H2 & H3 & _). auto.
    - simpl. lia.
    - intros Hkind.
      destruct (Transcription.status response) eqn:Hst.
      + pose proof (fetch_and_join_success_type fetch video_id _ _ Hrun Hst) as Het.
        exfalso. destruct Hkind as [Hk | Hk]; congruence.
      + assert (Hne : FAILED <> SUCCESS) by discriminate.
        destruct (Hko Hne) as (_ & _ & _ & H4 & H5). destruct Hkind; contradiction.
      + assert (Hne : PARTIAL <> SUCCESS) by discriminate.
        destruct (Hko Hne) as (_ & _ & _ & H4 & H5). destruct Hkind; contradiction. }
  unfold Transcription.process.
  destruct input_data as [d|]; [|apply Hfailed].
  destruct (bool_decide (size d = 0)); [apply Hfailed |].
  destruct (d !! "video_id") as [[video_id|l|]|].
  - destruct (negb (str_truthy video_id) || negb (String.length video_id =? 11)%nat)
      eqn:Hcheck; [apply Hfailed |].
    apply orb_false_iff in Hcheck as [_ Hlen].
    apply negb_false_iff, Nat.eqb_eq in Hlen. now apply Hfetch.
  - apply Hfailed.
  - apply Hfailed.
  - destruct (d !! "url") as [[url|l|]|]; try apply Hfailed.
    destruct (Transcription._extract_video_id urlparse parse_qs url) as [vid|e] eqn:Hx;
      [|apply Hfailed].
    apply Hfetch. now apply (extract_video_id_length urlparse parse_qs url).
Qed.

(* ===================================================================== *)
(** * The further properties at concrete inputs                           *)
(* ===================================================================== *)

Lemma batch_response_is_consistent_witness :
  let input_data := channels_input "@a, not a channel" in
  let response := respond ["@a"; "not a channel"]
                    (process_channels world_steady ["@a"; "not a channel"]
                       empty_batch fresh).1 in
  let st' := (process world_steady input_data fresh).2 in
  process world_steady input_data fresh = (Ok response, st')
  /\ data response
     = Some (DataBatch [first_result] [info first_result]
               (Some [ {| channel := "not a channel";
                          message := "Could not resolve channel ID" |} ]) 2 1)
  /\ [info first_result] = map info (List.filter is_new [first_result])
  /\ 1 = length [first_result]
  /\ 2 = length (_extract_channels input_data)
  /\ 1 <= 2.
Proof.
  intros input_data response st'.
  assert (Hrun : process world_steady input_data fresh = (Ok response, st'))
    by (vm_compute; reflexivity).
  assert (Hdata : data response
                  = Some (DataBatch [first_result] [info first_result]
                            (Some [ {| channel := "not a channel";
                                       message := "Could not resolve channel ID" |} ])
                            2 1)) by (vm_compute; reflexivity).
  split; [exact Hrun |]. split; [exact Hdata |].
  destruct (batch_response_is_consistent world_steady input_data fresh st' response
              _ _ _ _ _ Hrun Hdata) as (H1 & H2 & H3 & H4 & _).
  repeat split; assumption.
Defined.

Lemma last_seen_is_last_result_witness :
  let run := process_channels world_flapping ["@a"; channel_a] empty_batch fresh in
  process_channels world_flapping ["@a"; channel_a] empty_batch fresh = (run.1, run.2)
  /\ results run.1 = results empty_batch ++ results run.1
  /\ last_video_for channel_a (results run.1) = Some "video2"
  /\ StateManager.get_last_seen channel_a (st_doc run.2) = Ok (Some "video2").
Proof.
  intros run.
  assert (Hrun : process_channels world_flapping ["@a"; channel_a] empty_batch fresh
                 = (run.1, run.2)) by (vm_compute; reflexivity).
  assert (Hres : results run.1 = results empty_batch ++ results run.1) by reflexivity.
  assert (Hlast : last_video_for channel_a (results run.1) = Some "video2")
    by (vm_compute; reflexivity).
  split; [exact Hrun |]. split; [exact Hres |]. split; [exact Hlast |].
  pose proof (last_seen_is_last_result world_flapping channel_a ["@a"; channel_a]
                empty_batch run.1 fresh run.2 (results run.1) Hrun Hres) as H.
  rewrite Hlast in H. exact H.
Defined.

Lemma well_shaped_document_no_exception_witness :
  let input_data := channels_input "@a, not a channel" in
  let response := respond ["@a"; "not a channel"]
                    (process_channels world_steady ["@a"; "not a channel"]
                       empty_batch fresh).1 in
  let st' := (process world_steady input_data fresh).2 in
  dict_shaped (st_doc fresh)
  /\ process world_steady input_data fresh = (Ok response, st')
  /\ dict_shaped (st_doc st')
  /\ Forall is_plain_error (response_errors response).
Proof.
  intros input_data response st'.
  assert (Hd : dict_shaped (st_doc fresh)) by apply StateManagerFacts.empty_doc_dict_shaped.
  assert (Hrun : process world_steady input_data fresh = (Ok response, st'))
    by (vm_compute; reflexivity).
  split; [exact Hd |]. split; [exact Hrun |].
  exact (well_shaped_document_no_exception world_steady input_data fresh st' response
           Hd Hrun).
Defined.

Lemma process_keeps_cache_ids_witness :
  let input_data := channels_input "@a, not a channel" in
  cache_holds_ids (st_doc fresh)
  /\ process world_steady input_data fresh
     = ((process world_steady input_data fresh).1,
        (process world_steady input_data fresh).2)
  /\ cache_holds_ids (st_doc (process world_steady input_data fresh).2).
Proof.
  intros input_data.
  assert (Hd : cache_holds_ids (st_doc fresh)) by apply empty_doc_cache_holds_ids.
  assert (Hrun : process world_steady input_data fresh
                 = ((process world_steady input_data fresh).1,
                    (process world_steady input_data fresh).2))
    by (vm_compute; reflexivity).
  split; [exact Hd |]. split; [exact Hrun |].
  exact (process_keeps_cache_ids world_steady input_data fresh _ _ Hd Hrun).
Defined.

Lemma result_references_are_cached_witness :
  let input_data := channels_input "@a" in
  let response := respond ["@a"]
                    (process_channels world_steady ["@a"] empty_batch fresh).1 in
  let st' := (process world_steady input_data fresh).2 in
  process world_steady input_data fresh = (Ok response, st')
  /\ response_videos response = [first_result]
  /\ _resolve_channel_id world_steady "@a" st' = (Ok (Some channel_a), st').
Proof.
  intros input_data response st'.
  assert (Hrun : process world_steady input_data fresh = (Ok response, st'))
    by (vm_compute; reflexivity).
  assert (Hvideos : response_videos response = [first_result])
    by (vm_compute; reflexivity).
  split; [exact Hrun |]. split; [exact Hvideos |].
  pose proof (result_references_are_cached world_steady input_data fresh st' response
                Hrun) as Hall.
  rewrite Hvideos in Hall. apply Forall_cons in Hall as [[_ H] _]. exact H.
Defined.

Lemma monitor_report_is_all_or_nothing_witness :
  let run := Tools.youtube_channels_monitor demo_env world_steady ["@a"; channel_a] None in
  run.1 = Tools.MonitorReport 2 2 [info first_result] [first_result; second_result] None
  /\ 2 = 2 /\ 0 < 2 /\ length [first_result; second_result] = 2.
Proof.
  intros run.
  assert (Hrun : Tools.youtube_channels_monitor demo_env world_steady ["@a"; channel_a] None
                 = (Tools.MonitorReport 2 2 [info first_result]
                      [first_result; second_result] None, run.2))
    by (vm_compute; reflexivity).
  split; [exact (f_equal fst Hrun) |].
  destruct (monitor_report_is_all_or_nothing demo_env world_steady ["@a"; channel_a]
              None run.2 2 2 _ _ _ Hrun) as (H1 & H2 & _ & H4 & _).
  repeat split; assumption.
Defined.

Lemma monitor_drops_partial_results_witness :
  let refs := ["@a"; "not a channel"] in
  let b := (process_channels world_steady refs empty_batch fresh).1 in
  let st1 := (process_channels world_steady refs empty_batch fresh).2 in
  process_channels world_steady (flat_map reference_fields refs) empty_batch fresh
  = (b, st1)
  /\ errors b <> []
  /\ results b = [first_result]
  /\ StateManager.get_last_seen channel_a (st_doc st1) = Ok (Some "video1")
  /\ Tools.youtube_channels_monitor demo_env world_steady refs (Some fresh)
     = (Tools.ToolError "Failed to monitor channels",
        Some (log (EvSave (st_doc st1)) st1)).
Proof.
  intros refs b st1.
  assert (Hloop : process_channels world_steady (flat_map reference_fields refs)
                    empty_batch fresh = (b, st1)) by (vm_compute; reflexivity).
  assert (Herr : errors b <> []) by (vm_compute; discriminate).
  assert (Hres : results b = [first_result]) by (vm_compute; reflexivity).
  assert (Hseen : StateManager.get_last_seen channel_a (st_doc st1) = Ok (Some "video1"))
    by (vm_compute; reflexivity).
  assert (Hsave : storage_save world_steady (now st1) (st_doc st1) = None)
    by reflexivity.
  split; [exact Hloop |]. split; [exact Herr |]. split; [exact Hres |].
  split; [exact Hseen |].
  pose proof (monitor_drops_partial_results demo_env world_steady refs fresh st1 b
                Hloop Herr Hsave) as H.
  rewrite Hres in H. exact H.
Defined.

Lemma latest_returns_first_result_witness :
  let response := respond ["@a"]
                    (process_channels world_steady ["@a"] empty_batch fresh).1 in
  let agent' := (process world_steady (tool_input "@a") fresh).2 in
  "@a" <> ""
  /\ process world_steady (tool_input "@a") fresh = (Ok response, agent')
  /\ success response = true
  /\ exists r rest,
      response_videos response = r :: rest
      /\ Tools.youtube_channel_latest demo_env world_steady "@a" (Some fresh)
         = (Tools.LatestVideo (channel_title (info r)) (video_title (info r))
              (video_url (info r)) (video_id (info r)) (published_at (info r))
              (is_new r),
            Some agent').
Proof.
  intros response agent'.
  assert (Hne : "@a" <> "") by discriminate.
  assert (Hrun : process world_steady (tool_input "@a") fresh = (Ok response, agent'))
    by (vm_compute; reflexivity).
  assert (Hsucc : success response = true) by (vm_compute; reflexivity).
  split; [exact Hne |]. split; [exact Hrun |]. split; [exact Hsucc |].
  exact (latest_returns_first_result demo_env world_steady "@a" fresh agent' response
           Hne Hrun Hsucc).
Defined.

Lemma extracted_video_id_has_11_chars_witness :
  Transcription._extract_video_id demo_urlparse demo_parse_qs short_url
  = Transcription.Return "dQw4w9WgXcQ"
  /\ String.length "dQw4w9WgXcQ" = 11.
Proof.
  assert (Hrun : Transcription._extract_video_id demo_urlparse demo_parse_qs short_url
                 = Transcription.Return "dQw4w9WgXcQ") by (vm_compute; reflexivity).
  split; [exact Hrun |].
  exact (extracted_video_id_has_11_chars demo_urlparse demo_parse_qs short_url _ Hrun).
Defined.

Lemma video_id_found_whenever_possible_witness :
  let url := "example.org/a-long-path-segment" in
  demo_urlparse url
  = Transcription.Return {| Transcription.hostname := None;
                            Transcription.query := "";
                            Transcription.path := url |}
  /\ has_id_run url "a-long-path"
  /\ exists vid,
      Transcription._extract_video_id demo_urlparse demo_parse_qs url
      = Transcription.Return vid.
Proof.
  intros url.
  assert (Hparse : demo_urlparse url
                   = Transcription.Return {| Transcription.hostname := None;
                                             Transcription.query := "";
                                             Transcription.path := url |})
    by reflexivity.
  assert (Hrun : has_id_run url "a-long-path").
  { exists "example.org/", "-segment". repeat split. }
  split; [exact Hparse |]. split; [exact Hrun |].
  exact (proj1 (video_id_found_whenever_possible demo_urlparse demo_parse_qs url _ Hparse)
           _ Hrun).
Defined.

Lemma video_id_takes_precedence_witness :
  let d : gmap string pyval :=
    {["video_id" := PStr "too-short"; "url" := PStr short_url]} in
  d !! "video_id" = Some (PStr "too-short")
  /\ (forall s, PStr "too-short" = PStr s -> String.length s <> 11)
  /\ exists msg,
      Transcription.process demo_urlparse demo_parse_qs demo_fetch (Some d)
      = (Transcription.failed msg "validation_error", []).
Proof.
  intros d.
  assert (Hv : d !! "video_id" = Some (PStr "too-short")) by (vm_compute; reflexivity).
  assert (Hbad : forall s, PStr "too-short" = PStr s -> String.length s <> 11).
  { intros s [= <-]. discriminate. }
  split; [exact Hv |]. split; [exact Hbad |].
  exact (proj1 (video_id_takes_precedence demo_urlparse demo_urlparse demo_parse_qs
                  demo_parse_qs demo_fetch d _ Hv) Hbad).
Defined.

Lemma transcription_response_guarantees_witness :
  let run := Transcription.process demo_urlparse demo_parse_qs demo_fetch
               (Some {["url" := PStr short_url]}) in
  run = ({| Transcription.status := SUCCESS;
            Transcription.data := Some ("dQw4w9WgXcQ", "Never gonna give you up");
            Transcription.error := None;
            Transcription.error_type := None |}, ["dQw4w9WgXcQ"])
  /\ length run.2 <= 1.
Proof.
  intros run. split; [vm_compute; reflexivity |].
  exact (proj1 (proj2 (proj2 (transcription_response_guarantees demo_urlparse
                                demo_parse_qs demo_fetch
                                (Some {["url" := PStr short_url]}))))).
Defined.

Lemma is_new_characterized_witness :
  let refs := ["@a"; channel_a; "@a"] in
  let run := process_channels world_flapping refs empty_batch fresh in
  let r1 := first_result in
  let r2 := {| info := make_video_info channel_a (demo_snippet "video2");
               is_new := true; channel_url := channel_a |} in
  process_channels world_flapping refs empty_batch fresh = (run.1, run.2)
  /\ results run.1 = results empty_batch ++ [r1; r2] ++ first_result :: []
  /\ exists s,
      seen_after channel_a [r1; r2]
        (StateManager.get_last_seen channel_a (st_doc fresh)) = Ok s
      /\ is_new first_result = differs s "video1".
Proof.
  intros refs run r1 r2.
  assert (Hrun : process_channels world_flapping refs empty_batch fresh = (run.1, run.2))
    by (vm_compute; reflexivity).
  assert (Hres : results run.1 = results empty_batch ++ [r1; r2] ++ first_result :: [])
    by (vm_compute; reflexivity).
  split; [exact Hrun |]. split; [exact Hres |].
  exact (is_new_characterized world_flapping refs empty_batch run.1 fresh run.2
           [r1; r2] [] first_result Hrun Hres).
Defined.

Lemma at_handle_precedes_path_witness :
  let url := "https://www.youtube.com/c/Name?from=@other" in
  _extract_channel_name_from_url url = Some "other"
  /\ (has_segment "@" url "other"
      \/ (no_segment "@" url
          /\ (has_segment "/c/" url "other" \/ has_segment "/user/" url "other"))).
Proof.
  intros url.
  assert (Hrun : _extract_channel_name_from_url url = Some "other") by reflexivity.
  split; [exact Hrun |].
  exact (at_handle_precedes_path url "other" Hrun).
Defined.


Lemma results_are_well_formed_witness :
  Forall well_formed_result
    (response_videos
       (respond ["@a"] (process_channels world_steady ["@a"] empty_batch fresh).1)).
Proof.
  pose proof (results_are_well_formed world_steady (channels_input "@a") fresh) as H.
  assert (Hrun : (process world_steady (channels_input "@a") fresh).1
                 = Ok (respond ["@a"]
                         (process_channels world_steady ["@a"] empty_batch fresh).1))
    by (vm_compute; reflexivity).
  rewrite Hrun in H. exact H.
Defined.

Lemma extracted_references_are_clean_witness :
  let input_data := channels_input " @a ,, UCabcdefghijklmnopqrstuv ," in
  _extract_channels input_data = ["@a"; channel_a]
  /\ Forall clean_reference (_extract_channels input_data)
  /\ Forall (fun ref => has_char "," ref = false) (_extract_channels input_data).
Proof.
  intros input_data.
  split; [vm_compute; reflexivity |].
  destruct (extracted_references_are_clean input_data) as [Hclean Hcomma].
  split; [exact Hclean |].
  apply (Hcomma {["channels" := PStr " @a ,, UCabcdefghijklmnopqrstuv ,"]}
           " @a ,, UCabcdefghijklmnopqrstuv ,"); [reflexivity |].
  apply lookup_singleton_eq.
Defined.

Lemma monitor_references_witness :
  _extract_channels (tool_input (Py.join ", " ["@a,@b"; " "; channel_a]))
  = ["@a"; "@b"; channel_a]
  /\ (Forall (fun entry => clean_reference entry /\ has_char "," entry = false)
             ["@a"; channel_a]
      /\ _extract_channels (tool_input (Py.join ", " ["@a"; channel_a]))
         = ["@a"; channel_a]).
Proof.
  split.
  - rewrite (proj1 (monitor_references ["@a,@b"; " "; channel_a])).
    vm_compute. reflexivity.
  - assert (Hclean : Forall (fun entry => clean_reference entry
                                          /\ has_char "," entry = false)
                       ["@a"; channel_a]).
    { repeat constructor; discriminate. }
    split; [exact Hclean |].
    exact (proj2 (monitor_references ["@a"; channel_a]) Hclean).
Defined.

Lemma transcript_empty_iff_all_blank_witness :
  let blanks := [ {| Transcription.seg_text := Some "  " |};
                  {| Transcription.seg_text := None |};
                  {| Transcription.seg_text := Some "" |} ] in
  Forall blank_segment blanks
  /\ Transcription._segments_to_text blanks = "".
Proof.
  intros blanks.
  assert (Hblank : Forall blank_segment blanks) by (repeat constructor).
  split; [exact Hblank |].
  exact (proj2 (proj1 (transcript_empty_iff_all_blank blanks)) Hblank).
Defined.
